(** * FXT telemetry SDK: a shallow embedding of the single-file script

    The script keeps one process-wide object [FXT] and talks to a browser:
    timers, listeners, a mutation observer, [fetch] and [sendBeacon].
    Both are modelled as explicit state: [FXT] is the record of the
    [FXT._*] fields, [Host] is what the script can observe of the browser.
    Every function of the script becomes a computation in a small state
    and exception monad over the pair of them.

    Conventions
    - timestamps ([performance.now()], [Date.now()]) are integer
      milliseconds ([Z]); on them [Math.round] is the identity;
    - an element is the tuple of readings the handlers take from it
      ([cssPath(el)], tag, type, step, value, validity);
    - event records hold only JSON data, so [JSON.parse(JSON.stringify x)]
      is [x];
    - timer handles are positive integers (the HTML standard requires a
      handle greater than zero), hence always truthy. *)

From Stdlib Require Import ZArith Lia.
From Stdlib.Strings Require Ascii Byte.
From stdpp Require Import base list strings.

Local Open Scope Z_scope.

(** ** Data carried by event records *)

Inductive Kind := empty | numeric | alpha | alphanum | other.

Record ValueSummary := { vs_length : nat; vs_kind : Kind }.

Record Validity := {
  valid : bool;
  patternMismatch : bool;
  valueMissing : bool;
  typeMismatch : bool;
  tooShort : bool;
  tooLong : bool
}.

(** What the handlers read from [e.target]. [el_value] is the value as
    UTF-16 code units; [el_stepNext] is [Some (from, to)] when the element
    has an ancestor carrying [data-step-next]. *)
Record Element := {
  el_path : string;
  el_tag : string;
  el_type : option string;
  el_step : option string;
  el_value : list N;
  el_validity : option Validity;
  el_stepNext : option (option string * option string)
}.

Record ElInfo := {
  i_tag : string;
  i_fieldType : option string;
  i_step : option string
}.

Inductive Change :=
| added (selector : string) (tagName : option string)
| removed (selector : string) (tagName : option string)
| attr (selector : string) (attribute : option string).

Record Summary := {
  s_field : string;
  s_focusCount : nat;
  s_totalTimeSpentMs : Z;
  s_editCount : nat;
  s_validationFailures : nat;
  s_backspaceCount : nat;
  s_pasteCount : nat;
  s_clearCount : nat
}.

Record Reasons := {
  repeatedValidationFailures : bool;
  excessiveTimeSpent : bool;
  multipleReturns : bool;
  manyEdits : bool;
  multipleClears : bool
}.

Record PainPoint := {
  pp_field : string;
  pp_reasons : Reasons;
  pp_metrics : Summary
}.

Inductive EventData :=
| DFocus (formSel : string) (field : string) (i : ElInfo)
    (vs : option ValueSummary)
    (focusCount previousValidationFailures previousEditCount : nat)
| DBlur (field : string) (i : ElInfo) (vs : option ValueSummary)
    (timeSpentMs totalTimeSpentMs : Z)
    (editCount validationFailures backspaceCount pasteCount : nat)
| DChange (field : string) (i : ElInfo) (vs : option ValueSummary)
    (editCount clearCount : nat) (validity : option Validity)
    (validationFailureCount : option nat)
| DInvalid (field : string) (i : ElInfo) (validity : option Validity)
    (validationFailureCount editCount : nat) (timeSpentMs : Z)
    (isRepeatedFailure : bool)
| DError (errorType : string) (detail : string)
| DStepTransition (fromStep toStep : option string)
| DPaste (field : string) (i : ElInfo)
| DDomMutation (changes : list Change)
| DFieldAnalytics (reason : string) (dropOffField : option string)
    (totalFieldsInteracted : nat) (painPoints : list PainPoint)
    (painPointCount : nat) (allFieldMetrics : list Summary)
| DSessionStart (url : string)
| DSessionEnd (reason : string)
| DHeartbeat (tSinceStart : Z).

Record Event := { ev_type : string; ev_t : Z; ev_data : EventData }.

(** ** The SDK state: the [FXT._*] fields *)

Record Config := {
  endpoint : string;
  formSelector : string;
  batchSize : Z;
  flushIntervalMs : Z;
  mutationBatchMs : Z;
  maxMutationRecordsPerBatch : Z;
  sessionTtlMs : Z;
  enableConsoleWrap : bool;
  debug : bool
}.

Definition DEFAULTS : Config := {|
  endpoint := "/api/fxt/events";
  formSelector := "form";
  batchSize := 25;
  flushIntervalMs := 4000;
  mutationBatchMs := 3000;
  maxMutationRecordsPerBatch := 8;
  sessionTtlMs := 1000 * 60 * 60;
  enableConsoleWrap := true;
  debug := false
|}.

(** The argument of [FXT.init]: any subset of the options. *)
Record Opts := {
  o_endpoint : option string;
  o_formSelector : option string;
  o_batchSize : option Z;
  o_flushIntervalMs : option Z;
  o_mutationBatchMs : option Z;
  o_maxMutationRecordsPerBatch : option Z;
  o_sessionTtlMs : option Z;
  o_enableConsoleWrap : option bool;
  o_debug : option bool
}.

Definition no_opts : Opts :=
  Build_Opts None None None None None None None None None.

(** [Object.assign({}, DEFAULTS, opts || {})] *)
Definition assign (d : Config) (o : Opts) : Config := {|
  endpoint := default (endpoint d) (o_endpoint o);
  formSelector := default (formSelector d) (o_formSelector o);
  batchSize := default (batchSize d) (o_batchSize o);
  flushIntervalMs := default (flushIntervalMs d) (o_flushIntervalMs o);
  mutationBatchMs := default (mutationBatchMs d) (o_mutationBatchMs o);
  maxMutationRecordsPerBatch :=
    default (maxMutationRecordsPerBatch d) (o_maxMutationRecordsPerBatch o);
  sessionTtlMs := default (sessionTtlMs d) (o_sessionTtlMs o);
  enableConsoleWrap := default (enableConsoleWrap d) (o_enableConsoleWrap o);
  debug := default (debug d) (o_debug o)
|}.

Record Metrics := {
  focusCount : nat;
  totalTimeSpent : Z;
  editCount : nat;
  validationFailures : nat;
  lastValueLength : nat;
  backspaceCount : nat;
  pasteCount : nat;
  clearCount : nat;
  lastError : option Validity
}.

Definition TimerId := positive.
Definition SessionId := nat.
Definition ObserverId := nat.
Definition FormId := nat.

(** [FXT._fieldMetrics] is a JS object used as a map with string keys;
    [Object.entries] lists it in insertion order, so it is kept as an
    association list to which new keys are appended. [stepTransition]
    tells whether the method [FXT.stepTransition] has been defined. *)
Record FXT := {
  _config : Config;
  _sessionId : option SessionId;
  _events : list Event;
  _flushTimer : option TimerId;
  _lastFlush : Z;
  _startedAt : Z;
  _mutationBuffer : list Change;
  _mutationTimer : option TimerId;
  _isInitialized : bool;
  _isUnloading : bool;
  _fieldMetrics : list (string * Metrics);
  _currentFocusedField : option string;
  _fieldFocusStartTime : option Z;
  _mo : option ObserverId;
  stepTransition : bool
}.

(** ** The host: what the script sees of the browser *)

Inductive TimerKind :=
| FlushTimeout      (* set by scheduleFlush *)
| MutationTimeout   (* set by the observer callback *)
| HeartbeatInterval (* set by init, never cleared *).

Inductive ListenerKind :=
| OnFocus (f : FormId) | OnBlur (f : FormId) | OnChange (f : FormId)
| OnInvalid (f : FormId) | OnClick (f : FormId) | OnKeyDown (f : FormId)
| OnPaste (f : FormId)
| OnWindowError | OnUnhandledRejection | OnBeforeUnload
| OnVisibilityChange.

Inductive QueryResult :=
| QInvalid            (* querySelector throws a SyntaxError *)
| QNone               (* null: nothing matches *)
| QForm (f : FormId).

Inductive BeaconResult :=
| BeaconQueued        (* sendBeacon returned true *)
| BeaconRefused       (* sendBeacon returned false *)
| BeaconThrows.       (* Blob or sendBeacon raised *)

(** The body handed to the transport: the outbound batch. *)
Record Payload := {
  p_sessionId : option SessionId;
  p_startedAt : Z;
  p_events : list Event
}.

(** A [fetch] call that has not settled yet, with the number of
    [wrapFetch] layers it went through. [r_body] is the batch of a call
    made by [flush], and [None] for a call made by the page. *)
Record Request := {
  r_url : string;
  r_body : option Payload;
  r_wraps : nat
}.

Record Host := {
  perf : Z;                         (* performance.now() *)
  wall : Z;                         (* Date.now() *)
  hasPerformance : bool;
  hasFetch : bool;
  hasXHR : bool;
  hasMutationObserver : bool;
  sendBeacon : option BeaconResult; (* None: navigator.sendBeacon absent *)
  querySelector : string -> QueryResult;
  pathname : string;
  entropy : nat;                    (* next identifier the host will draw *)
  timers : list (TimerId * TimerKind);
  nextTimer : TimerId;
  listeners : list ListenerKind;
  observers : list (ObserverId * FormId * bool); (* bool: connected *)
  fetchWraps : nat;
  xhrWraps : nat;
  consoleWraps : nat;
  inflight : list Request;
  beacons : list Payload
}.

Record World := { fxt : FXT; host : Host }.

(** ** Field updates

    One function per field the script assigns to. *)

Definition set_config (v : Config) (x : FXT) : FXT :=
  {| _config := v; _sessionId := _sessionId x; _events := _events x;
     _flushTimer := _flushTimer x; _lastFlush := _lastFlush x;
     _startedAt := _startedAt x; _mutationBuffer := _mutationBuffer x;
     _mutationTimer := _mutationTimer x;
     _isInitialized := _isInitialized x; _isUnloading := _isUnloading x;
     _fieldMetrics := _fieldMetrics x;
     _currentFocusedField := _currentFocusedField x;
     _fieldFocusStartTime := _fieldFocusStartTime x; _mo := _mo x;
     stepTransition := stepTransition x |}.

Definition set_sessionId (v : option SessionId) (x : FXT) : FXT :=
  {| _config := _config x; _sessionId := v; _events := _events x;
     _flushTimer := _flushTimer x; _lastFlush := _lastFlush x;
     _startedAt := _startedAt x; _mutationBuffer := _mutationBuffer x;
     _mutationTimer := _mutationTimer x;
     _isInitialized := _isInitialized x; _isUnloading := _isUnloading x;
     _fieldMetrics := _fieldMetrics x;
     _currentFocusedField := _currentFocusedField x;
     _fieldFocusStartTime := _fieldFocusStartTime x; _mo := _mo x;
     stepTransition := stepTransition x |}.

Definition set_events (v : list Event) (x : FXT) : FXT :=
  {| _config := _config x; _sessionId := _sessionId x; _events := v;
     _flushTimer := _flushTimer x; _lastFlush := _lastFlush x;
     _startedAt := _startedAt x; _mutationBuffer := _mutationBuffer x;
     _mutationTimer := _mutationTimer x;
     _isInitialized := _isInitialized x; _isUnloading := _isUnloading x;
     _fieldMetrics := _fieldMetrics x;
     _currentFocusedField := _currentFocusedField x;
     _fieldFocusStartTime := _fieldFocusStartTime x; _mo := _mo x;
     stepTransition := stepTransition x |}.

Definition set_flushTimer (v : option TimerId) (x : FXT) : FXT :=
  {| _config := _config x; _sessionId := _sessionId x;
     _events := _events x; _flushTimer := v; _lastFlush := _lastFlush x;
     _startedAt := _startedAt x; _mutationBuffer := _mutationBuffer x;
     _mutationTimer := _mutationTimer x;
     _isInitialized := _isInitialized x; _isUnloading := _isUnloading x;
     _fieldMetrics := _fieldMetrics x;
     _currentFocusedField := _currentFocusedField x;
     _fieldFocusStartTime := _fieldFocusStartTime x; _mo := _mo x;
     stepTransition := stepTransition x |}.

Definition set_lastFlush (v : Z) (x : FXT) : FXT :=
  {| _config := _config x; _sessionId := _sessionId x;
     _events := _events x; _flushTimer := _flushTimer x; _lastFlush := v;
     _startedAt := _startedAt x; _mutationBuffer := _mutationBuffer x;
     _mutationTimer := _mutationTimer x;
     _isInitialized := _isInitialized x; _isUnloading := _isUnloading x;
     _fieldMetrics := _fieldMetrics x;
     _currentFocusedField := _currentFocusedField x;
     _fieldFocusStartTime := _fieldFocusStartTime x; _mo := _mo x;
     stepTransition := stepTransition x |}.

Definition set_mutationBuffer (v : list Change) (x : FXT) : FXT :=
  {| _config := _config x; _sessionId := _sessionId x;
     _events := _events x; _flushTimer := _flushTimer x;
     _lastFlush := _lastFlush x; _startedAt := _startedAt x;
     _mutationBuffer := v; _mutationTimer := _mutationTimer x;
     _isInitialized := _isInitialized x; _isUnloading := _isUnloading x;
     _fieldMetrics := _fieldMetrics x;
     _currentFocusedField := _currentFocusedField x;
     _fieldFocusStartTime := _fieldFocusStartTime x; _mo := _mo x;
     stepTransition := stepTransition x |}.

Definition set_mutationTimer (v : option TimerId) (x : FXT) : FXT :=
  {| _config := _config x; _sessionId := _sessionId x;
     _events := _events x; _flushTimer := _flushTimer x;
     _lastFlush := _lastFlush x; _startedAt := _startedAt x;
     _mutationBuffer := _mutationBuffer x; _mutationTimer := v;
     _isInitialized := _isInitialized x; _isUnloading := _isUnloading x;
     _fieldMetrics := _fieldMetrics x;
     _currentFocusedField := _currentFocusedField x;
     _fieldFocusStartTime := _fieldFocusStartTime x; _mo := _mo x;
     stepTransition := stepTransition x |}.

Definition set_isInitialized (v : bool) (x : FXT) : FXT :=
  {| _config := _config x; _sessionId := _sessionId x;
     _events := _events x; _flushTimer := _flushTimer x;
     _lastFlush := _lastFlush x; _startedAt := _startedAt x;
     _mutationBuffer := _mutationBuffer x;
     _mutationTimer := _mutationTimer x; _isInitialized := v;
     _isUnloading := _isUnloading x; _fieldMetrics := _fieldMetrics x;
     _currentFocusedField := _currentFocusedField x;
     _fieldFocusStartTime := _fieldFocusStartTime x; _mo := _mo x;
     stepTransition := stepTransition x |}.

Definition set_isUnloading (v : bool) (x : FXT) : FXT :=
  {| _config := _config x; _sessionId := _sessionId x;
     _events := _events x; _flushTimer := _flushTimer x;
     _lastFlush := _lastFlush x; _startedAt := _startedAt x;
     _mutationBuffer := _mutationBuffer x;
     _mutationTimer := _mutationTimer x;
     _isInitialized := _isInitialized x; _isUnloading := v;
     _fieldMetrics := _fieldMetrics x;
     _currentFocusedField := _currentFocusedField x;
     _fieldFocusStartTime := _fieldFocusStartTime x; _mo := _mo x;
     stepTransition := stepTransition x |}.

Definition set_fieldMetrics (v : list (string * Metrics)) (x : FXT) : FXT :=
  {| _config := _config x; _sessionId := _sessionId x;
     _events := _events x; _flushTimer := _flushTimer x;
     _lastFlush := _lastFlush x; _startedAt := _startedAt x;
     _mutationBuffer := _mutationBuffer x;
     _mutationTimer := _mutationTimer x;
     _isInitialized := _isInitialized x; _isUnloading := _isUnloading x;
     _fieldMetrics := v; _currentFocusedField := _currentFocusedField x;
     _fieldFocusStartTime := _fieldFocusStartTime x; _mo := _mo x;
     stepTransition := stepTransition x |}.

Definition set_currentFocusedField (v : option string) (x : FXT) : FXT :=
  {| _config := _config x; _sessionId := _sessionId x;
     _events := _events x; _flushTimer := _flushTimer x;
     _lastFlush := _lastFlush x; _startedAt := _startedAt x;
     _mutationBuffer := _mutationBuffer x;
     _mutationTimer := _mutationTimer x;
     _isInitialized := _isInitialized x; _isUnloading := _isUnloading x;
     _fieldMetrics := _fieldMetrics x; _currentFocusedField := v;
     _fieldFocusStartTime := _fieldFocusStartTime x; _mo := _mo x;
     stepTransition := stepTransition x |}.

Definition set_fieldFocusStartTime (v : option Z) (x : FXT) : FXT :=
  {| _config := _config x; _sessionId := _sessionId x;
     _events := _events x; _flushTimer := _flushTimer x;
     _lastFlush := _lastFlush x; _startedAt := _startedAt x;
     _mutationBuffer := _mutationBuffer x;
     _mutationTimer := _mutationTimer x;
     _isInitialized := _isInitialized x; _isUnloading := _isUnloading x;
     _fieldMetrics := _fieldMetrics x;
     _currentFocusedField := _currentFocusedField x;
     _fieldFocusStartTime := v; _mo := _mo x;
     stepTransition := stepTransition x |}.

Definition set_mo (v : option ObserverId) (x : FXT) : FXT :=
  {| _config := _config x; _sessionId := _sessionId x;
     _events := _events x; _flushTimer := _flushTimer x;
     _lastFlush := _lastFlush x; _startedAt := _startedAt x;
     _mutationBuffer := _mutationBuffer x;
     _mutationTimer := _mutationTimer x;
     _isInitialized := _isInitialized x; _isUnloading := _isUnloading x;
     _fieldMetrics := _fieldMetrics x;
     _currentFocusedField := _currentFocusedField x;
     _fieldFocusStartTime := _fieldFocusStartTime x; _mo := v;
     stepTransition := stepTransition x |}.

Definition set_stepTransition (v : bool) (x : FXT) : FXT :=
  {| _config := _config x; _sessionId := _sessionId x;
     _events := _events x; _flushTimer := _flushTimer x;
     _lastFlush := _lastFlush x; _startedAt := _startedAt x;
     _mutationBuffer := _mutationBuffer x;
     _mutationTimer := _mutationTimer x;
     _isInitialized := _isInitialized x; _isUnloading := _isUnloading x;
     _fieldMetrics := _fieldMetrics x;
     _currentFocusedField := _currentFocusedField x;
     _fieldFocusStartTime := _fieldFocusStartTime x; _mo := _mo x;
     stepTransition := v |}.

Definition set_perf (v : Z) (h : Host) : Host :=
  {| perf := v; wall := wall h; hasPerformance := hasPerformance h;
     hasFetch := hasFetch h; hasXHR := hasXHR h;
     hasMutationObserver := hasMutationObserver h;
     sendBeacon := sendBeacon h; querySelector := querySelector h;
     pathname := pathname h; entropy := entropy h; timers := timers h;
     nextTimer := nextTimer h; listeners := listeners h;
     observers := observers h; fetchWraps := fetchWraps h;
     xhrWraps := xhrWraps h; consoleWraps := consoleWraps h;
     inflight := inflight h; beacons := beacons h |}.

Definition set_wall (v : Z) (h : Host) : Host :=
  {| perf := perf h; wall := v; hasPerformance := hasPerformance h;
     hasFetch := hasFetch h; hasXHR := hasXHR h;
     hasMutationObserver := hasMutationObserver h;
     sendBeacon := sendBeacon h; querySelector := querySelector h;
     pathname := pathname h; entropy := entropy h; timers := timers h;
     nextTimer := nextTimer h; listeners := listeners h;
     observers := observers h; fetchWraps := fetchWraps h;
     xhrWraps := xhrWraps h; consoleWraps := consoleWraps h;
     inflight := inflight h; beacons := beacons h |}.

Definition set_entropy (v : nat) (h : Host) : Host :=
  {| perf := perf h; wall := wall h; hasPerformance := hasPerformance h;
     hasFetch := hasFetch h; hasXHR := hasXHR h;
     hasMutationObserver := hasMutationObserver h;
     sendBeacon := sendBeacon h; querySelector := querySelector h;
     pathname := pathname h; entropy := v; timers := timers h;
     nextTimer := nextTimer h; listeners := listeners h;
     observers := observers h; fetchWraps := fetchWraps h;
     xhrWraps := xhrWraps h; consoleWraps := consoleWraps h;
     inflight := inflight h; beacons := beacons h |}.

Definition set_timers (v : list (TimerId * TimerKind)) (h : Host) : Host :=
  {| perf := perf h; wall := wall h; hasPerformance := hasPerformance h;
     hasFetch := hasFetch h; hasXHR := hasXHR h;
     hasMutationObserver := hasMutationObserver h;
     sendBeacon := sendBeacon h; querySelector := querySelector h;
     pathname := pathname h; entropy := entropy h; timers := v;
     nextTimer := nextTimer h; listeners := listeners h;
     observers := observers h; fetchWraps := fetchWraps h;
     xhrWraps := xhrWraps h; consoleWraps := consoleWraps h;
     inflight := inflight h; beacons := beacons h |}.

Definition set_nextTimer (v : TimerId) (h : Host) : Host :=
  {| perf := perf h; wall := wall h; hasPerformance := hasPerformance h;
     hasFetch := hasFetch h; hasXHR := hasXHR h;
     hasMutationObserver := hasMutationObserver h;
     sendBeacon := sendBeacon h; querySelector := querySelector h;
     pathname := pathname h; entropy := entropy h; timers := timers h;
     nextTimer := v; listeners := listeners h; observers := observers h;
     fetchWraps := fetchWraps h; xhrWraps := xhrWraps h;
     consoleWraps := consoleWraps h; inflight := inflight h;
     beacons := beacons h |}.

Definition set_listeners (v : list ListenerKind) (h : Host) : Host :=
  {| perf := perf h; wall := wall h; hasPerformance := hasPerformance h;
     hasFetch := hasFetch h; hasXHR := hasXHR h;
     hasMutationObserver := hasMutationObserver h;
     sendBeacon := sendBeacon h; querySelector := querySelector h;
     pathname := pathname h; entropy := entropy h; timers := timers h;
     nextTimer := nextTimer h; listeners := v; observers := observers h;
     fetchWraps := fetchWraps h; xhrWraps := xhrWraps h;
     consoleWraps := consoleWraps h; inflight := inflight h;
     beacons := beacons h |}.

Definition set_observers (v : list (ObserverId * FormId * bool)) (h : Host) : Host :=
  {| perf := perf h; wall := wall h; hasPerformance := hasPerformance h;
     hasFetch := hasFetch h; hasXHR := hasXHR h;
     hasMutationObserver := hasMutationObserver h;
     sendBeacon := sendBeacon h; querySelector := querySelector h;
     pathname := pathname h; entropy := entropy h; timers := timers h;
     nextTimer := nextTimer h; listeners := listeners h; observers := v;
     fetchWraps := fetchWraps h; xhrWraps := xhrWraps h;
     consoleWraps := consoleWraps h; inflight := inflight h;
     beacons := beacons h |}.

Definition set_fetchWraps (v : nat) (h : Host) : Host :=
  {| perf := perf h; wall := wall h; hasPerformance := hasPerformance h;
     hasFetch := hasFetch h; hasXHR := hasXHR h;
     hasMutationObserver := hasMutationObserver h;
     sendBeacon := sendBeacon h; querySelector := querySelector h;
     pathname := pathname h; entropy := entropy h; timers := timers h;
     nextTimer := nextTimer h; listeners := listeners h;
     observers := observers h; fetchWraps := v; xhrWraps := xhrWraps h;
     consoleWraps := consoleWraps h; inflight := inflight h;
     beacons := beacons h |}.

Definition set_xhrWraps (v : nat) (h : Host) : Host :=
  {| perf := perf h; wall := wall h; hasPerformance := hasPerformance h;
     hasFetch := hasFetch h; hasXHR := hasXHR h;
     hasMutationObserver := hasMutationObserver h;
     sendBeacon := sendBeacon h; querySelector := querySelector h;
     pathname := pathname h; entropy := entropy h; timers := timers h;
     nextTimer := nextTimer h; listeners := listeners h;
     observers := observers h; fetchWraps := fetchWraps h; xhrWraps := v;
     consoleWraps := consoleWraps h; inflight := inflight h;
     beacons := beacons h |}.

Definition set_consoleWraps (v : nat) (h : Host) : Host :=
  {| perf := perf h; wall := wall h; hasPerformance := hasPerformance h;
     hasFetch := hasFetch h; hasXHR := hasXHR h;
     hasMutationObserver := hasMutationObserver h;
     sendBeacon := sendBeacon h; querySelector := querySelector h;
     pathname := pathname h; entropy := entropy h; timers := timers h;
     nextTimer := nextTimer h; listeners := listeners h;
     observers := observers h; fetchWraps := fetchWraps h;
     xhrWraps := xhrWraps h; consoleWraps := v; inflight := inflight h;
     beacons := beacons h |}.

Definition set_inflight (v : list Request) (h : Host) : Host :=
  {| perf := perf h; wall := wall h; hasPerformance := hasPerformance h;
     hasFetch := hasFetch h; hasXHR := hasXHR h;
     hasMutationObserver := hasMutationObserver h;
     sendBeacon := sendBeacon h; querySelector := querySelector h;
     pathname := pathname h; entropy := entropy h; timers := timers h;
     nextTimer := nextTimer h; listeners := listeners h;
     observers := observers h; fetchWraps := fetchWraps h;
     xhrWraps := xhrWraps h; consoleWraps := consoleWraps h;
     inflight := v; beacons := beacons h |}.

Definition set_beacons (v : list Payload) (h : Host) : Host :=
  {| perf := perf h; wall := wall h; hasPerformance := hasPerformance h;
     hasFetch := hasFetch h; hasXHR := hasXHR h;
     hasMutationObserver := hasMutationObserver h;
     sendBeacon := sendBeacon h; querySelector := querySelector h;
     pathname := pathname h; entropy := entropy h; timers := timers h;
     nextTimer := nextTimer h; listeners := listeners h;
     observers := observers h; fetchWraps := fetchWraps h;
     xhrWraps := xhrWraps h; consoleWraps := consoleWraps h;
     inflight := inflight h; beacons := v |}.

Definition set_focusCount (v : nat) (m : Metrics) : Metrics :=
  {| focusCount := v; totalTimeSpent := totalTimeSpent m;
     editCount := editCount m; validationFailures := validationFailures m;
     lastValueLength := lastValueLength m;
     backspaceCount := backspaceCount m; pasteCount := pasteCount m;
     clearCount := clearCount m; lastError := lastError m |}.

Definition set_totalTimeSpent (v : Z) (m : Metrics) : Metrics :=
  {| focusCount := focusCount m; totalTimeSpent := v;
     editCount := editCount m; validationFailures := validationFailures m;
     lastValueLength := lastValueLength m;
     backspaceCount := backspaceCount m; pasteCount := pasteCount m;
     clearCount := clearCount m; lastError := lastError m |}.

Definition set_editCount (v : nat) (m : Metrics) : Metrics :=
  {| focusCount := focusCount m; totalTimeSpent := totalTimeSpent m;
     editCount := v; validationFailures := validationFailures m;
     lastValueLength := lastValueLength m;
     backspaceCount := backspaceCount m; pasteCount := pasteCount m;
     clearCount := clearCount m; lastError := lastError m |}.

Definition set_validationFailures (v : nat) (m : Metrics) : Metrics :=
  {| focusCount := focusCount m; totalTimeSpent := totalTimeSpent m;
     editCount := editCount m; validationFailures := v;
     lastValueLength := lastValueLength m;
     backspaceCount := backspaceCount m; pasteCount := pasteCount m;
     clearCount := clearCount m; lastError := lastError m |}.

Definition set_lastValueLength (v : nat) (m : Metrics) : Metrics :=
  {| focusCount := focusCount m; totalTimeSpent := totalTimeSpent m;
     editCount := editCount m; validationFailures := validationFailures m;
     lastValueLength := v; backspaceCount := backspaceCount m;
     pasteCount := pasteCount m; clearCount := clearCount m;
     lastError := lastError m |}.

Definition set_backspaceCount (v : nat) (m : Metrics) : Metrics :=
  {| focusCount := focusCount m; totalTimeSpent := totalTimeSpent m;
     editCount := editCount m; validationFailures := validationFailures m;
     lastValueLength := lastValueLength m; backspaceCount := v;
     pasteCount := pasteCount m; clearCount := clearCount m;
     lastError := lastError m |}.

Definition set_pasteCount (v : nat) (m : Metrics) : Metrics :=
  {| focusCount := focusCount m; totalTimeSpent := totalTimeSpent m;
     editCount := editCount m; validationFailures := validationFailures m;
     lastValueLength := lastValueLength m;
     backspaceCount := backspaceCount m; pasteCount := v;
     clearCount := clearCount m; lastError := lastError m |}.

Definition set_clearCount (v : nat) (m : Metrics) : Metrics :=
  {| focusCount := focusCount m; totalTimeSpent := totalTimeSpent m;
     editCount := editCount m; validationFailures := validationFailures m;
     lastValueLength := lastValueLength m;
     backspaceCount := backspaceCount m; pasteCount := pasteCount m;
     clearCount := v; lastError := lastError m |}.

Definition set_lastError (v : option Validity) (m : Metrics) : Metrics :=
  {| focusCount := focusCount m; totalTimeSpent := totalTimeSpent m;
     editCount := editCount m; validationFailures := validationFailures m;
     lastValueLength := lastValueLength m;
     backspaceCount := backspaceCount m; pasteCount := pasteCount m;
     clearCount := clearCount m; lastError := v |}.

(** ** The monad: state of the world, and JS exceptions

    A thrown exception keeps every assignment made before it. *)

Inductive Exn :=
| ReferenceError (name : string)   (* use of an undefined global *)
| TypeError (name : string)        (* call of an undefined method *)
| SyntaxError (sel : string).      (* querySelector on a bad selector *)

Definition M (A : Type) : Type := World -> World * (Exn + A).

Definition ret {A} (a : A) : M A := fun w => (w, inr a).

Definition bind {A B} (m : M A) (k : A -> M B) : M B :=
  fun w => match m w with
           | (w', inl e) => (w', inl e)
           | (w', inr a) => k a w'
           end.

Definition throw {A} (e : Exn) : M A := fun w => (w, inl e).

(** [try { m } catch (e) { h e }] *)
Definition try_catch {A} (m : M A) (h : Exn -> M A) : M A :=
  fun w => match m w with
           | (w', inl e) => h e w'
           | r => r
           end.

(** [try { m } catch (e) { /* ignore */ }] *)
Definition guarded (m : M unit) : M unit := try_catch m (fun _ => ret tt).

Declare Scope js_scope.
Delimit Scope js_scope with js.
Notation "x <- m ;; k" := (bind m (fun x => k))
  (at level 100, m at next level, k at level 200, right associativity)
  : js_scope.
Notation "m ;; k" := (bind m (fun _ => k))
  (at level 100, k at level 200, right associativity) : js_scope.
Bind Scope js_scope with M.
Local Open Scope js_scope.

Definition the_fxt : M FXT := fun w => (w, inr (fxt w)).
Definition the_host : M Host := fun w => (w, inr (host w)).

Definition upd (f : FXT -> FXT) : M unit :=
  fun w => ({| fxt := f (fxt w); host := host w |}, inr tt).
Definition upd_host (f : Host -> Host) : M unit :=
  fun w => ({| fxt := fxt w; host := f (host w) |}, inr tt).

(** State after, and outcome of, running a computation. *)
Definition exec {A} (m : M A) (w : World) : World := fst (m w).
Definition outcome {A} (m : M A) (w : World) : Exn + A := snd (m w).
Definition returns {A} (m : M A) (w : World) : Prop :=
  exists a, outcome m w = inr a.

(** [for (const x of xs) body(x)] *)
Fixpoint for_each {A} (xs : list A) (body : A -> M unit) : M unit :=
  match xs with
  | [] => ret tt
  | x :: xs' => body x ;; for_each xs' body
  end.

(** ** Utilities *)

Definition perfNow : M Z :=
  h <- the_host ;;
  ret (if hasPerformance h then perf h else wall h).

Definition dateNow : M Z := h <- the_host ;; ret (wall h).

(** [crypto.getRandomValues] or [Math.random]: the host hands out the
    next identifier of its entropy source. *)
Definition makeSessionId : M SessionId :=
  h <- the_host ;;
  upd_host (set_entropy (S (entropy h))) ;;
  ret (entropy h).

(** [console.debug] leaves no trace in the world. *)
Definition logDebug : M unit := ret tt.

Definition cssPath (el : Element) : string := el_path el.

Definition isDigit (c : N) : bool := ((48 <=? c) && (c <=? 57))%N.
Definition isLetter (c : N) : bool :=
  (((65 <=? c) && (c <=? 90)) || ((97 <=? c) && (c <=? 122)))%N.
(** the class [\s] of ECMAScript regular expressions *)
Definition isSpace (c : N) : bool :=
  (((9 <=? c) && (c <=? 13)) || (c =? 32) || (c =? 160) || (c =? 5760)
   || ((8192 <=? c) && (c <=? 8202)) || (c =? 8232) || (c =? 8233)
   || (c =? 8239) || (c =? 8287) || (c =? 12288) || (c =? 65279))%N.

Definition isField (t : string) : bool :=
  bool_decide (t = "input") || bool_decide (t = "textarea")
  || bool_decide (t = "select").

Definition valueSummaryForElement (el : Element) : option ValueSummary :=
  if isField (el_tag el) then
    let value := el_value el in
    let len := length value in
    let kind :=
      if (0 <? len)%nat then
        let hasDigits := existsb isDigit value in
        let hasLetters := existsb isLetter value in
        let hasSymbols :=
          existsb (fun c => negb (isLetter c || isDigit c || isSpace c))
                  value in
        if hasDigits && negb hasLetters && negb hasSymbols then numeric
        else if negb hasDigits && hasLetters && negb hasSymbols then alpha
        else if hasDigits && hasLetters then alphanum
        else other
      else empty
    in Some {| vs_length := len; vs_kind := kind |}
  else None.

Definition stepIndexForElement (el : Element) : option string := el_step el.

Definition elInfo (el : Element) : ElInfo :=
  {| i_tag := el_tag el; i_fieldType := el_type el;
     i_step := stepIndexForElement el |}.

Definition makeEvent (type : string) (data : EventData) : M Event :=
  t <- perfNow ;;
  ret {| ev_type := type; ev_t := t; ev_data := data |}.

(** ** Field metrics tracking *)

Definition zeroMetrics : Metrics :=
  {| focusCount := 0; totalTimeSpent := 0; editCount := 0;
     validationFailures := 0; lastValueLength := 0; backspaceCount := 0;
     pasteCount := 0; clearCount := 0; lastError := None |}.

(** [FXT._fieldMetrics[fieldPath]] *)
Fixpoint lookupField (k : string) (s : list (string * Metrics))
  : option Metrics :=
  match s with
  | [] => None
  | (k', m) :: s' => if bool_decide (k' = k) then Some m else lookupField k s'
  end.

(** An assignment through the reference [FXT._fieldMetrics[fieldPath]]. *)
Fixpoint alterField (f : Metrics -> Metrics) (k : string)
    (s : list (string * Metrics)) : list (string * Metrics) :=
  match s with
  | [] => []
  | (k', m) :: s' =>
      if bool_decide (k' = k) then (k', f m) :: s'
      else (k', m) :: alterField f k s'
  end.

Definition initFieldMetrics (fieldPath : string) : M unit :=
  x <- the_fxt ;;
  match lookupField fieldPath (_fieldMetrics x) with
  | Some _ => ret tt
  | None =>
      upd (set_fieldMetrics (_fieldMetrics x ++ [(fieldPath, zeroMetrics)]))
  end.

Definition getFieldMetrics (fieldPath : string) : M (option Metrics) :=
  x <- the_fxt ;; ret (lookupField fieldPath (_fieldMetrics x)).

(** [metrics.f = ...] where [metrics] is the record of [fieldPath] *)
Definition mutate (fieldPath : string) (f : Metrics -> Metrics) : M unit :=
  upd (fun x =>
         set_fieldMetrics (alterField f fieldPath (_fieldMetrics x)) x).

(** The record of [fieldPath] after [initFieldMetrics]. *)
Definition metricsOf (fieldPath : string) : M Metrics :=
  m <- getFieldMetrics fieldPath ;; ret (default zeroMetrics m).

(** ** Event queue and sender *)

(** [setTimeout] and [setInterval]: a fresh handle. *)
Definition setTimer (k : TimerKind) : M TimerId :=
  h <- the_host ;;
  upd_host (fun h => set_nextTimer (Pos.succ (nextTimer h))
                       (set_timers (timers h ++ [(nextTimer h, k)]) h)) ;;
  ret (nextTimer h).

(** [clearTimeout(handle)]; a null or unknown handle is ignored. *)
Definition clearTimeout (handle : option TimerId) : M unit :=
  match handle with
  | None => ret tt
  | Some i =>
      upd_host (fun h =>
        set_timers (filter (fun t => t.1 <> i) (timers h)) h)
  end.

(** The part of [flush] after the batch was taken out of the queue. *)
Definition send (payload : Payload) : M unit :=
  x <- the_fxt ;;
  h <- the_host ;;
  logDebug ;;
  sent <- match sendBeacon h, _isUnloading x with
          | Some BeaconQueued, true =>
              upd_host (fun h => set_beacons (beacons h ++ [payload]) h) ;;
              now <- dateNow ;;
              upd (set_lastFlush now) ;;
              ret true
          | _, _ => ret false
          end ;;
  if sent : bool then ret tt
  else if hasFetch h then
    upd_host (fun h =>
      set_inflight
        (inflight h ++ [{| r_url := endpoint (_config x);
                           r_body := Some payload;
                           r_wraps := fetchWraps h |}]) h)
  else throw (ReferenceError "fetch").

Definition flush : M unit :=
  x <- the_fxt ;;
  match _events x with
  | [] => ret tt
  | _ =>
      let n := Z.to_nat (batchSize (_config x)) in
      let payload := {| p_sessionId := _sessionId x;
                        p_startedAt := _startedAt x;
                        p_events := take n (_events x) |} in
      upd (set_events (drop n (_events x))) ;;
      send payload
  end.

Definition enqueue (evt : Event) : M unit :=
  upd (fun x => set_events (_events x ++ [evt]) x) ;;
  x <- the_fxt ;;
  if Z.of_nat (length (_events x)) >=? batchSize (_config x) then flush
  else ret tt.

Definition scheduleFlush : M unit :=
  x <- the_fxt ;;
  match _flushTimer x with
  | Some _ => ret tt
  | None => i <- setTimer FlushTimeout ;; upd (set_flushTimer (Some i))
  end.

(** The callback that [scheduleFlush] hands to [setTimeout]. *)
Definition flushTick : M unit :=
  upd (set_flushTimer None) ;;
  flush ;;
  scheduleFlush.

(** ** Pain-point summary *)

Definition summaryOf (fieldPath : string) (metrics : Metrics) : Summary :=
  {| s_field := fieldPath;
     s_focusCount := focusCount metrics;
     s_totalTimeSpentMs := totalTimeSpent metrics;
     s_editCount := editCount metrics;
     s_validationFailures := validationFailures metrics;
     s_backspaceCount := backspaceCount metrics;
     s_pasteCount := pasteCount metrics;
     s_clearCount := clearCount metrics |}.

Definition isPainPoint (metrics : Metrics) : bool :=
  (2 <? validationFailures metrics)%nat
  || (30000 <? totalTimeSpent metrics)
  || (3 <? focusCount metrics)%nat
  || (5 <? editCount metrics)%nat
  || (1 <? clearCount metrics)%nat.

Definition reasonsOf (metrics : Metrics) : Reasons :=
  {| repeatedValidationFailures := (2 <? validationFailures metrics)%nat;
     excessiveTimeSpent := 30000 <? totalTimeSpent metrics;
     multipleReturns := (3 <? focusCount metrics)%nat;
     manyEdits := (5 <? editCount metrics)%nat;
     multipleClears := (1 <? clearCount metrics)%nat |}.

(** The loop over [Object.entries(FXT._fieldMetrics)]; the accumulator is
    the pair of arrays [painPoints], [fieldSummaries]. *)
Fixpoint summaryLoop (entries : list (string * Metrics))
    (acc : list PainPoint * list Summary) : list PainPoint * list Summary :=
  match entries with
  | [] => acc
  | (fieldPath, metrics) :: rest =>
      let summary := summaryOf fieldPath metrics in
      let fieldSummaries := acc.2 ++ [summary] in
      let painPoints :=
        if isPainPoint metrics then
          acc.1 ++ [{| pp_field := fieldPath;
                       pp_reasons := reasonsOf metrics;
                       pp_metrics := summary |}]
        else acc.1 in
      summaryLoop rest (painPoints, fieldSummaries)
  end.

Definition fieldAnalytics (reason : string) (x : FXT) : EventData :=
  let dropOffField := _currentFocusedField x in
  let '(painPoints, fieldSummaries) :=
    summaryLoop (_fieldMetrics x) ([], []) in
  DFieldAnalytics reason dropOffField (length fieldSummaries) painPoints
                  (length painPoints) fieldSummaries.

Definition sendFieldMetricsSummary (reason : string) : M unit :=
  x <- the_fxt ;;
  evt <- makeEvent "field-analytics" (fieldAnalytics reason x) ;;
  enqueue evt ;;
  logDebug.

(** ** Instrumentation: form fields *)

Definition onFocus (el : Element) : M unit :=
  let fieldPath := cssPath el in
  initFieldMetrics fieldPath ;;
  now <- perfNow ;;
  upd (set_currentFocusedField (Some fieldPath)) ;;
  upd (set_fieldFocusStartTime (Some now)) ;;
  mutate fieldPath (fun m => set_focusCount (S (focusCount m)) m) ;;
  metrics <- metricsOf fieldPath ;;
  x <- the_fxt ;;
  evt <- makeEvent "focus"
           (DFocus (formSelector (_config x)) fieldPath (elInfo el)
                   (valueSummaryForElement el) (focusCount metrics)
                   (validationFailures metrics) (editCount metrics)) ;;
  enqueue evt ;;
  logDebug.

(** The condition
    [FXT._currentFocusedField === fieldPath && FXT._fieldFocusStartTime]:
    the second operand is a number or null, and is truthy when it is a
    number other than zero. *)
Definition focusedSince (x : FXT) (fieldPath : string) : option Z :=
  match _currentFocusedField x, _fieldFocusStartTime x with
  | Some f, Some t0 =>
      if bool_decide (f = fieldPath) && negb (t0 =? 0) then Some t0 else None
  | _, _ => None
  end.

Definition onBlur (el : Element) : M unit :=
  let fieldPath := cssPath el in
  metrics <- getFieldMetrics fieldPath ;;
  x <- the_fxt ;;
  timeSpent <- match focusedSince x fieldPath with
               | Some t0 =>
                   now <- perfNow ;;
                   let timeSpent := now - t0 in
                   match metrics with
                   | Some _ =>
                       mutate fieldPath (fun m =>
                         set_totalTimeSpent (totalTimeSpent m + timeSpent) m)
                   | None => ret tt
                   end ;;
                   ret timeSpent
               | None => ret 0
               end ;;
  upd (set_currentFocusedField None) ;;
  upd (set_fieldFocusStartTime None) ;;
  metrics <- getFieldMetrics fieldPath ;;
  let get {A} (f : Metrics -> A) (d : A) : A :=
    match metrics with Some m => f m | None => d end in
  evt <- makeEvent "blur"
           (DBlur fieldPath (elInfo el) (valueSummaryForElement el)
                  timeSpent (get totalTimeSpent 0) (get editCount 0%nat)
                  (get validationFailures 0%nat) (get backspaceCount 0%nat)
                  (get pasteCount 0%nat)) ;;
  enqueue evt ;;
  logDebug.

Definition onChange (el : Element) : M unit :=
  let fieldPath := cssPath el in
  initFieldMetrics fieldPath ;;
  let valueSummary := valueSummaryForElement el in
  mutate fieldPath (fun m => set_editCount (S (editCount m)) m) ;;
  metrics <- metricsOf fieldPath ;;
  (if (0 <? lastValueLength metrics)%nat
      && match valueSummary with
         | Some v => (vs_length v =? 0)%nat
         | None => false
         end
   then mutate fieldPath (fun m => set_clearCount (S (clearCount m)) m)
   else ret tt) ;;
  mutate fieldPath
         (set_lastValueLength
            match valueSummary with Some v => vs_length v | None => 0%nat end) ;;
  metrics <- metricsOf fieldPath ;;
  failures <- match el_validity el with
              | Some v =>
                  if negb (valid v) then
                    mutate fieldPath (fun m =>
                      set_lastError (Some v)
                        (set_validationFailures
                           (S (validationFailures m)) m)) ;;
                    ret (Some (S (validationFailures metrics)))
                  else ret None
              | None => ret None
              end ;;
  evt <- makeEvent "change"
           (DChange fieldPath (elInfo el) valueSummary (editCount metrics)
                    (clearCount metrics) (el_validity el) failures) ;;
  enqueue evt ;;
  logDebug.

Definition onInvalid (el : Element) : M unit :=
  let fieldPath := cssPath el in
  initFieldMetrics fieldPath ;;
  mutate fieldPath
         (fun m => set_validationFailures (S (validationFailures m)) m) ;;
  metrics <- metricsOf fieldPath ;;
  evt <- makeEvent "error"
           (DInvalid fieldPath (elInfo el) (el_validity el)
                     (validationFailures metrics) (editCount metrics)
                     (totalTimeSpent metrics)
                     (1 <? validationFailures metrics)%nat) ;;
  enqueue evt ;;
  logDebug.

Definition onFormClick (el : Element) : M unit :=
  match el_stepNext el with
  | Some (from, to) =>
      evt <- makeEvent "step-transition" (DStepTransition from to) ;;
      enqueue evt
  | None => ret tt
  end.

Definition onKeyDown (el : Element) (key : string) : M unit :=
  if bool_decide (el_tag el = "input") || bool_decide (el_tag el = "textarea")
  then
    let fieldPath := cssPath el in
    initFieldMetrics fieldPath ;;
    if bool_decide (key = "Backspace") || bool_decide (key = "Delete")
    then mutate fieldPath (fun m => set_backspaceCount (S (backspaceCount m)) m)
    else ret tt
  else ret tt.

Definition onPaste (el : Element) : M unit :=
  if bool_decide (el_tag el = "") then ret tt
  else
    let fieldPath := cssPath el in
    initFieldMetrics fieldPath ;;
    mutate fieldPath (fun m => set_pasteCount (S (pasteCount m)) m) ;;
    evt <- makeEvent "paste" (DPaste fieldPath (elInfo el)) ;;
    enqueue evt.

Definition addEventListener (l : ListenerKind) : M unit :=
  upd_host (fun h => set_listeners (listeners h ++ [l]) h).

Definition attachFormListeners (form : FormId) : M unit :=
  addEventListener (OnFocus form) ;;
  addEventListener (OnBlur form) ;;
  addEventListener (OnChange form) ;;
  addEventListener (OnInvalid form) ;;
  addEventListener (OnClick form) ;;
  addEventListener (OnKeyDown form) ;;
  addEventListener (OnPaste form) ;;
  upd (set_stepTransition true).

(** The method [FXT.stepTransition], once defined. *)
Definition callStepTransition (from to : option string) : M unit :=
  x <- the_fxt ;;
  if stepTransition x then
    evt <- makeEvent "step-transition" (DStepTransition from to) ;;
    enqueue evt ;;
    logDebug
  else throw (TypeError "stepTransition").

(** ** Instrumentation: console, errors, network *)

Definition errorEvent (errorType detail : string) : M unit :=
  evt <- makeEvent "error" (DError errorType detail) ;;
  enqueue evt.

Definition wrapConsole : M unit :=
  x <- the_fxt ;;
  if enableConsoleWrap (_config x) then
    upd_host (fun h => set_consoleWraps (S (consoleWraps h)) h)
  else ret tt.

(** One layer of the wrapped [console.error]. *)
Definition consoleErrorLayer (message : string) : M unit :=
  guarded (errorEvent "console" message).

Definition wireWindowErrors : M unit :=
  addEventListener OnWindowError ;;
  addEventListener OnUnhandledRejection.

Definition onWindowError (message : string) : M unit :=
  guarded (errorEvent "uncaught" message).

Definition onUnhandledRejection (reason : string) : M unit :=
  guarded (errorEvent "unhandledrejection" reason).

Definition wrapFetch : M unit :=
  h <- the_host ;;
  if hasFetch h then upd_host (fun h => set_fetchWraps (S (fetchWraps h)) h)
  else ret tt.

Definition wrapXHR : M unit :=
  h <- the_host ;;
  if hasXHR h then upd_host (fun h => set_xhrWraps (S (xhrWraps h)) h)
  else ret tt.

(** How a [fetch] promise settles: a response with its status, or a
    rejection. *)
Inductive Settled := Fulfilled (status : Z) | Rejected.

Definition res_ok (status : Z) : bool := (200 <=? status) && (status <=? 299).

(** The [.catch] of one [wrapFetch] layer: record the failure, rethrow. *)
Definition wrapFetchCatch : M Settled :=
  guarded (errorEvent "network" "networkFail") ;;
  ret Rejected.

(** One [wrapFetch] layer, [originalFetch(..).then(..).catch(..)]: an
    exception in the [then] callback is handled by the [catch]. *)
Definition wrapFetchLayer (p : Settled) : M Settled :=
  match p with
  | Fulfilled status =>
      try_catch
        ((if negb (res_ok status) then errorEvent "network" "httpError"
          else ret tt) ;;
         ret (Fulfilled status))
        (fun _ => wrapFetchCatch)
  | Rejected => wrapFetchCatch
  end.

Fixpoint wrapFetchLayers (n : nat) (p : Settled) : M Settled :=
  match n with
  | O => ret p
  | S n' => p' <- wrapFetchLayer p ;; wrapFetchLayers n' p'
  end.

(** The [.catch] of [flush]: put the events back at the front. *)
Definition flushCatch (body : Payload) : M unit :=
  logDebug ;;
  let returned := p_events body in
  upd (fun x => set_events (returned ++ _events x) x).

(** The continuation [.then(..).catch(..)] that [flush] attaches to its
    [fetch] call. *)
Definition flushSettled (body : Payload) (p : Settled) : M unit :=
  match p with
  | Fulfilled status =>
      try_catch (now <- dateNow ;; upd (set_lastFlush now) ;; logDebug)
                (fun _ => flushCatch body)
  | Rejected => flushCatch body
  end.

(** A request settles: the wrapper layers run, innermost first, then the
    continuation of [flush] when the request was its own. *)
Definition settle (r : Request) (p : Settled) : M unit :=
  p' <- wrapFetchLayers (r_wraps r) p ;;
  match r_body r with
  | Some body => flushSettled body p'
  | None => ret tt
  end.

(** One layer of listeners that the wrapped [XMLHttpRequest.send] puts on
    a request: [load] with a status, or [error]. *)
Definition xhrLayer (load : option Z) : M unit :=
  match load with
  | Some status =>
      if 400 <=? status then errorEvent "network" "httpError" else ret tt
  | None => errorEvent "network" "networkFail"
  end.

(** ** DOM mutation capture *)

Record Node := {
  nodeType : N;
  n_path : string;              (* cssPath(n) *)
  n_tagName : option string     (* lower-cased, null without a tagName *)
}.

Inductive MutationRecord :=
| childList (addedNodes removedNodes : list Node)
| attributes (target : string) (attributeName : option string)
| characterData.

Definition pushMutation (c : Change) : M unit :=
  upd (fun x => set_mutationBuffer (_mutationBuffer x ++ [c]) x).

(** The callback the script hands to [setTimeout] for the coalescing
    window. *)
Definition mutationTick : M unit :=
  x <- the_fxt ;;
  let n := Z.to_nat (maxMutationRecordsPerBatch (_config x)) in
  let batch := take n (_mutationBuffer x) in
  upd (set_mutationBuffer (drop n (_mutationBuffer x))) ;;
  evt <- makeEvent "dom-mutation" (DDomMutation batch) ;;
  enqueue evt ;;
  upd (set_mutationTimer None).

Definition recordMutation (m : MutationRecord) : M unit :=
  match m with
  | childList addedNodes removedNodes =>
      for_each addedNodes (fun n =>
        if (nodeType n =? 1)%N
        then pushMutation (added (n_path n) (n_tagName n))
        else ret tt) ;;
      for_each removedNodes (fun n =>
        if (nodeType n =? 1)%N
        then pushMutation (removed (n_path n) (n_tagName n))
        else ret tt)
  | attributes target attributeName =>
      pushMutation (attr target attributeName)
  | characterData => ret tt
  end.

(** The callback of the [MutationObserver]. *)
Definition onMutations (mutations : list MutationRecord) : M unit :=
  guarded
    (for_each mutations recordMutation ;;
     x <- the_fxt ;;
     match _mutationTimer x with
     | Some _ => ret tt
     | None =>
         i <- setTimer MutationTimeout ;;
         upd (set_mutationTimer (Some i))
     end).

Definition observeMutations (rootEl : FormId) : M unit :=
  h <- the_host ;;
  if hasMutationObserver h then
    let mo := length (observers h) in
    upd_host (fun h => set_observers (observers h ++ [(mo, rootEl, true)]) h) ;;
    upd (set_mo (Some mo))
  else ret tt.

Definition disconnect (mo : ObserverId) : M unit :=
  upd_host (fun h =>
    set_observers
      (map (fun o => if bool_decide (o.1.1 = mo) then (o.1, false) else o)
           (observers h)) h).

(** ** Public API: init, stop, and the handlers init installs *)

Definition onBeforeUnload : M unit :=
  upd (set_isUnloading true) ;;
  guarded
    (sendFieldMetricsSummary "unload" ;;
     evt <- makeEvent "session-end" (DSessionEnd "unload") ;;
     enqueue evt ;;
     flush).

Definition onVisibilityChange (hidden : bool) : M unit :=
  if hidden then
    upd (set_isUnloading true) ;;
    sendFieldMetricsSummary "hidden" ;;
    evt <- makeEvent "session-end" (DSessionEnd "hidden") ;;
    enqueue evt ;;
    flush
  else ret tt.

(** [Math.round(d / 1000)] on an integer [d] *)
Definition roundSeconds (d : Z) : Z := (d + 500) / 1000.

Definition heartbeat : M unit :=
  x <- the_fxt ;;
  now <- perfNow ;;
  evt <- makeEvent "heartbeat" (DHeartbeat (roundSeconds (now - _startedAt x))) ;;
  enqueue evt ;;
  x <- the_fxt ;;
  if (0 <? length (_fieldMetrics x))%nat
  then sendFieldMetricsSummary "periodic"
  else ret tt.

Definition locateForm (sel : string) : M QueryResult :=
  h <- the_host ;;
  match querySelector h sel with
  | QInvalid => throw (SyntaxError sel)
  | r => ret r
  end.

Definition init (opts : Opts) : M FXT :=
  x <- the_fxt ;;
  if _isInitialized x then the_fxt
  else
    upd (set_config (assign DEFAULTS opts)) ;;
    sid <- makeSessionId ;;
    upd (set_sessionId (Some sid)) ;;
    upd (set_isUnloading false) ;;
    upd (set_isInitialized true) ;;
    x <- the_fxt ;;
    form <- locateForm (formSelector (_config x)) ;;
    match form with
    | QForm f => attachFormListeners f ;; observeMutations f
    | _ => ret tt (* console.warn *)
    end ;;
    wrapConsole ;;
    wireWindowErrors ;;
    wrapFetch ;;
    wrapXHR ;;
    h <- the_host ;;
    evt <- makeEvent "session-start" (DSessionStart (pathname h)) ;;
    enqueue evt ;;
    scheduleFlush ;;
    addEventListener OnBeforeUnload ;;
    addEventListener OnVisibilityChange ;;
    setTimer HeartbeatInterval ;;
    logDebug ;;
    the_fxt.

Definition stop : M unit :=
  guarded
    (x <- the_fxt ;;
     match _mo x with Some mo => disconnect mo | None => ret tt end ;;
     upd (set_isInitialized false) ;;
     clearTimeout (_flushTimer x) ;;
     sendFieldMetricsSummary "stop" ;;
     evt <- makeEvent "session-end" (DSessionEnd "stop") ;;
     enqueue evt ;;
     flush).

(** The state when the script has been evaluated. *)
Definition loaded (h : Host) : World :=
  {| fxt := {| _config := DEFAULTS; _sessionId := None; _events := [];
               _flushTimer := None; _lastFlush := 0;
               _startedAt := if hasPerformance h then perf h else wall h;
               _mutationBuffer := []; _mutationTimer := None;
               _isInitialized := false; _isUnloading := false;
               _fieldMetrics := []; _currentFocusedField := None;
               _fieldFocusStartTime := None; _mo := None;
               stepTransition := false |};
     host := h |}.

(** ** The page as a transition system

    Everything that can happen to the script once it is loaded: a call of
    its public methods, or the host running one of the callbacks it
    installed. A callback runs once for every listener registered for it;
    an exception that escapes a callback goes to the host (which reports
    it as a window error, a transition of its own). *)

Inductive FormEvent :=
| EFocus | EBlur | EChange | EInvalid | EClick | EKeyDown (key : string)
| EPaste.

Inductive Label :=
| CallInit (opts : Opts)
| CallStop
| CallStepTransition (from to : option string)
| Clock (perf wall : Z)
| PageTimer
| Dispatch (form : FormId) (e : FormEvent) (el : Element)
| Mutations (mo : ObserverId) (ms : list MutationRecord)
| Fire (i : TimerId)
| Settle (n : nat) (p : Settled)
| PageFetch (url : string)
| PageXHR (layers : nat) (load : option Z)
| ConsoleError (message : string)
| WindowError (message : string)
| UnhandledRejection (reason : string)
| BeforeUnload
| VisibilityChange (hidden : bool).

#[global] Instance ListenerKind_eq_dec : EqDecision ListenerKind.
Proof. solve_decision. Defined.

#[global] Instance TimerKind_eq_dec : EqDecision TimerKind.
Proof. solve_decision. Defined.

Definition listenerOf (form : FormId) (e : FormEvent) : ListenerKind :=
  match e with
  | EFocus => OnFocus form
  | EBlur => OnBlur form
  | EChange => OnChange form
  | EInvalid => OnInvalid form
  | EClick => OnClick form
  | EKeyDown _ => OnKeyDown form
  | EPaste => OnPaste form
  end.

Definition handlerOf (e : FormEvent) (el : Element) : M unit :=
  match e with
  | EFocus => onFocus el
  | EBlur => onBlur el
  | EChange => onChange el
  | EInvalid => onInvalid el
  | EClick => onFormClick el
  | EKeyDown key => onKeyDown el key
  | EPaste => onPaste el
  end.

Definition registered (l : ListenerKind) (w : World) : nat :=
  length (filter (fun l' => l' = l) (listeners (host w))).

(** The host runs a callback [n] times, once per registration. *)
Definition calls (n : nat) (m : M unit) (w : World) : World :=
  Nat.iter n (exec m) w.

Fixpoint kindOf (i : TimerId) (ts : list (TimerId * TimerKind))
  : option TimerKind :=
  match ts with
  | [] => None
  | (j, k) :: ts' => if Pos.eqb j i then Some k else kindOf i ts'
  end.

Definition timerKind (i : TimerId) (w : World) : option TimerKind :=
  kindOf i (timers (host w)).

Definition expire (i : TimerId) : M unit :=
  upd_host (fun h => set_timers (filter (fun t => t.1 <> i) (timers h)) h).

Definition connected (mo : ObserverId) (w : World) : bool :=
  bool_decide (Exists (fun o => o.1.1 = mo /\ o.2 = true)
                      (observers (host w))).

Definition react (l : Label) (w : World) : World :=
  match l with
  | CallInit opts => exec (init opts) w
  | CallStop => exec stop w
  | CallStepTransition from to => exec (callStepTransition from to) w
  | Clock p t =>
      exec (upd_host (fun h => set_wall t (set_perf p h))) w
  | PageTimer =>
      exec (upd_host (fun h => set_nextTimer (Pos.succ (nextTimer h)) h)) w
  | Dispatch form e el =>
      calls (registered (listenerOf form e) w) (handlerOf e el) w
  | Mutations mo ms =>
      match ms with
      | [] => w
      | _ => if connected mo w then exec (onMutations ms) w else w
      end
  | Fire i =>
      match timerKind i w with
      | Some FlushTimeout => exec (expire i ;; flushTick) w
      | Some MutationTimeout => exec (expire i ;; mutationTick) w
      | Some HeartbeatInterval => exec heartbeat w
      | None => w
      end
  | Settle n p =>
      match inflight (host w) !! n with
      | Some r =>
          exec (upd_host (fun h => set_inflight (delete n (inflight h)) h) ;;
                settle r p) w
      | None => w
      end
  | PageFetch url =>
      if hasFetch (host w) then
        exec (upd_host (fun h =>
                set_inflight
                  (inflight h ++ [{| r_url := url; r_body := None;
                                     r_wraps := fetchWraps h |}]) h)) w
      else w
  | PageXHR layers load =>
      calls (Nat.min layers (xhrWraps (host w))) (xhrLayer load) w
  | ConsoleError message =>
      calls (consoleWraps (host w)) (consoleErrorLayer message) w
  | WindowError message =>
      calls (registered OnWindowError w) (onWindowError message) w
  | UnhandledRejection reason =>
      calls (registered OnUnhandledRejection w) (onUnhandledRejection reason) w
  | BeforeUnload => calls (registered OnBeforeUnload w) onBeforeUnload w
  | VisibilityChange hidden =>
      calls (registered OnVisibilityChange w) (onVisibilityChange hidden) w
  end.

Definition run (ls : list Label) (w : World) : World :=
  foldl (fun w l => react l w) w ls.

(** A host in which nothing of the script is installed yet. *)
Definition pristine (h : Host) : Prop :=
  timers h = [] /\ listeners h = [] /\ observers h = [] /\
  fetchWraps h = 0%nat /\ xhrWraps h = 0%nat /\ consoleWraps h = 0%nat /\
  inflight h = [] /\ beacons h = [].

Inductive reachable : World -> Prop :=
| reach_loaded h : pristine h -> reachable (loaded h)
| reach_react l w : reachable w -> reachable (react l w).

(** ** Session identifier: the branch with [crypto.getRandomValues]

    The sixteen random bytes are the argument; what follows is the
    arithmetic and the formatting of [makeSessionId]. *)

Module Crypto.
Import Stdlib.Strings.Ascii.

Definition hexDigit (d : N) : ascii :=
  match d with
  | 0 => "0" | 1 => "1" | 2 => "2" | 3 => "3" | 4 => "4" | 5 => "5"
  | 6 => "6" | 7 => "7" | 8 => "8" | 9 => "9" | 10 => "a" | 11 => "b"
  | 12 => "c" | 13 => "d" | 14 => "e" | _ => "f"
  end%N%char.

Fixpoint digits16 (fuel : nat) (n : N) (acc : string) : string :=
  match fuel with
  | O => acc
  | S fuel' =>
      let acc' := String (hexDigit (n mod 16)) acc in
      if (n / 16 =? 0)%N then acc' else digits16 fuel' (n / 16) acc'
  end.

(** [n.toString(16)] *)
Definition toString16 (n : N) : string :=
  digits16 (S (N.to_nat (N.log2 n))) n "".

(** [s.slice(-k)] *)
Definition sliceEnd (k : nat) (s : string) : string :=
  String.substring (String.length s - k) k s.

Definition isLineTerminator (c : ascii) : bool :=
  (N_of_ascii c =? 10)%N || (N_of_ascii c =? 13)%N.

Fixpoint anyChar (f : ascii -> bool) (s : string) : bool :=
  match s with
  | EmptyString => false
  | String c s' => f c || anyChar f s'
  end.

(** [s.replace(/^(.{8})(.{4})(.{4})(.{4})(.{12})$/, '$1-$2-$3-$4-$5')]:
    the pattern matches the strings of 32 characters without a line
    terminator; any other string is returned as it is. *)
Definition dashed (s : string) : string :=
  if (String.length s =? 32)%nat && negb (anyChar isLineTerminator s) then
    String.concat "-"
      [String.substring 0 8 s; String.substring 8 4 s; String.substring 12 4 s;
       String.substring 16 4 s; String.substring 20 12 s]
  else s.

(** A store into a [Uint8Array] keeps the low eight bits. *)
Definition u8 (n : N) : N := (n mod 256)%N.

(** [('0' + b.toString(16)).slice(-2)] *)
Definition hexByte (b : N) : string := sliceEnd 2 (String "0" (toString16 b)).

Definition makeSessionId (random : list Byte.byte) : string :=
  let arr := map Byte.to_N random in
  let arr :=
    <[6%nat := u8 (N.lor (N.land (default 0%N (arr !! 6%nat)) 15) 64)]> arr in
  let arr :=
    <[8%nat := u8 (N.lor (N.land (default 0%N (arr !! 8%nat)) 63) 128)]> arr in
  dashed (String.concat "" (map hexByte arr)).

(** Reading an identifier back: lower-case hexadecimal digits, two to a
    byte, dashes skipped. *)
Definition isHexChar (c : ascii) : bool :=
  let n := N_of_ascii c in
  ((48 <=? n) && (n <=? 57) || (97 <=? n) && (n <=? 102))%N.

Definition hexValue (c : ascii) : N :=
  let n := N_of_ascii c in
  if (n <=? 57)%N then (n - 48)%N else (n - 87)%N.

Fixpoint parseHex (s : string) : list N :=
  match s with
  | EmptyString => []
  | String h t =>
      if Ascii.eqb h "-" then parseHex t
      else match t with
           | EmptyString => []
           | String l s' => (hexValue h * 16 + hexValue l)%N :: parseHex s'
           end
  end.

(** The bytes an identifier stands for: the random bytes with the version
    nibble of byte 6 set to 4 and the two high bits of byte 8 set to 10. *)
Definition stamped (random : list Byte.byte) : list N :=
  let arr := map Byte.to_N random in
  <[8%nat := (128 + default 0 (arr !! 8%nat) mod 64)%N]>
    (<[6%nat := (64 + default 0 (arr !! 6%nat) mod 16)%N]> arr).

End Crypto.

(** ** Path and step of an element

    An element is given with what [cssPath] and [stepIndexForElement] read
    on the way up: its own attributes, the tag names of the element
    children of its parent before and after it, and its parent. In a DOM
    tree a node that is not an element (a document, a fragment) has no
    parent and no dataset, so [parentNode] and [parentElement] lead to
    the same nodes; the functions are defined on all trees. Tag names
    are ASCII. *)

Module Dom.
Import Stdlib.Strings.Ascii.

Record Attrs := {
  nodeType : N;
  tagName : string;
  id : string;
  dataStep : option string       (* dataset.step *)
}.

Inductive Loc :=
| Root (a : Attrs)
| Child (a : Attrs) (before after : list string) (parent : Loc).

Definition attrs (l : Loc) : Attrs :=
  match l with Root a => a | Child a _ _ _ => a end.

Definition lowerChar (c : ascii) : ascii :=
  let n := N_of_ascii c in
  if ((65 <=? n) && (n <=? 90))%N then ascii_of_N (n + 32) else c.

Fixpoint toLowerCase (s : string) : string :=
  match s with
  | EmptyString => EmptyString
  | String c s' => String (lowerChar c) (toLowerCase s')
  end.

(** Decimal digits of a number, as a template literal prints it. *)
Fixpoint decimalFrom (fuel : nat) (n : nat) (acc : string) : string :=
  match fuel with
  | O => acc
  | S fuel' =>
      let acc' := String (ascii_of_nat (48 + n mod 10)) acc in
      if (n / 10 =? 0)%nat then acc' else decimalFrom fuel' (n / 10) acc'
  end.

Definition decimal (n : nat) : string := decimalFrom (S n) n "".

(** The number of children of the parent with the tag name of the node. *)
Definition sameTag (a : Attrs) (before after : list string) : nat :=
  length (filter (fun t => t = tagName a) (before ++ tagName a :: after)).

(** The loop of [cssPath]; [path] is the array built so far. *)
Fixpoint walk (node : Loc) (depth : nat) (path : list string) : list string :=
  let a := attrs node in
  if (nodeType a =? 1)%N && (depth <? 6)%nat then
    let part := toLowerCase (tagName a) in
    if negb (String.eqb (id a) "") then
      (part +:+ "#" +:+ id a) :: path
    else
      match node with
      | Root _ => part :: path
      | Child _ before after parent =>
          let part :=
            if (1 <? sameTag a before after)%nat
            then part +:+ ":nth-child(" +:+ decimal (S (length before)) +:+ ")"
            else part in
          walk parent (S depth) (part :: path)
      end
  else path.

Definition cssPath (el : option Loc) : option string :=
  match el with
  | None => None
  | Some node => Some (String.concat " > " (walk node 0 []))
  end.

Definition truthy (s : option string) : bool :=
  match s with Some s => negb (String.eqb s "") | None => false end.

(** The loop of [stepIndexForElement]. *)
Fixpoint climb (node : Loc) (depth : nat) : option string :=
  if (depth <? 8)%nat then
    if truthy (dataStep (attrs node)) then dataStep (attrs node)
    else match node with
         | Root _ => None
         | Child _ _ _ parent => climb parent (S depth)
         end
  else None.

Definition stepIndexForElement (el : Loc) : option string := climb el 0.

(** The element and its ancestors, nearest first. *)
Fixpoint chain (l : Loc) : list Attrs :=
  match l with
  | Root a => [a]
  | Child a _ _ parent => a :: chain parent
  end.

Definition blank : Attrs :=
  {| nodeType := 0; tagName := ""; id := ""; dataStep := None |}.

(** The walk of [cssPath] ends at a node that is not an element or that
    has an id. *)
Definition stops (a : Attrs) : bool :=
  negb (nodeType a =? 1)%N || negb (String.eqb (id a) "").

(** The first [n] levels above and including an element, up to the node
    at which the walk ends; everything beyond is blanked. *)
Fixpoint prune (n : nat) (l : Loc) : Loc :=
  match n with
  | O => Root blank
  | S n' =>
      match l with
      | Root a => Root a
      | Child a before after parent =>
          Child a before after
            (if stops a then Root blank else prune n' parent)
      end
  end.

(** [n] nested [div]s without id around a node. *)
Definition div : Attrs :=
  {| nodeType := 1; tagName := "DIV"; id := ""; dataStep := None |}.

Fixpoint nested (n : nat) (l : Loc) : Loc :=
  match n with
  | O => l
  | S n' => Child div [] [] (nested n' l)
  end.

End Dom.

(** ** Views of the world used in the statements *)

(** The world without the four things the queue and the transport write:
    the queue, the time of the last flush, the requests in flight and the
    accepted beacons. *)
Definition quiet (w : World) : World :=
  {| fxt := set_events [] (set_lastFlush 0 (fxt w));
     host := set_inflight [] (set_beacons [] (host w)) |}.

(** What the timer bookkeeping is made of. *)
Record TimerView := {
  tv_timers : list (TimerId * TimerKind);
  tv_next : TimerId;
  tv_flush : option TimerId;
  tv_mutation : option TimerId
}.

Definition tview (w : World) : TimerView :=
  {| tv_timers := timers (host w); tv_next := nextTimer (host w);
     tv_flush := _flushTimer (fxt w);
     tv_mutation := _mutationTimer (fxt w) |}.

Definition keys (w : World) : list string := (_fieldMetrics (fxt w)).*1.

(** Timers of one kind that are outstanding. *)
Definition outstanding (k : TimerKind) (w : World) : list TimerId :=
  (filter (fun t => t.2 = k) (timers (host w))).*1.

(** The bookkeeping invariant: handles are unique and below the next
    handle; an outstanding flush (mutation) timer is the one whose handle
    [FXT._flushTimer] ([FXT._mutationTimer]) holds; a held handle that is
    still outstanding is a timer of that kind. *)
Record timers_ok (v : TimerView) : Prop := {
  t_fresh : forall i k, (i, k) ∈ tv_timers v -> (i < tv_next v)%positive;
  t_nodup : NoDup (tv_timers v).*1;
  t_flush : forall i, (i, FlushTimeout) ∈ tv_timers v -> tv_flush v = Some i;
  t_mutation :
    forall i, (i, MutationTimeout) ∈ tv_timers v -> tv_mutation v = Some i;
  t_flush_old : forall i, tv_flush v = Some i -> (i < tv_next v)%positive;
  t_mutation_old :
    forall i, tv_mutation v = Some i -> (i < tv_next v)%positive;
  t_flush_kind :
    forall i k, tv_flush v = Some i -> (i, k) ∈ tv_timers v ->
                k = FlushTimeout;
  t_mutation_kind :
    forall i k, tv_mutation v = Some i -> (i, k) ∈ tv_timers v ->
                k = MutationTimeout
}.

(** The view after [setTimeout] or [setInterval] of kind [k] whose handle
    is stored in the matching field, and after a timer is removed. *)
Definition arm (k : TimerKind) (v : TimerView) : TimerView :=
  {| tv_timers := tv_timers v ++ [(tv_next v, k)];
     tv_next := Pos.succ (tv_next v);
     tv_flush := match k with FlushTimeout => Some (tv_next v)
                 | _ => tv_flush v end;
     tv_mutation := match k with MutationTimeout => Some (tv_next v)
                    | _ => tv_mutation v end |}.

Definition cancel (i : TimerId) (v : TimerView) : TimerView :=
  {| tv_timers := filter (fun t => t.1 <> i) (tv_timers v);
     tv_next := tv_next v; tv_flush := tv_flush v;
     tv_mutation := tv_mutation v |}.

(** The view after [clearTimeout(handle)]. *)
Definition cleared (handle : option TimerId) (v : TimerView) : TimerView :=
  match handle with Some i => cancel i v | None => v end.

Definition kindIn (k : TimerKind) (v : TimerView) : list TimerId :=
  (filter (fun t => t.2 = k) (tv_timers v)).*1.

Definition inv (w : World) : Prop := timers_ok (tview w) /\ NoDup (keys w).

(** A computation relates every world to the one it leaves, also when it
    throws. *)
Definition preserves {A} (R : relation World) (m : M A) : Prop :=
  forall w, R w (exec m w).

Definition same_quiet : relation World := fun w w' => quiet w' = quiet w.

(** Timers untouched, and the keys of the metric store still distinct. *)
Definition same_timers : relation World :=
  fun w w' => tview w' = tview w /\ (NoDup (keys w) -> NoDup (keys w')).

Definition keeps_inv : relation World := fun w w' => inv w -> inv w'.

(** The five thresholds of the pain-point heuristic. *)
Definition exceeded (m : Metrics) : Prop :=
  (2 < validationFailures m)%nat \/ 30000 < totalTimeSpent m \/
  (3 < focusCount m)%nat \/ (5 < editCount m)%nat \/ (1 < clearCount m)%nat.

(** The specification of the loop in [sendFieldMetricsSummary]. *)
Definition painPointsOf (entries : list (string * Metrics)) : list PainPoint :=
  map (fun e => {| pp_field := e.1; pp_reasons := reasonsOf e.2;
                   pp_metrics := summaryOf e.1 e.2 |})
      (filter (fun e => isPainPoint e.2 = true) entries).

Definition summariesOf (entries : list (string * Metrics)) : list Summary :=
  map (fun e => summaryOf e.1 e.2) entries.

(** The world with another queue, and the batch [flush] builds. *)
Definition with_events (evs : list Event) (w : World) : World :=
  {| fxt := set_events evs (fxt w); host := host w |}.

Definition batchOf (w : World) (evs : list Event) : Payload :=
  {| p_sessionId := _sessionId (fxt w); p_startedAt := _startedAt (fxt w);
     p_events := evs |}.

(** The capabilities of the host never change. *)
Definition same_caps : relation World :=
  fun w w' => hasFetch (host w') = hasFetch (host w) /\
              querySelector (host w') = querySelector (host w).

Definition can_fetch (w : World) : Prop := hasFetch (host w) = true.

(** In a host with [fetch], the computation returns. *)
Definition fetch_safe {A} (m : M A) : Prop :=
  forall w, can_fetch w -> returns m w.

Definition store (w : World) : list (string * Metrics) :=
  _fieldMetrics (fxt w).

(** The record of a field, as [initFieldMetrics] would return it. *)
Definition recordOf (k : string) (w : World) : Metrics :=
  default zeroMetrics (lookupField k (store w)).

(** What [perfNow()] returns in a world. *)
Definition now (w : World) : Z :=
  if hasPerformance (host w) then perf (host w) else wall (host w).

(** The clock reads [t]; a focus at [p.1] and a blur at [p.2] on the same
    element; a sequence of such visits. *)
Definition setClock (t : Z) (w : World) : World :=
  exec (upd_host (fun h => set_wall t (set_perf t h))) w.

Definition focusBlur (el : Element) (p : Z * Z) (w : World) : World :=
  exec (onBlur el) (setClock p.2 (exec (onFocus el) (setClock p.1 w))).

Definition focusBlurs (el : Element) (ps : list (Z * Z)) (w : World) : World :=
  foldl (fun w p => focusBlur el p w) w ps.

Definition elapsed (ps : list (Z * Z)) : Z :=
  foldr (fun p acc => (p.2 - p.1) + acc) 0 ps.

(** The record the coalescing timer emits, and the world in which it is
    enqueued: timer [i] has expired and the first [n] notices have left
    the buffer. *)
Definition domMutation (w : World) : Event :=
  {| ev_type := "dom-mutation"; ev_t := now w;
     ev_data := DDomMutation
       (take (Z.to_nat (maxMutationRecordsPerBatch (_config (fxt w))))
             (_mutationBuffer (fxt w))) |}.

Definition drained (i : TimerId) (w : World) : World :=
  exec (expire i ;;
        upd (set_mutationBuffer
               (drop (Z.to_nat (maxMutationRecordsPerBatch (_config (fxt w))))
                     (_mutationBuffer (fxt w))))) w.

(** The session is the same: flag, identifier, entropy drawn so far. *)
Definition same_session : relation World :=
  fun w w' => _isInitialized (fxt w') = _isInitialized (fxt w) /\
              _sessionId (fxt w') = _sessionId (fxt w) /\
              entropy (host w') = entropy (host w).

(** While [FXT._flushTimer] holds handle [i], the handle and the
    outstanding flush timers stay as they are. *)
Definition stale (i : TimerId) : relation World :=
  fun w w' => _flushTimer (fxt w) = Some i ->
              _flushTimer (fxt w') = Some i /\
              outstanding FlushTimeout w' = outstanding FlushTimeout w.

(** ** Views used in the further properties *)

(** Counters of a field never go down. *)
Definition counters_le (m m' : Metrics) : Prop :=
  (focusCount m <= focusCount m')%nat /\
  (editCount m <= editCount m')%nat /\
  (validationFailures m <= validationFailures m')%nat /\
  (backspaceCount m <= backspaceCount m')%nat /\
  (pasteCount m <= pasteCount m')%nat /\
  (clearCount m <= clearCount m')%nat.

(** Every record of the store is still there, with counters at least as
    high. *)
Definition grows : relation World :=
  fun w w' => forall k m, lookupField k (store w) = Some m ->
                exists m', lookupField k (store w') = Some m' /\
                           counters_le m m'.

(** Nothing installed in the host is taken away: listeners are only
    added, and so are the layers around [fetch], [XMLHttpRequest] and
    [console.error]. *)
Definition lasting : relation World :=
  fun w w' => listeners (host w) `prefix_of` listeners (host w') /\
              (fetchWraps (host w) <= fetchWraps (host w'))%nat /\
              (xhrWraps (host w) <= xhrWraps (host w'))%nat /\
              (consoleWraps (host w) <= consoleWraps (host w'))%nat.

(** The heartbeat intervals that are running keep running. *)
Definition beats : relation World :=
  fun w w' => forall i, i ∈ outstanding HeartbeatInterval w ->
                        i ∈ outstanding HeartbeatInterval w'.

(** The two records that [stop] and the unload handlers put behind the
    queue before the last flush. *)
Definition farewell (reason : string) (w : World) : list Event :=
  [{| ev_type := "field-analytics"; ev_t := now w;
      ev_data := fieldAnalytics reason (fxt w) |};
   {| ev_type := "session-end"; ev_t := now w;
      ev_data := DSessionEnd reason |}].

(** The request [flush] hands to [fetch]. *)
Definition requestOf (w : World) (p : Payload) : Request :=
  {| r_url := endpoint (_config (fxt w)); r_body := Some p;
     r_wraps := fetchWraps (host w) |}.

(** The record a [wrapFetch] layer enqueues for a failed request. *)
Definition networkError (detail : string) (w : World) : Event :=
  {| ev_type := "error"; ev_t := now w; ev_data := DError "network" detail |}.

(** The notices one mutation record leaves in the buffer. *)
Definition noticesOf (m : MutationRecord) : list Change :=
  match m with
  | childList addedNodes removedNodes =>
      map (fun n => added (n_path n) (n_tagName n))
          (filter (fun n => nodeType n = 1%N) addedNodes) ++
      map (fun n => removed (n_path n) (n_tagName n))
          (filter (fun n => nodeType n = 1%N) removedNodes)
  | attributes target attributeName => [attr target attributeName]
  | characterData => []
  end.

(** Once set, the unloading flag stays set. *)
Definition unloading_stays : relation World :=
  fun w w' => _isUnloading (fxt w) = true -> _isUnloading (fxt w') = true.

(** A label other than a call of [init]. *)
Definition notInit (l : Label) : Prop :=
  match l with CallInit _ => False | _ => True end.

(** The records the [wrapFetch] layers enqueue when a request that went
    through [n] of them settles: none for a response with an ok status,
    one per layer otherwise. *)
Definition reports (p : Settled) (n : nat) (w : World) : list Event :=
  match p with
  | Rejected => replicate n (networkError "networkFail" w)
  | Fulfilled status =>
      if res_ok status then [] else replicate n (networkError "httpError" w)
  end.

(** The world with another mutation buffer. *)
Definition with_buffer (b : list Change) (w : World) : World :=
  {| fxt := set_mutationBuffer b (fxt w); host := host w |}.

(** [init] in a state that is not initialized, in three parts: the
    assignments before the form is looked up, what is done with the form,
    and the rest. *)
Definition initAssignments (opts : Opts) : M unit :=
  upd (set_config (assign DEFAULTS opts)) ;;
  sid <- makeSessionId ;;
  upd (set_sessionId (Some sid)) ;;
  upd (set_isUnloading false) ;;
  upd (set_isInitialized true).

Definition initForm (form : QueryResult) : M unit :=
  match form with
  | QForm f => attachFormListeners f ;; observeMutations f
  | _ => ret tt
  end.

Definition initRest : M FXT :=
  wrapConsole ;;
  wireWindowErrors ;;
  wrapFetch ;;
  wrapXHR ;;
  h <- the_host ;;
  evt <- makeEvent "session-start" (DSessionStart (pathname h)) ;;
  enqueue evt ;;
  scheduleFlush ;;
  addEventListener OnBeforeUnload ;;
  addEventListener OnVisibilityChange ;;
  setTimer HeartbeatInterval ;;
  logDebug ;;
  the_fxt.

(** The registrations of a listener are the same. *)
Definition same_registered (l : ListenerKind) : relation World :=
  fun w w' => registered l w' = registered l w.

(** The method [FXT.stepTransition] is defined, or not, as before. *)
Definition same_api : relation World :=
  fun w w' => stepTransition (fxt w') = stepTransition (fxt w).

(** What the transport reads of a world. *)
Definition same_transport (w w1 : World) : Prop :=
  _isUnloading (fxt w1) = _isUnloading (fxt w) /\
  sendBeacon (host w1) = sendBeacon (host w) /\
  hasFetch (host w1) = hasFetch (host w) /\
  inflight (host w1) = inflight (host w) /\
  beacons (host w1) = beacons (host w) /\
  requestOf w1 = requestOf w.

(** The observers, the handle [FXT._mo] and the flag are as before. *)
Definition same_observers : relation World :=
  fun w w' => observers (host w') = observers (host w) /\
              _mo (fxt w') = _mo (fxt w) /\
              _isInitialized (fxt w') = _isInitialized (fxt w).

(** The bookkeeping of observers: an observer is identified by its
    position; one that is connected is the one [FXT._mo] holds; none is
    connected while the script is not initialized. *)
Record observers_ok (w : World) : Prop := {
  o_index : forall i o, observers (host w) !! i = Some o -> o.1.1 = i;
  o_current : forall o, o ∈ observers (host w) -> o.2 = true ->
                        _mo (fxt w) = Some o.1.1;
  o_stopped : _isInitialized (fxt w) = false ->
              forall o, o ∈ observers (host w) -> o.2 = false
}.

(** The script reads [_startedAt] and never writes it. *)
Definition same_start : relation World :=
  fun w w' => _startedAt (fxt w') = _startedAt (fxt w).

(** The configuration is as before. *)
Definition same_config : relation World :=
  fun w w' => _config (fxt w') = _config (fxt w).

(** The records that wait for delivery: those in the queue, those in a
    request of the script that has not settled, and those handed to
    [sendBeacon]. *)
Definition bodyOf (r : Request) : list Event :=
  match r_body r with Some body => p_events body | None => [] end.

Definition outbox (w : World) : list Event :=
  _events (fxt w) ++ flat_map bodyOf (inflight (host w)) ++
  flat_map p_events (beacons (host w)).

(** No waiting record is dropped, provided the host has [fetch]; the
    host has it afterwards if it had it before. *)
Definition carries : relation World :=
  fun w w' => hasFetch (host w') = hasFetch (host w) /\
              (hasFetch (host w) = true -> outbox w ⊆+ outbox w').

(** ** Hosts and elements used in the examples *)

Definition browser : Host :=
  {| perf := 10; wall := 1700000000000; hasPerformance := true;
     hasFetch := true; hasXHR := true; hasMutationObserver := true;
     sendBeacon := Some BeaconQueued;
     querySelector := fun s =>
       if bool_decide (s = "form") then QForm 0%nat
       else if bool_decide (s = "[") then QInvalid else QNone;
     pathname := "/"; entropy := 0%nat; timers := [];
     nextTimer := 1%positive; listeners := []; observers := [];
     fetchWraps := 0%nat; xhrWraps := 0%nat; consoleWraps := 0%nat;
     inflight := []; beacons := [] |}.

(** The same browser without [fetch] (and without [sendBeacon]). *)
Definition oldBrowser : Host :=
  {| perf := 10; wall := 1700000000000; hasPerformance := true;
     hasFetch := false; hasXHR := true; hasMutationObserver := true;
     sendBeacon := None;
     querySelector := fun s =>
       if bool_decide (s = "form") then QForm 0%nat
       else if bool_decide (s = "[") then QInvalid else QNone;
     pathname := "/"; entropy := 0%nat; timers := [];
     nextTimer := 1%positive; listeners := []; observers := [];
     fetchWraps := 0%nat; xhrWraps := 0%nat; consoleWraps := 0%nat;
     inflight := []; beacons := [] |}.

Definition with_selector (s : string) : Opts :=
  Build_Opts None (Some s) None None None None None None None.

Definition with_batchSize (n : Z) : Opts :=
  Build_Opts None None (Some n) None None None None None None.

Definition inputA (value : list N) : Element :=
  {| el_path := "input#a"; el_tag := "input"; el_type := Some "text";
     el_step := None; el_value := value; el_validity := None;
     el_stepNext := None |}.

Definition textNode : Node :=
  {| nodeType := 3; n_path := ""; n_tagName := None |}.

Definition ev (n : Z) : Event :=
  {| ev_type := "heartbeat"; ev_t := n; ev_data := DHeartbeat n |}.

(** Worlds used in the examples: a started session; one in which an
    attribute change armed the coalescing timer; one with six edits of a
    field; one in which the field holds two characters. *)
Definition started : World := run [CallInit no_opts] (loaded browser).

Definition observing : World :=
  run [CallInit no_opts;
       Mutations 0%nat [attributes "input#a" (Some "class")]]
      (loaded browser).

Definition sixEdits : World :=
  run (CallInit no_opts :: replicate 6 (Dispatch 0%nat EChange (inputA [65%N])))
      (loaded browser).

Definition typed : World :=
  run [CallInit no_opts; Dispatch 0%nat EChange (inputA [65%N; 66%N])]
      (loaded browser).

Definition smallBatches : World :=
  exec (init (with_batchSize 2)) (loaded browser).

(** An input with a validity state, and the scenario of a visit that
    starts when the clock reads 0: three edits, the last one invalid, and
    a blur at 500. *)
Definition validated (ok : bool) (value : list N) : Element :=
  {| el_path := "input#a"; el_tag := "input"; el_type := Some "text";
     el_step := None; el_value := value;
     el_validity := Some {| valid := ok; patternMismatch := negb ok;
                            valueMissing := false; typeMismatch := false;
                            tooShort := false; tooLong := false |};
     el_stepNext := None |}.

Definition visitFromZero : World :=
  let a := 65%N in
  let b := 66%N in
  let bang := 33%N in
  run [CallInit no_opts;
       Clock 0 0; Dispatch 0%nat EFocus (validated true []);
       Clock 100 100; Dispatch 0%nat EChange (validated true [a]);
       Clock 200 200; Dispatch 0%nat EChange (validated true [a; b]);
       Clock 300 300; Dispatch 0%nat EChange (validated false [a; b; bang]);
       Clock 500 500; Dispatch 0%nat EBlur (validated false [a; b; bang])]
      (loaded browser).

(** A request of the script itself that went through one [wrapFetch]
    layer, and an input that fails its pattern. *)
Definition ownRequest : Request :=
  {| r_url := "/api/fxt/events";
     r_body := Some {| p_sessionId := Some 0%nat; p_startedAt := 10;
                       p_events := [ev 1; ev 2] |};
     r_wraps := 1 |}.

Definition mismatch : Validity :=
  {| valid := false; patternMismatch := true; valueMissing := false;
     typeMismatch := false; tooShort := false; tooLong := false |}.

(** The record of the field in [typed]: one edit, two characters. *)
Definition typedRecord : Metrics :=
  set_lastValueLength 2 (set_editCount 1 zeroMetrics).

(** A session started with a batch size of zero. *)
Definition zeroBatch : World :=
  exec (init (with_batchSize 0)) (loaded browser).

(** * Properties *)

(** ** The monad *)

Lemma exec_bind {A B} (m : M A) (k : A -> M B) w :
  exec (bind m k) w =
  match outcome m w with
  | inl _ => exec m w
  | inr a => exec (k a) (exec m w)
  end.
Proof.
  unfold exec, outcome, bind. destruct (m w) as [w' [e|a]]; reflexivity.
Qed.

Lemma outcome_bind {A B} (m : M A) (k : A -> M B) w :
  outcome (bind m k) w =
  match outcome m w with
  | inl e => inl e
  | inr a => outcome (k a) (exec m w)
  end.
Proof.
  unfold exec, outcome, bind. destruct (m w) as [w' [e|a]]; reflexivity.
Qed.

Lemma run_pair {A} (m : M A) w : m w = (exec m w, outcome m w).
Proof. unfold exec, outcome. destruct (m w); reflexivity. Qed.

Section Preserves.
Context (R : relation World) `{!PreOrder R}.

Lemma preserves_ret {A} (a : A) : preserves R (ret a).
Proof. intros w. reflexivity. Qed.

Lemma preserves_throw {A} e : preserves R (@throw A e).
Proof. intros w. reflexivity. Qed.

Lemma preserves_read_fxt : preserves R the_fxt.
Proof. intros w. reflexivity. Qed.

Lemma preserves_read_host : preserves R the_host.
Proof. intros w. reflexivity. Qed.

Lemma preserves_bind {A B} (m : M A) (k : A -> M B) :
  preserves R m -> (forall a, preserves R (k a)) -> preserves R (bind m k).
Proof.
  intros Hm Hk w. rewrite exec_bind. destruct (outcome m w) as [e|a].
  - apply Hm.
  - etransitivity; [apply Hm | apply Hk].
Qed.

Lemma preserves_try {A} (m : M A) h :
  preserves R m -> (forall e, preserves R (h e)) ->
  preserves R (try_catch m h).
Proof.
  intros Hm Hh w. unfold exec, try_catch.
  specialize (Hm w). unfold exec in Hm.
  destruct (m w) as [w' [e|a]]; cbn in *; [|assumption].
  etransitivity; [eassumption | apply Hh].
Qed.

Lemma preserves_guarded m : preserves R m -> preserves R (guarded m).
Proof. intros Hm. apply preserves_try; [assumption|]. intros e w. reflexivity. Qed.

Lemma preserves_for_each {A} (xs : list A) body :
  (forall x, preserves R (body x)) -> preserves R (for_each xs body).
Proof.
  intros Hb. induction xs as [|x xs IH]; cbn.
  - apply preserves_ret.
  - apply preserves_bind; auto.
Qed.

Lemma preserves_calls n m w : preserves R m -> R w (calls n m w).
Proof.
  intros Hm. unfold calls. induction n as [|n IH]; cbn.
  - reflexivity.
  - etransitivity; [exact IH | apply Hm].
Qed.

(** Reading the state first: what follows may depend on it. *)
Lemma preserves_with_fxt {A} (k : FXT -> M A) :
  (forall w, R w (exec (k (fxt w)) w)) -> preserves R (bind the_fxt k).
Proof. intros H w. apply H. Qed.
End Preserves.

#[global] Instance same_quiet_preorder : PreOrder same_quiet.
Proof.
  split.
  - intros w. reflexivity.
  - intros a b c H1 H2. unfold same_quiet in *. congruence.
Qed.

#[global] Instance same_timers_preorder : PreOrder same_timers.
Proof.
  split.
  - intros w. split; [reflexivity | auto].
  - intros a b c [H1 K1] [H2 K2]. split; [congruence | auto].
Qed.

#[global] Instance same_caps_preorder : PreOrder same_caps.
Proof.
  split.
  - intros w. split; reflexivity.
  - intros a b c [H1 K1] [H2 K2]. split; congruence.
Qed.

#[global] Instance keeps_inv_preorder : PreOrder keeps_inv.
Proof.
  split.
  - intros w H. exact H.
  - intros a b c H1 H2 H. auto.
Qed.

Lemma same_timers_keeps w w' : same_timers w w' -> keeps_inv w w'.
Proof. intros [Ht Hk] [H1 H2]. split; [rewrite Ht; exact H1 | auto]. Qed.

(** ** Frames: what each function leaves alone *)

Create HintDb frame.

Section ReadOnly.
Context (R : relation World) `{!PreOrder R}.

Lemma preserves_perfNow : preserves R perfNow.
Proof. intros w. reflexivity. Qed.

Lemma preserves_dateNow : preserves R dateNow.
Proof. intros w. reflexivity. Qed.

Lemma preserves_logDebug : preserves R logDebug.
Proof. intros w. reflexivity. Qed.

Lemma preserves_makeEvent ty d : preserves R (makeEvent ty d).
Proof. intros w. reflexivity. Qed.

Lemma preserves_getFieldMetrics f : preserves R (getFieldMetrics f).
Proof. intros w. reflexivity. Qed.

Lemma preserves_metricsOf f : preserves R (metricsOf f).
Proof. intros w. reflexivity. Qed.
End ReadOnly.

#[global] Hint Resolve preserves_perfNow preserves_dateNow preserves_logDebug
  preserves_makeEvent preserves_getFieldMetrics preserves_metricsOf
  preserves_ret preserves_throw preserves_read_fxt preserves_read_host
  : frame.

(** Splits a computation along its binds, branches and handlers; what is
    left is an assignment, closed by unfolding, or a function with a frame
    lemma in the database. *)
Ltac frame :=
  repeat first
    [ progress intros
    | progress cbv beta zeta
    | solve [eauto with frame typeclass_instances]
    | apply preserves_bind
    | apply preserves_try
    | apply preserves_guarded
    | apply preserves_for_each
    | match goal with
      | |- preserves _ (match ?x with _ => _ end) => destruct x
      end
    | match goal with
      | |- preserves _ _ =>
          let w := fresh "w" in
          intros w;
          solve [ reflexivity | split; [reflexivity | auto]
                | split; reflexivity
                | intros ?; split; [assumption | reflexivity] ]
      end ].

Lemma send_quiet p : preserves same_quiet (send p).
Proof. unfold send. frame. Qed.
#[global] Hint Resolve send_quiet : frame.

Lemma flush_quiet : preserves same_quiet flush.
Proof. unfold flush. frame. Qed.
#[global] Hint Resolve flush_quiet : frame.

Lemma enqueue_quiet e : preserves same_quiet (enqueue e).
Proof. unfold enqueue. frame. Qed.
#[global] Hint Resolve enqueue_quiet : frame.

Lemma alterField_keys f k s : (alterField f k s).*1 = s.*1.
Proof.
  induction s as [|[k' m] s IH]; cbn; [reflexivity|].
  case_bool_decide; cbn; [reflexivity | now rewrite IH].
Qed.

Lemma lookupField_None k s : lookupField k s = None -> k ∉ s.*1.
Proof.
  induction s as [|[k' m] s IH]; cbn; intros H.
  - apply not_elem_of_nil.
  - case_bool_decide; [discriminate|].
    apply not_elem_of_cons. split; [congruence | auto].
Qed.

Lemma lookupField_Some k s m : lookupField k s = Some m -> (k, m) ∈ s.
Proof.
  induction s as [|[k' m'] s IH]; cbn; intros H; [discriminate|].
  case_bool_decide.
  - injection H as ->. subst. apply list_elem_of_here.
  - apply list_elem_of_further. auto.
Qed.

Lemma lookupField_elem k s m :
  NoDup s.*1 -> (k, m) ∈ s -> lookupField k s = Some m.
Proof.
  induction s as [|[k' m'] s IH]; cbn; intros Hnd Hin.
  - now apply elem_of_nil in Hin.
  - apply NoDup_cons in Hnd as [Hk Hnd].
    apply elem_of_cons in Hin as [Heq|Hin].
    + injection Heq as -> ->. now rewrite bool_decide_eq_true_2.
    + case_bool_decide as Hd; [|auto].
      subst. exfalso. apply Hk.
      apply list_elem_of_fmap. exists (k, m). split; [reflexivity|exact Hin].
Qed.

Lemma lookupField_alter f k k' s :
  lookupField k' (alterField f k s) =
  if bool_decide (k' = k) then f <$> lookupField k s else lookupField k' s.
Proof.
  induction s as [|[k0 m] s IH]; cbn.
  - now case_bool_decide.
  - repeat (case_bool_decide; cbn; subst); try congruence;
      rewrite IH; now repeat case_bool_decide.
Qed.

Lemma lookupField_app k s s' :
  lookupField k (s ++ s') =
  match lookupField k s with Some m => Some m | None => lookupField k s' end.
Proof.
  induction s as [|[k0 m] s IH]; cbn; [reflexivity|].
  now case_bool_decide.
Qed.

Lemma initFieldMetrics_timers f : preserves same_timers (initFieldMetrics f).
Proof.
  unfold initFieldMetrics. apply preserves_with_fxt. intros w.
  destruct (lookupField f (_fieldMetrics (fxt w))) eqn:E.
  - reflexivity.
  - split; [reflexivity|]. unfold keys. cbn. intros Hnd.
    rewrite fmap_app. cbn. apply NoDup_app. split; [exact Hnd|].
    split; [|apply NoDup_singleton].
    intros x Hx Hx'. apply list_elem_of_singleton in Hx'. subst.
    now apply lookupField_None in E.
Qed.

Lemma mutate_timers f g : preserves same_timers (mutate f g).
Proof.
  intros w. split; [reflexivity|]. unfold keys. cbn.
  now rewrite alterField_keys.
Qed.
#[global] Hint Resolve initFieldMetrics_timers mutate_timers : frame.

Lemma send_timers p : preserves same_timers (send p).
Proof. unfold send. frame. Qed.
#[global] Hint Resolve send_timers : frame.

Lemma flush_timers : preserves same_timers flush.
Proof. unfold flush. frame. Qed.
#[global] Hint Resolve flush_timers : frame.

Lemma enqueue_timers e : preserves same_timers (enqueue e).
Proof. unfold enqueue. frame. Qed.
#[global] Hint Resolve enqueue_timers : frame.

Lemma sendFieldMetricsSummary_timers r :
  preserves same_timers (sendFieldMetricsSummary r).
Proof. unfold sendFieldMetricsSummary. frame. Qed.
#[global] Hint Resolve sendFieldMetricsSummary_timers : frame.

Lemma handlerOf_timers e el : preserves same_timers (handlerOf e el).
Proof.
  destruct e; cbn;
    unfold onFocus, onBlur, onChange, onInvalid, onFormClick, onKeyDown,
      onPaste; frame.
Qed.

Lemma callStepTransition_timers a b :
  preserves same_timers (callStepTransition a b).
Proof. unfold callStepTransition. frame. Qed.

Lemma errorEvent_timers a b : preserves same_timers (errorEvent a b).
Proof. unfold errorEvent. frame. Qed.
#[global] Hint Resolve errorEvent_timers : frame.

Lemma consoleErrorLayer_timers m : preserves same_timers (consoleErrorLayer m).
Proof. unfold consoleErrorLayer. frame. Qed.

Lemma onWindowError_timers m : preserves same_timers (onWindowError m).
Proof. unfold onWindowError. frame. Qed.

Lemma onUnhandledRejection_timers m :
  preserves same_timers (onUnhandledRejection m).
Proof. unfold onUnhandledRejection. frame. Qed.

Lemma wrapFetchLayer_timers p : preserves same_timers (wrapFetchLayer p).
Proof. unfold wrapFetchLayer, wrapFetchCatch. frame. Qed.
#[global] Hint Resolve wrapFetchLayer_timers : frame.

Lemma wrapFetchLayers_timers n p : preserves same_timers (wrapFetchLayers n p).
Proof. revert p. induction n; intros p; cbn; frame. Qed.
#[global] Hint Resolve wrapFetchLayers_timers : frame.

Lemma settle_timers r p : preserves same_timers (settle r p).
Proof. unfold settle, flushSettled, flushCatch. frame. Qed.

Lemma xhrLayer_timers l : preserves same_timers (xhrLayer l).
Proof. unfold xhrLayer. frame. Qed.

Lemma heartbeat_timers : preserves same_timers heartbeat.
Proof. unfold heartbeat. frame. Qed.

Lemma onBeforeUnload_timers : preserves same_timers onBeforeUnload.
Proof. unfold onBeforeUnload. frame. Qed.

Lemma onVisibilityChange_timers h : preserves same_timers (onVisibilityChange h).
Proof. unfold onVisibilityChange. frame. Qed.

Lemma recordMutation_timers m : preserves same_timers (recordMutation m).
Proof. unfold recordMutation, pushMutation. frame. Qed.
#[global] Hint Resolve recordMutation_timers : frame.

(** ** The timer bookkeeping invariant *)

Lemma kindOf_Some i k ts : kindOf i ts = Some k -> (i, k) ∈ ts.
Proof.
  induction ts as [|[j k'] ts IH]; cbn; [discriminate|].
  destruct (Pos.eqb_spec j i) as [->|Hne].
  - intros [= ->]. apply list_elem_of_here.
  - intros H. apply list_elem_of_further. auto.
Qed.

Lemma kindOf_elem i k ts : NoDup ts.*1 -> (i, k) ∈ ts -> kindOf i ts = Some k.
Proof.
  induction ts as [|[j k'] ts IH]; cbn; intros Hnd Hin.
  - now apply elem_of_nil in Hin.
  - apply NoDup_cons in Hnd as [Hj Hnd].
    apply elem_of_cons in Hin as [[= -> ->]|Hin].
    + now rewrite Pos.eqb_refl.
    + destruct (Pos.eqb_spec j i) as [->|Hne]; [|auto].
      exfalso. apply Hj. apply list_elem_of_fmap.
      exists (i, k). split; [reflexivity | exact Hin].
Qed.

Lemma next_not_outstanding v k :
  timers_ok v -> (tv_next v, k) ∉ tv_timers v.
Proof. intros Hv Hin. apply (t_fresh _ Hv) in Hin. lia. Qed.

Lemma timers_ok_arm k v :
  timers_ok v ->
  (k = FlushTimeout -> tv_flush v = None) ->
  (k = MutationTimeout -> tv_mutation v = None) ->
  timers_ok (arm k v).
Proof.
  intros Hv Hf Hm.
  pose proof (fun k => next_not_outstanding v k Hv) as Hnew.
  split; cbn.
  - intros i k' [Hin|Hin%list_elem_of_singleton]%elem_of_app.
    + apply (t_fresh _ Hv) in Hin. lia.
    + injection Hin as -> ->. lia.
  - rewrite fmap_app. apply NoDup_app. split; [apply (t_nodup _ Hv)|].
    split; [|apply NoDup_singleton].
    intros i Hi Hi'. cbn in Hi'. apply list_elem_of_singleton in Hi'. subst.
    apply list_elem_of_fmap in Hi as [[j k'] [Hj Hin]]. cbn in Hj. subst.
    now apply (Hnew k').
  - intros i [Hin|Hin%list_elem_of_singleton]%elem_of_app.
    + pose proof (t_flush _ Hv _ Hin) as Hh.
      destruct k; [rewrite Hf in Hh; [discriminate|reflexivity]|exact Hh..].
    + injection Hin as -> <-. reflexivity.
  - intros i [Hin|Hin%list_elem_of_singleton]%elem_of_app.
    + pose proof (t_mutation _ Hv _ Hin) as Hh.
      destruct k; [exact Hh| rewrite Hm in Hh; [discriminate|reflexivity]
                  | exact Hh].
    + injection Hin as -> <-. reflexivity.
  - intros i Hi. destruct k; [injection Hi as <-; lia|..];
      apply (t_flush_old _ Hv) in Hi; lia.
  - intros i Hi. destruct k; [|injection Hi as <-; lia|];
      apply (t_mutation_old _ Hv) in Hi; lia.
  - intros i k' Hi [Hin|Hin%list_elem_of_singleton]%elem_of_app.
    + destruct k; [injection Hi as <-; now apply Hnew in Hin|..];
        eapply (t_flush_kind _ Hv); eauto.
    + injection Hin as -> ->.
      destruct k; [reflexivity|..];
        apply (t_flush_old _ Hv) in Hi; lia.
  - intros i k' Hi [Hin|Hin%list_elem_of_singleton]%elem_of_app.
    + destruct k; [|injection Hi as <-; now apply Hnew in Hin|];
        eapply (t_mutation_kind _ Hv); eauto.
    + injection Hin as -> ->.
      destruct k; [|reflexivity|];
        apply (t_mutation_old _ Hv) in Hi; lia.
Qed.

Lemma timers_ok_cancel i v : timers_ok v -> timers_ok (cancel i v).
Proof.
  intros Hv. split; cbn.
  - intros j k [_ Hin]%list_elem_of_filter. eapply t_fresh; eauto.
  - apply NoDup_fmap_fst.
    + intros j k1 k2 [_ H1]%list_elem_of_filter [_ H2]%list_elem_of_filter.
      pose proof (t_nodup _ Hv) as Hnd.
      apply (kindOf_elem _ _ _ Hnd) in H1, H2. congruence.
    + apply NoDup_filter. eapply NoDup_fmap_1. apply (t_nodup _ Hv).
  - intros j [_ Hin]%list_elem_of_filter. now apply (t_flush _ Hv).
  - intros j [_ Hin]%list_elem_of_filter. now apply (t_mutation _ Hv).
  - apply (t_flush_old _ Hv).
  - apply (t_mutation_old _ Hv).
  - intros j k Hj [_ Hin]%list_elem_of_filter. eapply t_flush_kind; eauto.
  - intros j k Hj [_ Hin]%list_elem_of_filter. eapply t_mutation_kind; eauto.
Qed.

Lemma timers_ok_fired k i v :
  timers_ok v -> (i, k) ∈ tv_timers v ->
  timers_ok
    {| tv_timers := tv_timers (cancel i v); tv_next := tv_next v;
       tv_flush := match k with FlushTimeout => None | _ => tv_flush v end;
       tv_mutation := match k with MutationTimeout => None
                      | _ => tv_mutation v end |}.
Proof.
  intros Hv Hi. pose proof (timers_ok_cancel i v Hv) as Hc.
  assert (Hgone : forall j, (j, k) ∈ tv_timers (cancel i v) ->
                            (k = FlushTimeout \/ k = MutationTimeout) -> False).
  { intros j [Hne Hin]%list_elem_of_filter Hk. cbn in Hne. apply Hne.
    destruct Hk as [-> | ->].
    - pose proof (t_flush _ Hv _ Hin). pose proof (t_flush _ Hv _ Hi).
      congruence.
    - pose proof (t_mutation _ Hv _ Hin). pose proof (t_mutation _ Hv _ Hi).
      congruence. }
  split; cbn.
  - apply (t_fresh _ Hc).
  - apply (t_nodup _ Hc).
  - intros j Hin. destruct k; [exfalso; eauto|apply (t_flush _ Hc _ Hin)..].
  - intros j Hin.
    destruct k; [apply (t_mutation _ Hc _ Hin)|exfalso; eauto
                |apply (t_mutation _ Hc _ Hin)].
  - intros j Hj. destruct k; [discriminate|apply (t_flush_old _ Hv _ Hj)..].
  - intros j Hj.
    destruct k; [apply (t_mutation_old _ Hv _ Hj)|discriminate
                |apply (t_mutation_old _ Hv _ Hj)].
  - intros j k' Hj Hin.
    destruct k; [discriminate|apply (t_flush_kind _ Hc _ _ Hj Hin)..].
  - intros j k' Hj Hin.
    destruct k; [apply (t_mutation_kind _ Hc _ _ Hj Hin)|discriminate
                |apply (t_mutation_kind _ Hc _ _ Hj Hin)].
Qed.

Lemma keeps_of_same_timers {A} (m : M A) :
  preserves same_timers m -> preserves keeps_inv m.
Proof. intros H w. apply same_timers_keeps, H. Qed.

#[global] Hint Resolve keeps_of_same_timers | 20 : frame.

(** [frame] for [keeps_inv]: an assignment that leaves the timers alone
    is closed through [same_timers]. *)
Ltac keeps :=
  repeat first
    [ progress frame
    | match goal with
      | |- preserves keeps_inv _ =>
          let w := fresh "w" in
          intros w; apply same_timers_keeps;
          solve [ split; [reflexivity | auto] ]
      end ].

Lemma setTimer_heartbeat_keeps :
  preserves keeps_inv (setTimer HeartbeatInterval).
Proof.
  intros w [Hv Hk]. split; [|exact Hk].
  apply (timers_ok_arm HeartbeatInterval _ Hv); discriminate.
Qed.

Lemma scheduleFlush_keeps : preserves keeps_inv scheduleFlush.
Proof.
  unfold scheduleFlush. apply preserves_with_fxt. intros w [Hv Hk].
  destruct (_flushTimer (fxt w)) eqn:E; [split; assumption|].
  split; [|exact Hk].
  apply (timers_ok_arm FlushTimeout _ Hv); [intros _; exact E|discriminate].
Qed.

Lemma clearTimeout_keeps h : preserves keeps_inv (clearTimeout h).
Proof.
  destruct h as [i|]; cbn; [|apply preserves_ret; apply _].
  intros w [Hv Hk]. split; [|exact Hk]. apply (timers_ok_cancel i _ Hv).
Qed.

#[global] Hint Resolve setTimer_heartbeat_keeps scheduleFlush_keeps
  clearTimeout_keeps : frame.

Lemma onMutations_keeps ms : preserves keeps_inv (onMutations ms).
Proof.
  unfold onMutations. apply preserves_guarded; [apply _|].
  apply preserves_bind; [apply _|keeps|]. intros _.
  apply preserves_with_fxt. intros w [Hv Hk].
  destruct (_mutationTimer (fxt w)) eqn:E; [split; assumption|].
  split; [|exact Hk].
  apply (timers_ok_arm MutationTimeout _ Hv); [discriminate|intros _; exact E].
Qed.

Lemma init_keeps opts : preserves keeps_inv (init opts).
Proof.
  unfold init, makeSessionId, locateForm, attachFormListeners,
    observeMutations, wrapConsole, wireWindowErrors, wrapFetch, wrapXHR,
    addEventListener.
  keeps.
Qed.

Lemma stop_keeps : preserves keeps_inv stop.
Proof. unfold stop, disconnect. keeps. Qed.

Lemma loaded_inv h : pristine h -> inv (loaded h).
Proof.
  intros [Ht _]. split; [|apply NoDup_nil_2].
  split; cbn; rewrite ?Ht; try discriminate; try apply NoDup_nil_2;
    intros; exfalso; eapply elem_of_nil; eauto.
Qed.

Lemma fire_flush_inv i w :
  inv w -> timerKind i w = Some FlushTimeout ->
  inv (exec (expire i ;; flushTick) w).
Proof.
  intros [Hv Hk] Hi. apply kindOf_Some in Hi.
  change (exec (expire i ;; flushTick) w) with
    (exec (flush ;; scheduleFlush)
          (exec (expire i ;; upd (set_flushTimer None)) w)).
  assert (preserves keeps_inv (flush ;; scheduleFlush)) as H by keeps.
  apply H. split; [|exact Hk].
  apply (timers_ok_fired FlushTimeout i _ Hv Hi).
Qed.

Lemma fire_mutation_inv i w :
  inv w -> timerKind i w = Some MutationTimeout ->
  inv (exec (expire i ;; mutationTick) w).
Proof.
  intros [Hv Hk] Hi. apply kindOf_Some in Hi.
  unfold mutationTick.
  set (w1 := exec (expire i ;;
                   upd (set_mutationBuffer
                          (drop (Z.to_nat (maxMutationRecordsPerBatch
                                             (_config (fxt w))))
                                (_mutationBuffer (fxt w))))) w).
  set (e := {| ev_type := "dom-mutation";
               ev_t := if hasPerformance (host w) then perf (host w)
                       else wall (host w);
               ev_data := DDomMutation
                 (take (Z.to_nat (maxMutationRecordsPerBatch
                                    (_config (fxt w))))
                       (_mutationBuffer (fxt w))) |}).
  change (inv (exec (enqueue e ;; upd (set_mutationTimer None)) w1)).
  destruct (enqueue_timers e w1) as [Ht Hk'].
  rewrite exec_bind. destruct (outcome (enqueue e) w1).
  - split; [rewrite Ht; apply (timers_ok_cancel i _ Hv) | apply Hk', Hk].
  - split; [|apply Hk', Hk].
    pose proof (timers_ok_fired MutationTimeout i _ Hv Hi) as Hf.
    unfold tview in *. cbn in *. injection Ht as -> -> -> _. exact Hf.
Qed.

Lemma react_inv l w : inv w -> inv (react l w).
Proof.
  intros Hw. destruct l; cbn [react].
  - now apply init_keeps.
  - now apply stop_keeps.
  - now apply (keeps_of_same_timers _ (callStepTransition_timers _ _)).
  - destruct Hw as [Hv Hk]. split; assumption.
  - destruct Hw as [Hv Hk]. split; [|exact Hk].
    destruct Hv. split; cbn in *; eauto; intros;
      match goal with
      | H : _ |- (_ < Pos.succ _)%positive =>
          first [ apply t_fresh0 in H | apply t_flush_old0 in H
                | apply t_mutation_old0 in H ]; lia
      end.
  - revert Hw. apply (preserves_calls keeps_inv).
    apply keeps_of_same_timers, handlerOf_timers.
  - destruct ms; [assumption|]. destruct (connected mo w); [|assumption].
    now apply onMutations_keeps.
  - destruct (timerKind i w) as [[]|] eqn:E; [| | |assumption].
    + now apply fire_flush_inv.
    + now apply fire_mutation_inv.
    + now apply (keeps_of_same_timers _ heartbeat_timers).
  - destruct (inflight (host w) !! n) as [r|]; [|assumption].
    rewrite exec_bind. cbn.
    apply (keeps_of_same_timers _ (settle_timers r p)).
    destruct Hw as [Hv Hk]. split; assumption.
  - destruct (hasFetch (host w)); [|assumption].
    destruct Hw as [Hv Hk]. split; assumption.
  - revert Hw. apply (preserves_calls keeps_inv).
    apply keeps_of_same_timers, xhrLayer_timers.
  - revert Hw. apply (preserves_calls keeps_inv).
    apply keeps_of_same_timers, consoleErrorLayer_timers.
  - revert Hw. apply (preserves_calls keeps_inv).
    apply keeps_of_same_timers, onWindowError_timers.
  - revert Hw. apply (preserves_calls keeps_inv).
    apply keeps_of_same_timers, onUnhandledRejection_timers.
  - revert Hw. apply (preserves_calls keeps_inv).
    apply keeps_of_same_timers, onBeforeUnload_timers.
  - revert Hw. apply (preserves_calls keeps_inv).
    apply keeps_of_same_timers, onVisibilityChange_timers.
Qed.

Lemma reachable_inv w : reachable w -> inv w.
Proof.
  induction 1 as [h Hh | l w _ IH]; [now apply loaded_inv | now apply react_inv].
Qed.

Lemma bind_done (m : M unit) w : (m ;; ret tt) w = m w.
Proof. unfold bind, ret. destruct (m w) as [w' [e|[]]]; reflexivity. Qed.

Lemma bind_done_pair (r : World * (Exn + unit)) :
  match r with
  | (w', inl e) => (w', inl e)
  | (w', inr _) => ret tt w'
  end = r.
Proof. destruct r as [w' [e|[]]]; reflexivity. Qed.

(** ** Pain-point summary *)

Lemma summaryLoop_spec entries acc :
  summaryLoop entries acc =
  (acc.1 ++ painPointsOf entries, acc.2 ++ summariesOf entries).
Proof.
  revert acc. induction entries as [|[f m] entries IH]; intros [pps sums].
  - cbn. now rewrite !app_nil_r.
  - cbn [summaryLoop]. rewrite IH. unfold painPointsOf, summariesOf.
    rewrite filter_cons. cbn [fst snd map].
    destruct (decide (isPainPoint m = true)) as [E|E].
    + rewrite E. cbn. now rewrite <- !app_assoc.
    + apply not_true_is_false in E. rewrite E. cbn. now rewrite <- !app_assoc.
Qed.

Lemma fieldAnalytics_spec reason x :
  fieldAnalytics reason x =
  DFieldAnalytics reason (_currentFocusedField x)
    (length (summariesOf (_fieldMetrics x))) (painPointsOf (_fieldMetrics x))
    (length (painPointsOf (_fieldMetrics x))) (summariesOf (_fieldMetrics x)).
Proof. unfold fieldAnalytics. now rewrite summaryLoop_spec. Qed.

Lemma isPainPoint_exceeded m : isPainPoint m = true <-> exceeded m.
Proof.
  unfold isPainPoint, exceeded.
  rewrite !orb_true_iff, !Nat.ltb_lt, Z.ltb_lt. tauto.
Qed.

Lemma painPointsOf_elem p entries :
  p ∈ painPointsOf entries <->
  exists f m, (f, m) ∈ entries /\ isPainPoint m = true /\
              p = {| pp_field := f; pp_reasons := reasonsOf m;
                     pp_metrics := summaryOf f m |}.
Proof.
  unfold painPointsOf. rewrite list_elem_of_fmap. split.
  - intros [[f m] [-> [Hp Hin]%list_elem_of_filter]]. eauto.
  - intros (f & m & Hin & Hp & ->). exists (f, m). split; [reflexivity|].
    apply list_elem_of_filter. auto.
Qed.

(** C3. For every record [(f, m)] of the metric store when
    [sendFieldMetricsSummary] is called, the emitted [painPoints] list has
    an entry for [f] if and only if one of the five thresholds is
    exceeded by [m], and the [reasons] of that entry are true exactly for
    the thresholds [m] exceeds. *)
Theorem pain_points_iff_thresholds (w : World) (reason : string) :
  NoDup (keys w) ->
  exists t pps sums,
    sendFieldMetricsSummary reason w =
    enqueue {| ev_type := "field-analytics"; ev_t := t;
               ev_data := DFieldAnalytics reason
                            (_currentFocusedField (fxt w)) (length sums)
                            pps (length pps) sums |} w /\
    forall f m, (f, m) ∈ _fieldMetrics (fxt w) ->
      ((exists p, p ∈ pps /\ pp_field p = f) <-> exceeded m) /\
      (forall p, p ∈ pps -> pp_field p = f ->
         (repeatedValidationFailures (pp_reasons p) = true
            <-> (2 < validationFailures m)%nat) /\
         (excessiveTimeSpent (pp_reasons p) = true
            <-> 30000 < totalTimeSpent m) /\
         (multipleReturns (pp_reasons p) = true <-> (3 < focusCount m)%nat) /\
         (manyEdits (pp_reasons p) = true <-> (5 < editCount m)%nat) /\
         (multipleClears (pp_reasons p) = true <-> (1 < clearCount m)%nat)).
Proof.
  intros Hnd.
  exists (if hasPerformance (host w) then perf (host w) else wall (host w)),
    (painPointsOf (_fieldMetrics (fxt w))),
    (summariesOf (_fieldMetrics (fxt w))).
  split.
  - transitivity
      ((enqueue {| ev_type := "field-analytics";
                   ev_t := if hasPerformance (host w) then perf (host w)
                           else wall (host w);
                   ev_data := fieldAnalytics reason (fxt w) |} ;; ret tt) w);
      [reflexivity|].
    now rewrite bind_done, fieldAnalytics_spec.
  - intros f m Hin. split.
    + rewrite <- isPainPoint_exceeded. split.
      * intros (p & (f' & m' & Hin' & Hp & ->)%painPointsOf_elem & Hf).
        cbn in Hf. subst f'.
        apply (lookupField_elem _ _ _ Hnd) in Hin, Hin'. congruence.
      * intros Hp.
        exists {| pp_field := f; pp_reasons := reasonsOf m;
                  pp_metrics := summaryOf f m |}.
        split; [|reflexivity]. apply painPointsOf_elem. eauto.
    + intros p (f' & m' & Hin' & Hp & ->)%painPointsOf_elem Hf.
      cbn in Hf. subst f'.
      apply (lookupField_elem _ _ _ Hnd) in Hin, Hin'.
      assert (m' = m) as -> by congruence.
      unfold reasonsOf.
      cbn [pp_reasons repeatedValidationFailures excessiveTimeSpent
           multipleReturns manyEdits multipleClears].
      rewrite !Nat.ltb_lt, Z.ltb_lt. tauto.
Qed.

(** Six edits of a field and nothing else: the periodic summary flags the
    field for its edits only. *)
Example six_edits_summary :
  fieldAnalytics "periodic" (fxt sixEdits) =
  let m := {| s_field := "input#a"; s_focusCount := 0;
              s_totalTimeSpentMs := 0; s_editCount := 6;
              s_validationFailures := 0; s_backspaceCount := 0;
              s_pasteCount := 0; s_clearCount := 0 |} in
  DFieldAnalytics "periodic" None 1
    [{| pp_field := "input#a";
        pp_reasons := {| repeatedValidationFailures := false;
                         excessiveTimeSpent := false;
                         multipleReturns := false; manyEdits := true;
                         multipleClears := false |};
        pp_metrics := m |}]
    1 [m].
Proof. vm_compute. reflexivity. Qed.

(** Before any interaction the summary (as [stop] emits it) has no field,
    no pain point and no drop-off field. *)
Example stop_without_interaction :
  map ev_data (_events (fxt (exec (sendFieldMetricsSummary "stop")
                                  (loaded browser)))) =
  [DFieldAnalytics "stop" None 0 [] 0 []].
Proof. vm_compute. reflexivity. Qed.

(** ** Event queue *)

Lemma take_all {A} (l : list A) n : length l = n -> take n l = l.
Proof. intros <-. apply firstn_all. Qed.

Lemma drop_all' {A} (l : list A) n : length l = n -> drop n l = [].
Proof. intros <-. apply drop_all. Qed.

Lemma enqueue_cases e w :
  enqueue e w =
  if Z.of_nat (length (_events (fxt w) ++ [e])) >=?
     batchSize (_config (fxt w))
  then flush (with_events (_events (fxt w) ++ [e]) w)
  else (with_events (_events (fxt w) ++ [e]) w, inr tt).
Proof.
  unfold enqueue, bind, upd, the_fxt, with_events. cbn.
  destruct (_ >=? _); reflexivity.
Qed.

Lemma flush_cases w :
  flush w =
  match _events (fxt w) with
  | [] => (w, inr tt)
  | _ =>
      let n := Z.to_nat (batchSize (_config (fxt w))) in
      send (batchOf w (take n (_events (fxt w))))
           (with_events (drop n (_events (fxt w))) w)
  end.
Proof.
  unfold flush, bind, the_fxt. destruct (_events (fxt w)); reflexivity.
Qed.

(** One batch is handed to at most one transport: it is accepted as a
    beacon, or becomes one request in flight, or (no [fetch]) is lost
    with an exception; the queue is not touched. *)
Lemma send_cases p w :
  let w' := exec (send p) w in
  _events (fxt w') = _events (fxt w) /\
  ((beacons (host w') = beacons (host w) ++ [p] /\
    inflight (host w') = inflight (host w) /\ outcome (send p) w = inr tt) \/
   (beacons (host w') = beacons (host w) /\
    (exists r, inflight (host w') = inflight (host w) ++ [r] /\
               r_body r = Some p) /\ outcome (send p) w = inr tt) \/
   (beacons (host w') = beacons (host w) /\
    inflight (host w') = inflight (host w) /\ hasFetch (host w) = false /\
    outcome (send p) w = inl (ReferenceError "fetch"))).
Proof.
  unfold send, exec, outcome, bind, the_fxt, the_host, logDebug, ret. cbn.
  destruct (sendBeacon (host w)) as [[]|], (_isUnloading (fxt w));
    cbn; try (split; [reflexivity|left; auto]);
    destruct (hasFetch (host w)) eqn:E; cbn;
    (split; [reflexivity|]); right; eauto 10.
Qed.

(** Enqueuing the records that fill an empty-enough queue up to
    [batchSize]: nothing is sent before the last one, which triggers the
    one flush of the whole buffer. *)
Lemma enqueue_up_to_batchSize es :
  forall w,
    es <> [] ->
    Z.of_nat (length (_events (fxt w)) + length es) =
      batchSize (_config (fxt w)) ->
    for_each es enqueue w =
    send (batchOf w (_events (fxt w) ++ es)) (with_events [] w).
Proof.
  induction es as [|e es IH]; intros w Hne Hlen; [congruence|].
  cbn [for_each]. unfold bind at 1. rewrite enqueue_cases.
  rewrite length_app. cbn [length] in *.
  destruct es as [|e' es].
  - cbn [for_each].
    destruct (_ >=? _) eqn:G;
      [|rewrite Z.geb_leb in G; apply Z.leb_gt in G; cbn [length] in *; lia].
    rewrite flush_cases. cbn.
    destruct (_events (fxt w) ++ [e]) eqn:E;
      [now destruct (_events (fxt w))|]. rewrite <- E.
    assert (length (_events (fxt w) ++ [e]) =
            Z.to_nat (batchSize (_config (fxt w)))) as Hn
        by (rewrite length_app; cbn [length] in *; lia).
    rewrite (take_all _ _ Hn), (drop_all' _ _ Hn).
    rewrite bind_done_pair. reflexivity.
  - destruct (_ >=? _) eqn:G;
      [rewrite Z.geb_leb in G; apply Z.leb_le in G; cbn [length] in *; lia|].
    rewrite IH; [|discriminate|];
      [|cbn [length with_events fxt set_events _events _config] in *;
        rewrite length_app; cbn [length]; lia].
    cbn. now rewrite <- app_assoc.
Qed.

(** C1. [enqueue] appends the event to the back of the buffer; the record
    that brings the buffer length to [batchSize] (25 by default) triggers
    one flush, at once, and [batchSize] records enqueued into an empty
    buffer are sent as one batch. [flush] does nothing on an empty buffer,
    and otherwise moves the first [batchSize] records (all of them if
    there are fewer), in their order, into one outbound batch. *)
Theorem event_queue_contract (w : World) (e : Event) (es : list Event) :
  let q := _events (fxt w) in
  let size := batchSize (_config (fxt w)) in
  let n := Z.to_nat size in
  batchSize DEFAULTS = 25 /\
  (Z.of_nat (length q) + 1 < size ->
   enqueue e w = (with_events (q ++ [e]) w, inr tt)) /\
  (size <= Z.of_nat (length q) + 1 ->
   enqueue e w = flush (with_events (q ++ [e]) w)) /\
  (Z.of_nat (length q) + 1 = size ->
   enqueue e w = send (batchOf w (q ++ [e])) (with_events [] w)) /\
  (q = [] -> es <> [] -> Z.of_nat (length es) = size ->
   for_each es enqueue w = send (batchOf w es) (with_events [] w)) /\
  (q = [] -> flush w = (w, inr tt)) /\
  (q <> [] ->
   flush w = send (batchOf w (take n q)) (with_events (drop n q) w) /\
   q = take n q ++ drop n q /\
   length (take n q) = Nat.min n (length q) /\
   (0 <= size -> Z.of_nat (length (take n q)) <= size)).
Proof.
  cbv zeta. split; [reflexivity|]. repeat split.
  - intros H. rewrite enqueue_cases, length_app. cbn [length].
    destruct (_ >=? _) eqn:G; [|reflexivity].
    rewrite Z.geb_leb in G. apply Z.leb_le in G. lia.
  - intros H. rewrite enqueue_cases, length_app. cbn [length].
    destruct (_ >=? _) eqn:G; [reflexivity|].
    rewrite Z.geb_leb in G. apply Z.leb_gt in G. lia.
  - pose proof (enqueue_up_to_batchSize [e] w) as Hb. cbn [for_each] in Hb.
    rewrite bind_done in Hb. intros H.
    apply Hb; [discriminate | cbn [length]; lia].
  - intros Hq Hne Hlen.
    rewrite (enqueue_up_to_batchSize es w Hne); rewrite Hq; [reflexivity|].
    cbn [length]. lia.
  - intros Hq. rewrite flush_cases, Hq. reflexivity.
  - rewrite flush_cases. destruct (_events (fxt w)); [congruence|reflexivity].
  - symmetry. apply take_drop.
  - apply length_take.
  - intros Hs. rewrite length_take. lia.
Qed.

(** ** Start and stop *)

Lemma init_when_initialized w opts :
  _isInitialized (fxt w) = true -> init opts w = (w, inr (fxt w)).
Proof. intros H. unfold init, bind, the_fxt. now rewrite H. Qed.

(** C9. While the session is initialized, a further [FXT.init] changes
    nothing: it returns the instance and leaves the whole world (state of
    the script, listeners, timers) as it was. *)
Theorem init_again_is_noop (w : World) (opts : Opts) :
  _isInitialized (fxt w) = true ->
  outcome (init opts) w = inr (fxt w) /\ exec (init opts) w = w.
Proof.
  intros H. unfold outcome, exec. now rewrite init_when_initialized.
Qed.

(** ** Hosts with [fetch]: nothing in the queue path throws *)

Lemma send_caps p : preserves same_caps (send p).
Proof. unfold send. frame. Qed.
#[global] Hint Resolve send_caps : frame.

Lemma flush_caps : preserves same_caps flush.
Proof. unfold flush. frame. Qed.
#[global] Hint Resolve flush_caps : frame.

Lemma enqueue_caps e : preserves same_caps (enqueue e).
Proof. unfold enqueue. frame. Qed.
#[global] Hint Resolve enqueue_caps : frame.

Lemma errorEvent_caps a b : preserves same_caps (errorEvent a b).
Proof. unfold errorEvent. frame. Qed.
#[global] Hint Resolve errorEvent_caps : frame.

Lemma sendFieldMetricsSummary_caps r :
  preserves same_caps (sendFieldMetricsSummary r).
Proof. unfold sendFieldMetricsSummary. frame. Qed.
#[global] Hint Resolve sendFieldMetricsSummary_caps : frame.

Lemma wrapFetchLayer_caps p : preserves same_caps (wrapFetchLayer p).
Proof. unfold wrapFetchLayer, wrapFetchCatch. frame. Qed.
#[global] Hint Resolve wrapFetchLayer_caps : frame.

Create HintDb safe.

Lemma safe_ret {A} (a : A) : fetch_safe (ret a).
Proof. intros w _. now exists a. Qed.

Lemma safe_bind {A B} (m : M A) (k : A -> M B) :
  fetch_safe m -> preserves same_caps m -> (forall a, fetch_safe (k a)) ->
  fetch_safe (bind m k).
Proof.
  intros Hm Hp Hk w Hw. destruct (Hm w Hw) as [a Ha].
  unfold returns. rewrite outcome_bind, Ha. apply Hk.
  unfold can_fetch. now rewrite (proj1 (Hp w)).
Qed.

Lemma safe_try {A} (m : M A) h : fetch_safe m -> fetch_safe (try_catch m h).
Proof.
  intros Hm w Hw. destruct (Hm w Hw) as [a Ha]. exists a.
  unfold outcome, try_catch in *. destruct (m w) as [w' [e|a']]; cbn in *;
    [discriminate | assumption].
Qed.

Lemma guarded_returns m w : outcome (guarded m) w = inr tt.
Proof.
  unfold outcome, guarded, try_catch. destruct (m w) as [w' [e|[]]]; reflexivity.
Qed.

Lemma safe_guarded m : fetch_safe (guarded m).
Proof. intros w _. exists tt. apply guarded_returns. Qed.

#[global] Hint Resolve safe_ret safe_guarded : safe.

(** Like [frame], for [fetch_safe]: assignments and reads return. *)
Ltac safe :=
  repeat first
    [ progress intros
    | progress cbv beta zeta
    | solve [eauto with safe]
    | apply safe_bind; [ | solve [frame] | ]
    | apply safe_try
    | match goal with
      | |- fetch_safe (match ?x with _ => _ end) => destruct x
      end
    | match goal with
      | |- fetch_safe _ =>
          let w := fresh "w" in
          intros w ?; eexists; reflexivity
      end ].

Lemma send_safe p : fetch_safe (send p).
Proof.
  intros w Hw. destruct (send_cases p w) as [_ [H|[H|H]]].
  - exists tt. apply H.
  - exists tt. apply H.
  - destruct H as (_ & _ & H & _). unfold can_fetch in Hw. congruence.
Qed.
#[global] Hint Resolve send_safe : safe.

Lemma flush_safe : fetch_safe flush.
Proof. unfold flush. safe. Qed.
#[global] Hint Resolve flush_safe : safe.

Lemma enqueue_safe e : fetch_safe (enqueue e).
Proof. unfold enqueue. safe. Qed.
#[global] Hint Resolve enqueue_safe : safe.

Lemma errorEvent_safe a b : fetch_safe (errorEvent a b).
Proof. unfold errorEvent, makeEvent, perfNow. safe. Qed.
#[global] Hint Resolve errorEvent_safe : safe.

(** ** Requeue on failure *)

Lemma wrapFetchLayer_outcome p w :
  can_fetch w -> outcome (wrapFetchLayer p) w = inr p.
Proof.
  intros Hw. destruct p as [status|]; cbn.
  - unfold outcome, try_catch.
    assert (fetch_safe
              (if negb (res_ok status) then errorEvent "network" "httpError"
               else ret tt)) as Hs by safe.
    destruct (Hs w Hw) as [[] Ha].
    rewrite (run_pair (_ ;; ret (Fulfilled status)) w), outcome_bind, Ha.
    reflexivity.
  - unfold wrapFetchCatch. rewrite outcome_bind, guarded_returns. reflexivity.
Qed.

Lemma wrapFetchLayers_outcome n p w :
  can_fetch w -> outcome (wrapFetchLayers n p) w = inr p.
Proof.
  revert w. induction n as [|n IH]; intros w Hw; [reflexivity|].
  cbn [wrapFetchLayers]. rewrite outcome_bind, wrapFetchLayer_outcome by done.
  apply IH. unfold can_fetch. now rewrite (proj1 (wrapFetchLayer_caps p w)).
Qed.

Lemma flushSettled_events body p w :
  _events (fxt (exec (flushSettled body p) w)) =
  match p with
  | Rejected => p_events body ++ _events (fxt w)
  | Fulfilled _ => _events (fxt w)
  end.
Proof. destruct p; reflexivity. Qed.

(** C2. A request of [flush] settles in a world [w]; [w1] is the world
    when the continuation of [flush] runs (after the [wrapFetch] layers
    recorded the failure, if any). On a rejection (network-level failure)
    the events of the batch are put back at the front of the buffer, in
    their order, ahead of everything that is in the buffer by then; on a
    response, whatever its status, the buffer is left as it is. So the
    batch is requeued if and only if the request was rejected. *)
Theorem requeue_iff_network_failure
    (w : World) (r : Request) (body : Payload) (p : Settled) :
  can_fetch w -> r_body r = Some body ->
  let w1 := exec (wrapFetchLayers (r_wraps r) p) w in
  let w2 := exec (settle r p) w in
  (p = Rejected -> _events (fxt w2) = p_events body ++ _events (fxt w1)) /\
  (forall status, p = Fulfilled status ->
                  _events (fxt w2) = _events (fxt w1)) /\
  (p_events body <> [] ->
   (_events (fxt w2) = p_events body ++ _events (fxt w1) <-> p = Rejected)).
Proof.
  intros Hw Hb w1 w2.
  assert (_events (fxt w2) =
          match p with
          | Rejected => p_events body ++ _events (fxt w1)
          | Fulfilled _ => _events (fxt w1)
          end) as H.
  { subst w1 w2. unfold settle.
    rewrite exec_bind, wrapFetchLayers_outcome, Hb by done.
    apply flushSettled_events. }
  rewrite H. repeat split.
  - now intros ->.
  - now intros status ->.
  - destruct p; [|reflexivity]. intros E.
    apply (f_equal length) in E. rewrite length_app in E.
    destruct (p_events body); [congruence | cbn in E; lia].
  - now intros ->.
Qed.

(** ** Field metrics *)

Lemma enqueue_store e w : store (exec (enqueue e) w) = store w.
Proof.
  pose proof (enqueue_quiet e w) as H.
  apply (f_equal store) in H. exact H.
Qed.

Lemma enqueue_focus e w :
  _currentFocusedField (fxt (exec (enqueue e) w)) =
    _currentFocusedField (fxt w) /\
  _fieldFocusStartTime (fxt (exec (enqueue e) w)) =
    _fieldFocusStartTime (fxt w).
Proof.
  pose proof (enqueue_quiet e w) as H. split.
  - apply (f_equal (fun w => _currentFocusedField (fxt w))) in H. exact H.
  - apply (f_equal (fun w => _fieldFocusStartTime (fxt w))) in H. exact H.
Qed.

Lemma initFieldMetrics_run k w :
  outcome (initFieldMetrics k) w = inr tt /\
  lookupField k (store (exec (initFieldMetrics k) w)) = Some (recordOf k w) /\
  _currentFocusedField (fxt (exec (initFieldMetrics k) w)) =
    _currentFocusedField (fxt w) /\
  _fieldFocusStartTime (fxt (exec (initFieldMetrics k) w)) =
    _fieldFocusStartTime (fxt w) /\
  host (exec (initFieldMetrics k) w) = host w.
Proof.
  unfold initFieldMetrics, outcome, exec, bind, the_fxt, recordOf, store. cbn.
  destruct (lookupField k (_fieldMetrics (fxt w))) eqn:E; cbn.
  - now rewrite E.
  - rewrite lookupField_app, E. cbn. now rewrite bool_decide_eq_true_2.
Qed.

(** Runs a handler down to its call of [enqueue]. *)
Ltac run_handler :=
  unfold exec, bind, the_fxt, mutate, metricsOf, getFieldMetrics, upd, ret,
    makeEvent, perfNow, the_host, logDebug;
  cbn -[enqueue lookupField alterField cssPath valueSummaryForElement].

Ltac past_enqueue :=
  rewrite (run_pair (enqueue _) _);
  destruct (outcome (enqueue _) _) as [?|[]];
  cbn -[enqueue lookupField alterField cssPath valueSummaryForElement store].

Lemma onChange_cleared w el :
  let k := cssPath el in
  (exists v, valueSummaryForElement el = Some v /\ vs_length v = 0%nat) ->
  exists m',
    lookupField k (store (exec (onChange el) w)) = Some m' /\
    lastValueLength m' = 0%nat /\
    clearCount m' =
      if (lastValueLength (recordOf k w) =? 0)%nat
      then clearCount (recordOf k w)
      else S (clearCount (recordOf k w)).
Proof.
  intros k (v & Hv & Hz). unfold onChange. fold k.
  rewrite exec_bind.
  destruct (initFieldMetrics_run k w) as (-> & Hl & _).
  generalize dependent (exec (initFieldMetrics k) w).
  generalize (recordOf k w). intros m w1 Hl. unfold store in *. run_handler.
  rewrite Hv, Hz, !lookupField_alter, !bool_decide_eq_true_2, Hl by done.
  cbn -[enqueue lookupField alterField cssPath valueSummaryForElement].
  rewrite andb_true_r.
  destruct (lastValueLength m) eqn:El;
    cbn -[enqueue lookupField alterField cssPath valueSummaryForElement];
    destruct (el_validity el) as [vd|]; try destruct (valid vd);
    cbn -[enqueue lookupField alterField cssPath valueSummaryForElement];
    past_enqueue;
    change (_fieldMetrics (fxt ?w)) with (store w);
    rewrite enqueue_store; unfold store;
    cbn -[enqueue lookupField alterField cssPath valueSummaryForElement];
    rewrite !lookupField_alter, !bool_decide_eq_true_2, Hl by done;
    cbn; eexists; (split; [reflexivity|]); cbn; auto.
Qed.

(** C8. A value-change notice whose observed value length is zero
    increments [clearCount] by one when the last recorded value length of
    the field was not zero, and leaves it when that length was zero; the
    recorded length is zero afterwards, so a second zero-length notice
    right after does not increment it again. *)
Theorem clear_detection (w : World) (el el' : Element) :
  (exists v, valueSummaryForElement el = Some v /\ vs_length v = 0%nat) ->
  (exists v, valueSummaryForElement el' = Some v /\ vs_length v = 0%nat) ->
  cssPath el' = cssPath el ->
  let k := cssPath el in
  let w1 := exec (onChange el) w in
  let w2 := exec (onChange el') w1 in
  (lastValueLength (recordOf k w) <> 0%nat ->
   clearCount (recordOf k w1) = S (clearCount (recordOf k w))) /\
  (lastValueLength (recordOf k w) = 0%nat ->
   clearCount (recordOf k w1) = clearCount (recordOf k w)) /\
  clearCount (recordOf k w2) = clearCount (recordOf k w1).
Proof.
  intros Hz Hz' Hk k w1 w2.
  destruct (onChange_cleared w el Hz) as (m1 & H1 & L1 & C1).
  destruct (onChange_cleared w1 el' Hz') as (m2 & H2 & L2 & C2).
  rewrite Hk in H2, C2. fold k w1 in H1, H2, C1, C2. fold w2 in H2.
  assert (recordOf k w1 = m1) as E1 by (unfold recordOf; now rewrite H1).
  assert (recordOf k w2 = m2) as E2 by (unfold recordOf; now rewrite H2).
  rewrite E1, E2 in *. rewrite L1 in C2. cbn in C2.
  repeat split; [| |exact C2]; intros H; rewrite C1.
  - now apply Nat.eqb_neq in H as ->.
  - now rewrite H.
Qed.

Lemma enqueue_host_clock e w : now (exec (enqueue e) w) = now w.
Proof.
  pose proof (enqueue_quiet e w) as H.
  apply (f_equal now) in H. exact H.
Qed.

Lemma onFocus_run el w :
  let k := cssPath el in
  let w' := exec (onFocus el) w in
  lookupField k (store w') =
    Some (set_focusCount (S (focusCount (recordOf k w))) (recordOf k w)) /\
  _currentFocusedField (fxt w') = Some k /\
  _fieldFocusStartTime (fxt w') = Some (now w) /\
  hasPerformance (host w') = hasPerformance (host w).
Proof.
  intros k w'. subst w'. unfold onFocus. fold k. rewrite exec_bind.
  destruct (initFieldMetrics_run k w) as (-> & Hl & _ & _ & Hh).
  unfold now. rewrite <- Hh.
  generalize dependent (exec (initFieldMetrics k) w).
  generalize (recordOf k w). intros m w1 Hl _. unfold store in *.
  run_handler. past_enqueue;
    change (_fieldMetrics (fxt ?w)) with (store w);
    rewrite enqueue_store; unfold store;
    match goal with
    | |- context [exec (enqueue ?e) ?w] =>
        destruct (enqueue_focus e w) as [-> ->];
        pose proof (enqueue_quiet e w) as Hq;
        apply (f_equal (fun u => hasPerformance (host u))) in Hq;
        cbn in Hq; rewrite Hq
    end;
    cbn -[lookupField alterField cssPath];
    rewrite !lookupField_alter, !bool_decide_eq_true_2, Hl by done;
    auto.
Qed.

Lemma onBlur_run el w :
  let k := cssPath el in
  let w' := exec (onBlur el) w in
  store w' =
    match focusedSince (fxt w) k with
    | Some t0 =>
        alterField (fun m => set_totalTimeSpent
                               (totalTimeSpent m + (now w - t0)) m)
                   k (store w)
    | None => store w
    end /\
  _currentFocusedField (fxt w') = None /\
  _fieldFocusStartTime (fxt w') = None.
Proof.
  intros k w'. subst w'. unfold onBlur, store, now. fold k. run_handler.
  destruct (focusedSince (fxt w) k) as [t0|];
    [destruct (lookupField k (_fieldMetrics (fxt w))) as [m|] eqn:El|];
    cbn -[enqueue lookupField alterField cssPath valueSummaryForElement];
    past_enqueue;
    change (_fieldMetrics (fxt ?w)) with (store w);
    rewrite enqueue_store; unfold store;
    match goal with
    | |- context [exec (enqueue ?e) ?w] =>
        destruct (enqueue_focus e w) as [-> ->]
    end;
    cbn -[lookupField alterField cssPath]; auto.
  (* no record: the assignment is skipped, and altering changes nothing *)
  all: repeat split; auto.
  all: clear -El; induction (_fieldMetrics (fxt w)) as [|[k' m'] s IH];
    cbn in *; [reflexivity|];
    case_bool_decide; [discriminate | now rewrite <- IH].
Qed.

(** ** Time spent on a field *)

Lemma now_setClock t w : now (setClock t w) = t.
Proof. unfold now, setClock. cbn. now destruct (hasPerformance (host w)). Qed.

Lemma recordOf_lookup k w m : lookupField k (store w) = Some m -> recordOf k w = m.
Proof. unfold recordOf. now intros ->. Qed.

(** One visit whose focus time is not zero adds its duration. *)
Lemma focusBlur_total el p w :
  p.1 <> 0 ->
  totalTimeSpent (recordOf (cssPath el) (focusBlur el p w)) =
  totalTimeSpent (recordOf (cssPath el) w) + (p.2 - p.1).
Proof.
  intros Hp. unfold focusBlur. set (k := cssPath el).
  set (w0 := setClock p.1 w).
  destruct (onFocus_run el w0) as (Hl & Hf & Ht & Hh). fold k in Hl, Hf.
  unfold w0 in Ht at 2. rewrite now_setClock in Ht.
  set (w1 := exec (onFocus el) w0) in *.
  set (w2 := setClock p.2 w1).
  destruct (onBlur_run el w2) as (Hs & _). fold k in Hs.
  assert (focusedSince (fxt w2) k = Some p.1) as Hsince.
  { unfold focusedSince. change (fxt w2) with (fxt w1). rewrite Hf, Ht.
    rewrite bool_decide_eq_true_2 by done.
    now apply Z.eqb_neq in Hp as ->. }
  unfold w2 in Hs at 3. rewrite Hsince, now_setClock in Hs.
  unfold recordOf at 1. rewrite Hs.
  change (store w2) with (store w1).
  rewrite lookupField_alter, bool_decide_eq_true_2, Hl by done. cbn.
  reflexivity.
Qed.

(** For every sequence of focus/blur pairs on one field whose focus times
    are not zero, the total time is the sum of the durations. *)
Lemma focusBlurs_total el ps :
  forall w,
    Forall (fun p => p.1 <> 0) ps ->
    totalTimeSpent (recordOf (cssPath el) (focusBlurs el ps w)) =
    totalTimeSpent (recordOf (cssPath el) w) + elapsed ps.
Proof.
  induction ps as [|p ps IH]; intros w Hps.
  - unfold focusBlurs, elapsed. cbn [foldl foldr]. lia.
  - apply Forall_cons in Hps as [Hp Hps].
    change (focusBlurs el (p :: ps) w)
      with (focusBlurs el ps (focusBlur el p w)).
    rewrite IH, focusBlur_total by assumption.
    change (elapsed (p :: ps)) with ((p.2 - p.1) + elapsed ps). lia.
Qed.

(** Time accrues on blur only for the field tracked as focused. *)
Lemma blur_of_other_field el w :
  _currentFocusedField (fxt w) <> Some (cssPath el) ->
  store (exec (onBlur el) w) = store w.
Proof.
  intros Hf. destruct (onBlur_run el w) as (Hs & _). rewrite Hs.
  unfold focusedSince.
  destruct (_currentFocusedField (fxt w)) as [f|]; [|reflexivity].
  destruct (_fieldFocusStartTime (fxt w)); [|reflexivity].
  rewrite bool_decide_eq_false_2 by congruence. reflexivity.
Qed.

(** One identifier is tracked: a focus replaces whatever was tracked, a
    blur forgets it. *)
Lemma focus_tracks_one el el' w :
  _currentFocusedField (fxt (exec (onFocus el) w)) = Some (cssPath el) /\
  _currentFocusedField (fxt (exec (onBlur el') w)) = None.
Proof.
  split; [apply (onFocus_run el w) | apply (onBlur_run el' w)].
Qed.

(** C4, at the failing input: a focus when [perfNow()] reads 0 and a blur
    500 ms later leave [totalTimeSpent] at 0, not at 500. The recorded
    start time 0 is falsy in the guard of [onBlur]. *)
Theorem focus_at_time_zero_accrues_nothing :
  let w := focusBlurs (inputA []) [(0, 500)]
             (exec (init no_opts) (loaded browser)) in
  elapsed [(0, 500)] = 500 /\
  totalTimeSpent (recordOf "input#a" w) = 0.
Proof. split; reflexivity. Qed.

(** The scenario of the specification with a focus at 0: the blur record
    has the three edits and the one validation failure, and 0 ms spent. *)
Example visit_from_zero_blur_record :
  ev_data <$> last (_events (fxt visitFromZero)) =
  Some (DBlur "input#a"
              {| i_tag := "input"; i_fieldType := Some "text";
                 i_step := None |}
              (Some {| vs_length := 3; vs_kind := other |})
              0 0 3 1 0 0).
Proof. vm_compute. reflexivity. Qed.

(** ** Exceptions out of the public operations *)

Lemma enqueue_returns e w :
  hasFetch (host w) = true \/
  Z.of_nat (length (_events (fxt w))) + 1 < batchSize (_config (fxt w)) ->
  outcome (enqueue e) w = inr tt.
Proof.
  intros [H|H].
  - now destruct (enqueue_safe e w H) as [[] ->].
  - unfold outcome. rewrite enqueue_cases, length_app. cbn [length].
    destruct (_ >=? _) eqn:G; [|reflexivity].
    rewrite Z.geb_leb in G. apply Z.leb_le in G. lia.
Qed.

Lemma stop_returns w : outcome stop w = inr tt.
Proof. apply guarded_returns. Qed.

(** Unfolds [init] down to its call of [enqueue]. *)
Ltac run_init :=
  unfold makeSessionId, locateForm, attachFormListeners, observeMutations,
    wrapConsole, wireWindowErrors, wrapFetch, wrapXHR, addEventListener,
    scheduleFlush, setTimer, logDebug, makeEvent, perfNow;
  unfold bind, the_fxt, the_host, upd, upd_host, ret, throw;
  cbn -[enqueue assign].

Lemma init_returns w opts :
  _isInitialized (fxt w) = true \/
  (querySelector (host w) (formSelector (assign DEFAULTS opts)) <> QInvalid /\
   (hasFetch (host w) = true \/
    Z.of_nat (length (_events (fxt w))) + 1 <
      batchSize (assign DEFAULTS opts))) ->
  returns (init opts) w.
Proof.
  intros [Hi|[Hq Hf]].
  - exists (fxt w). unfold outcome. now rewrite init_when_initialized.
  - unfold returns, outcome, init, bind at 1, the_fxt at 1.
    destruct (_isInitialized (fxt w)); [now eexists|].
    run_init.
    destruct (querySelector (host w) (formSelector (assign DEFAULTS opts)))
      eqn:Q; [congruence| |];
      cbn -[enqueue assign];
      try destruct (hasMutationObserver (host w));
      cbn -[enqueue assign];
      destruct (enableConsoleWrap (assign DEFAULTS opts));
      cbn -[enqueue assign];
      destruct (hasFetch (host w)) eqn:F;
      cbn -[enqueue assign];
      destruct (hasXHR (host w));
      cbn -[enqueue assign];
      match goal with
      | |- context [enqueue ?e ?W] =>
          rewrite (run_pair (enqueue e) W), (enqueue_returns e W)
            by (cbn -[assign];
                destruct Hf as [Hf|Hf]; [left; congruence | right; exact Hf])
      end;
      cbn -[enqueue assign];
      match goal with
      | |- context [_flushTimer ?x] => destruct (_flushTimer x)
      end;
      cbn -[enqueue assign]; eexists; reflexivity.
Qed.

Lemma init_invalid_selector w opts :
  _isInitialized (fxt w) = false ->
  querySelector (host w) (formSelector (assign DEFAULTS opts)) = QInvalid ->
  outcome (init opts) w =
  inl (SyntaxError (formSelector (assign DEFAULTS opts))).
Proof.
  intros Hi Hq. unfold outcome, init, bind at 1, the_fxt at 1. rewrite Hi.
  run_init. now rewrite Hq.
Qed.

(** C5, as stated, fails for [init]: an invalid form selector makes
    [querySelector] throw out of [init], and in a host without [fetch] the
    flush that the first [enqueue] triggers (here [batchSize] is 1) throws
    out of it as well. *)
Lemma init_propagates_exceptions :
  outcome (init (with_selector "[")) (loaded browser) = inl (SyntaxError "[")
  /\ outcome (init (with_batchSize 1)) (loaded oldBrowser)
     = inl (ReferenceError "fetch").
Proof. split; reflexivity. Qed.

(** C5, amended. [stop] never propagates an exception, in any state.
    [init] returns normally when the session is already initialized, and
    otherwise when the host accepts the configured form selector (whether
    or not it matches an element) and [fetch] is present or the first
    [enqueue] does not reach [batchSize]; the absence of the mutation
    observer, of XMLHttpRequest, of sendBeacon or of the performance clock
    does not matter. When the host rejects the selector, the SyntaxError
    of [querySelector] propagates out of [init]. *)
Theorem stop_never_throws_init_with_valid_selector
    (w : World) (opts : Opts) :
  let sel := formSelector (assign DEFAULTS opts) in
  outcome stop w = inr tt /\
  (_isInitialized (fxt w) = true \/
   (querySelector (host w) sel <> QInvalid /\
    (hasFetch (host w) = true \/
     Z.of_nat (length (_events (fxt w))) + 1 <
       batchSize (assign DEFAULTS opts))) ->
   exists x, outcome (init opts) w = inr x) /\
  (_isInitialized (fxt w) = false ->
   querySelector (host w) sel = QInvalid ->
   outcome (init opts) w = inl (SyntaxError sel)).
Proof.
  split; [apply stop_returns|].
  split; [apply init_returns | apply init_invalid_selector].
Qed.

(** ** Timers at stop *)

Lemma outstanding_view k w : outstanding k w = kindIn k (tview w).
Proof. reflexivity. Qed.

Lemma stop_timers w :
  tview (exec stop w) = cleared (_flushTimer (fxt w)) (tview w).
Proof.
  assert (preserves same_timers
            (guarded (sendFieldMetricsSummary "stop" ;;
                      evt <- makeEvent "session-end" (DSessionEnd "stop") ;;
                      enqueue evt ;; flush))) as H by frame.
  unfold stop.
  destruct (_mo (fxt w)) as [mo|] eqn:Emo,
           (_flushTimer (fxt w)) as [i|] eqn:Ei.
  all: match goal with
       | |- tview (exec _ ?w0) = ?v =>
           set (w1 := exec (x <- the_fxt ;;
                            match _mo x with
                            | Some mo => disconnect mo
                            | None => ret tt
                            end ;;
                            upd (set_isInitialized false) ;;
                            clearTimeout (_flushTimer x)) w0);
           assert (tview w1 = v) as <-
               by (subst w1; unfold exec, bind, the_fxt; cbn;
                   rewrite Emo, Ei; reflexivity);
           transitivity
             (tview (exec (guarded
                             (sendFieldMetricsSummary "stop" ;;
                              evt <- makeEvent "session-end"
                                       (DSessionEnd "stop") ;;
                              enqueue evt ;; flush)) w1));
           [|apply H]
       end.
  all: f_equal; subst w1;
    unfold exec, guarded, try_catch, bind at 1 2 3 4 5 6 7 8, the_fxt;
    cbn -[sendFieldMetricsSummary enqueue flush makeEvent];
    rewrite ?Emo, ?Ei;
    cbn -[sendFieldMetricsSummary enqueue flush makeEvent]; reflexivity.
Qed.

Lemma filter_none {A} (P : A -> Prop) `{!forall x, Decision (P x)} (l : list A) :
  (forall x, x ∈ l -> ~ P x) -> filter P l = [].
Proof.
  induction l as [|x l IH]; intros Hall; [reflexivity|].
  rewrite filter_cons. destruct (decide (P x)) as [Hx|_].
  - exfalso. apply (Hall x); [apply list_elem_of_here | exact Hx].
  - apply IH. intros y Hy. apply Hall. now apply list_elem_of_further.
Qed.

Lemma filter_filter_keep {A} (P Q : A -> Prop)
    `{!forall x, Decision (P x)} `{!forall x, Decision (Q x)} (l : list A) :
  (forall x, x ∈ l -> P x -> Q x) -> filter P (filter Q l) = filter P l.
Proof.
  induction l as [|x l IH]; intros Hall; [reflexivity|].
  assert (filter P (filter Q l) = filter P l) as IH'
      by (apply IH; intros y Hy; apply Hall; now apply list_elem_of_further).
  rewrite (filter_cons Q), (filter_cons P).
  destruct (decide (Q x)) as [Hq|Hq], (decide (P x)) as [Hp|Hp].
  - rewrite filter_cons, decide_True by assumption. now rewrite IH'.
  - rewrite filter_cons, decide_False by assumption. exact IH'.
  - exfalso. apply Hq, Hall; [apply list_elem_of_here | exact Hp].
  - exact IH'.
Qed.

Lemma cleared_no_flush v :
  timers_ok v -> kindIn FlushTimeout (cleared (tv_flush v) v) = [].
Proof.
  intros Hv. unfold kindIn.
  rewrite filter_none; [reflexivity|]. intros [j k] Hin Hk. cbn in Hk. subst k.
  destruct (tv_flush v) as [i|] eqn:E; cbn in Hin.
  - apply list_elem_of_filter in Hin as [Hne Hin]. cbn in Hne.
    apply (t_flush _ Hv) in Hin. congruence.
  - apply (t_flush _ Hv) in Hin. congruence.
Qed.

Lemma cleared_keeps_mutation v :
  timers_ok v ->
  kindIn MutationTimeout (cleared (tv_flush v) v) = kindIn MutationTimeout v.
Proof.
  intros Hv. unfold kindIn.
  destruct (tv_flush v) as [i|] eqn:E; cbn; [|reflexivity].
  rewrite filter_filter_keep; [reflexivity|].
  intros [j k] Hin Hk Hj. cbn in *. subst.
  now pose proof (t_flush_kind _ Hv _ _ E Hin).
Qed.

(** C6, as stated, fails: [stop] does not cancel the coalescing timer. A
    session is started, one attribute change is observed (which arms the
    timer with handle 3), and the session is stopped: the timer is still
    outstanding. *)
Lemma stop_leaves_mutation_timer :
  outstanding MutationTimeout
    (run [CallInit no_opts;
          Mutations 0%nat [attributes "input#a" (Some "class")];
          CallStop] (loaded browser)) = [3%positive].
Proof. reflexivity. Qed.

(** C6, amended. In every reachable state, [stop] returns with no periodic
    flush timer outstanding; the outstanding coalescing timer, if there is
    one, is left as it is. *)
Theorem stop_cancels_flush_timer (w : World) :
  reachable w ->
  outcome stop w = inr tt /\
  outstanding FlushTimeout (exec stop w) = [] /\
  outstanding MutationTimeout (exec stop w) = outstanding MutationTimeout w.
Proof.
  intros [Hv _]%reachable_inv. rewrite !outstanding_view, stop_timers.
  split; [apply stop_returns|]. split.
  - apply (cleared_no_flush _ Hv).
  - apply (cleared_keeps_mutation _ Hv).
Qed.

(** ** The coalescing timer *)

Lemma length_le_1 {A} (l : list A) :
  NoDup l -> (forall x y, x ∈ l -> y ∈ l -> x = y) -> (length l <= 1)%nat.
Proof.
  intros Hnd Hall. destruct l as [|x [|y l]]; cbn; [lia..|].
  exfalso. apply NoDup_cons in Hnd as [Hx _]. apply Hx.
  rewrite (Hall x y); [apply list_elem_of_here | apply list_elem_of_here|].
  apply list_elem_of_further, list_elem_of_here.
Qed.

Lemma kindIn_elem k v i : i ∈ kindIn k v <-> (i, k) ∈ tv_timers v.
Proof.
  unfold kindIn. rewrite list_elem_of_fmap. split.
  - intros [[j k'] [-> [Hk Hin]%list_elem_of_filter]]. cbn in *. now subst.
  - intros Hin. exists (i, k). split; [reflexivity|].
    now apply list_elem_of_filter.
Qed.

Lemma kindIn_nodup k v : timers_ok v -> NoDup (kindIn k v).
Proof.
  intros Hv. unfold kindIn. apply NoDup_fmap_fst.
  - intros j k1 k2 [_ H1]%list_elem_of_filter [_ H2]%list_elem_of_filter.
    pose proof (t_nodup _ Hv) as Hnd.
    apply (kindOf_elem _ _ _ Hnd) in H1, H2. congruence.
  - apply NoDup_filter. eapply NoDup_fmap_1. apply (t_nodup _ Hv).
Qed.

Lemma at_most_one_mutation_timer v :
  timers_ok v -> (length (kindIn MutationTimeout v) <= 1)%nat.
Proof.
  intros Hv. apply length_le_1; [now apply kindIn_nodup|].
  intros x y Hx%kindIn_elem Hy%kindIn_elem.
  apply (t_mutation _ Hv) in Hx, Hy. congruence.
Qed.

Lemma kindIn_arm k v : kindIn k (arm k v) = kindIn k v ++ [tv_next v].
Proof.
  unfold kindIn, arm. cbn. rewrite filter_app, fmap_app.
  rewrite filter_cons, decide_True by reflexivity. reflexivity.
Qed.

Lemma recordMutation_returns m w : outcome (recordMutation m) w = inr tt.
Proof.
  assert (forall (f : Node -> Change) ns w,
             outcome (for_each ns (fun n =>
                        if (nodeType n =? 1)%N then pushMutation (f n)
                        else ret tt)) w = inr tt) as Hloop.
  { intros f ns. induction ns as [|n ns IH]; intros w'; [reflexivity|].
    cbn [for_each]. rewrite outcome_bind.
    destruct (nodeType n =? 1)%N; cbn; apply IH. }
  destruct m as [a r| |]; cbn; [|reflexivity..].
  rewrite outcome_bind, (Hloop (fun n => added (n_path n) (n_tagName n))).
  apply (Hloop (fun n => removed (n_path n) (n_tagName n))).
Qed.

Lemma recordMutations_returns ms w :
  outcome (for_each ms recordMutation) w = inr tt.
Proof.
  revert w. induction ms as [|m ms IH]; intros w; [reflexivity|].
  cbn [for_each]. now rewrite outcome_bind, recordMutation_returns.
Qed.

(** The observer callback arms the timer exactly when no handle is held. *)
Lemma onMutations_timers ms w :
  tview (exec (onMutations ms) w) =
  match _mutationTimer (fxt w) with
  | Some _ => tview w
  | None => arm MutationTimeout (tview w)
  end.
Proof.
  assert (preserves same_timers (for_each ms recordMutation)) as Hf by frame.
  destruct (Hf w) as [Ht _].
  unfold onMutations, exec, guarded, try_catch.
  rewrite (run_pair (_ ;; _) w), outcome_bind, exec_bind,
    recordMutations_returns.
  set (w1 := exec (for_each ms recordMutation) w) in *.
  assert (_mutationTimer (fxt w1) = _mutationTimer (fxt w)) as Hm
      by (apply (f_equal tv_mutation) in Ht; exact Ht).
  rewrite <- Hm, <- Ht.
  unfold outcome, exec, bind, the_fxt. cbn.
  destruct (_mutationTimer (fxt w1)); reflexivity.
Qed.

Lemma fire_mutation_run i w :
  timerKind i w = Some MutationTimeout ->
  react (Fire i) w =
  exec (enqueue (domMutation w) ;; upd (set_mutationTimer None)) (drained i w).
Proof. intros H. cbn [react]. rewrite H. reflexivity. Qed.

Lemma enqueue_buffer e w :
  _mutationBuffer (fxt (exec (enqueue e) w)) = _mutationBuffer (fxt w).
Proof.
  pose proof (enqueue_quiet e w) as H.
  apply (f_equal (fun u => _mutationBuffer (fxt u))) in H. exact H.
Qed.

Lemma fired_view i w :
  outcome (enqueue (domMutation w)) (drained i w) = inr tt ->
  tview (exec (enqueue (domMutation w) ;; upd (set_mutationTimer None))
              (drained i w)) =
  {| tv_timers := tv_timers (cancel i (tview w)); tv_next := tv_next (tview w);
     tv_flush := tv_flush (tview w); tv_mutation := None |}.
Proof.
  intros Hret. rewrite exec_bind, Hret.
  destruct (enqueue_timers (domMutation w) (drained i w)) as [Ht _].
  unfold tview in *. cbn in *. now injection Ht as -> -> -> _.
Qed.

(** C7, as stated, fails in two places. First, the timer is armed by a
    callback that buffers nothing: a session is started and one text node
    is added; the buffer stays empty and the timer (handle 3) is armed.
    Second, the handle is not cleared when the enqueue in the timer
    callback throws: in a host without [fetch] and with [batchSize] 2, the
    record emitted at the first firing fills the batch, the flush throws,
    the stale handle 3 stays, and the next notice arms no timer. *)
Lemma coalescer_counterexample :
  (let w := run [CallInit no_opts;
                 Mutations 0%nat [childList [textNode] []]]
                (loaded browser) in
   _mutationBuffer (fxt w) = [] /\
   outstanding MutationTimeout w = [3%positive]) /\
  (let w := run [CallInit (with_batchSize 2);
                 Mutations 0%nat [attributes "input#a" (Some "class")];
                 Fire 3%positive;
                 Mutations 0%nat [attributes "input#a" (Some "class")]]
                (loaded oldBrowser) in
   _mutationTimer (fxt w) = Some 3%positive /\
   _mutationBuffer (fxt w) = [attr "input#a" (Some "class")] /\
   outstanding MutationTimeout w = []).
Proof. split; split; [|split..]; reflexivity. Qed.

(** C7, amended. In every reachable state at most one coalescing timer is
    outstanding. The observer callback arms the timer exactly when no
    timer handle is held (so only the first callback after the handle was
    last cleared arms it, whether or not that callback buffered a notice).
    When the timer fires, the first [maxMutationRecordsPerBatch] notices
    (8 by default; all of them if there are fewer) leave the buffer, in
    their order, as the changes of one dom-mutation record, which is
    enqueued; and when that enqueue returns normally (a host with [fetch], or a queue that
    stays below [batchSize]), the handle is cleared, no coalescing timer
    is outstanding, and the next callback arms a new one. *)
Theorem coalescer_contract
    (w : World) (ms ms' : list MutationRecord) (i : TimerId) :
  reachable w ->
  let size := maxMutationRecordsPerBatch (_config (fxt w)) in
  let n := Z.to_nat size in
  let buf := _mutationBuffer (fxt w) in
  maxMutationRecordsPerBatch DEFAULTS = 8 /\
  (length (outstanding MutationTimeout w) <= 1)%nat /\
  tview (exec (onMutations ms) w) =
    match _mutationTimer (fxt w) with
    | Some _ => tview w
    | None => arm MutationTimeout (tview w)
    end /\
  (timerKind i w = Some MutationTimeout ->
   let w' := react (Fire i) w in
   w' = exec (enqueue (domMutation w) ;; upd (set_mutationTimer None))
             (drained i w) /\
   ev_data (domMutation w) = DDomMutation (take n buf) /\
   _mutationBuffer (fxt w') = drop n buf /\
   buf = take n buf ++ drop n buf /\
   length (take n buf) = Nat.min n (length buf) /\
   (0 <= size -> Z.of_nat (length (take n buf)) <= size) /\
   (hasFetch (host w) = true \/
    Z.of_nat (length (_events (fxt w))) + 1 < batchSize (_config (fxt w)) ->
    _mutationTimer (fxt w') = None /\
    outstanding MutationTimeout w' = [] /\
    outstanding MutationTimeout (exec (onMutations ms') w')
      = [nextTimer (host w')])).
Proof.
  intros Hr. pose proof (reachable_inv w Hr) as [Hv _]. cbv zeta.
  split; [reflexivity|].
  split; [apply (at_most_one_mutation_timer _ Hv)|].
  split; [apply onMutations_timers|].
  intros Hi. rewrite (fire_mutation_run i w Hi).
  split; [reflexivity|]. split; [reflexivity|]. split.
  { rewrite exec_bind.
    destruct (outcome (enqueue (domMutation w)) (drained i w));
      [|change (exec (upd (set_mutationTimer None)) ?u)
          with {| fxt := set_mutationTimer None (fxt u); host := host u |};
        cbn [fxt _mutationBuffer set_mutationTimer]];
      now rewrite enqueue_buffer. }
  split; [symmetry; apply take_drop|].
  split; [apply length_take|].
  split; [intros Hs; rewrite length_take; lia|].
  intros Hret.
  assert (outcome (enqueue (domMutation w)) (drained i w) = inr tt) as Ho
      by (apply enqueue_returns; exact Hret).
  pose proof (fired_view i w Ho) as Hview.
  pose proof (timers_ok_fired MutationTimeout i _ Hv (kindOf_Some _ _ _ Hi))
    as Hok. cbn [tv_timers] in Hok.
  set (w' := exec (enqueue (domMutation w) ;; upd (set_mutationTimer None))
                  (drained i w)) in *.
  assert (_mutationTimer (fxt w') = None) as Hnone
      by (apply (f_equal tv_mutation) in Hview; exact Hview).
  assert (outstanding MutationTimeout w' = []) as Hout.
  { rewrite outstanding_view, Hview. unfold kindIn.
    rewrite filter_none; [reflexivity|].
    intros [j k] Hin Hk. cbn in Hk. subst k.
    now pose proof (t_mutation _ Hok _ Hin). }
  split; [exact Hnone|]. split; [exact Hout|].
  rewrite outstanding_view, onMutations_timers, Hnone, kindIn_arm.
  rewrite <- outstanding_view, Hout. reflexivity.
Qed.

(** ** Start after stop *)

Lemma sendFieldMetricsSummary_quiet r :
  preserves same_quiet (sendFieldMetricsSummary r).
Proof. unfold sendFieldMetricsSummary. frame. Qed.
#[global] Hint Resolve sendFieldMetricsSummary_quiet : frame.

Lemma stop_clears_flag w : _isInitialized (fxt (exec stop w)) = false.
Proof.
  assert (preserves same_quiet
            (guarded (sendFieldMetricsSummary "stop" ;;
                      evt <- makeEvent "session-end" (DSessionEnd "stop") ;;
                      enqueue evt ;; flush))) as H by frame.
  set (w1 := exec (x <- the_fxt ;;
                   match _mo x with
                   | Some mo => disconnect mo
                   | None => ret tt
                   end ;;
                   upd (set_isInitialized false) ;;
                   clearTimeout (_flushTimer x)) w).
  assert (_isInitialized (fxt w1) = false) as H1.
  { subst w1. unfold exec, bind, the_fxt. cbn.
    destruct (_mo (fxt w)), (_flushTimer (fxt w)); reflexivity. }
  specialize (H w1). apply (f_equal (fun u => _isInitialized (fxt u))) in H.
  cbn in H. rewrite H1 in H. rewrite <- H. f_equal. f_equal. subst w1.
  unfold stop, exec, guarded, try_catch, bind at 1 2 3 4 5 6 7 8, the_fxt.
  cbn -[sendFieldMetricsSummary enqueue flush makeEvent].
  destruct (_mo (fxt w)), (_flushTimer (fxt w));
    cbn -[sendFieldMetricsSummary enqueue flush makeEvent]; reflexivity.
Qed.

Lemma stop_keeps_flush_handle w :
  _flushTimer (fxt (exec stop w)) = _flushTimer (fxt w).
Proof.
  pose proof (f_equal tv_flush (stop_timers w)) as H.
  cbn [tview tv_flush] in H. rewrite H.
  now destruct (_flushTimer (fxt w)) eqn:E.
Qed.

#[global] Instance same_session_preorder : PreOrder same_session.
Proof.
  split.
  - intros w. repeat split.
  - intros a b c (H1 & H2 & H3) (K1 & K2 & K3). repeat split; congruence.
Qed.

Lemma session_of_quiet {A} (m : M A) :
  preserves same_quiet m -> preserves same_session m.
Proof.
  intros H w. specialize (H w). repeat split.
  - apply (f_equal (fun u => _isInitialized (fxt u))) in H. exact H.
  - apply (f_equal (fun u => _sessionId (fxt u))) in H. exact H.
  - apply (f_equal (fun u => entropy (host u))) in H. exact H.
Qed.
#[global] Hint Resolve session_of_quiet | 20 : frame.

Lemma exec_bind_upd {A} (f : FXT -> FXT) (k : unit -> M A) w :
  exec (bind (upd f) k) w = exec (k tt) (exec (upd f) w).
Proof. reflexivity. Qed.

(** A start in a state that is not initialized draws a new session
    identifier and sets the flag, whatever happens afterwards. *)
Lemma init_fresh_session w opts :
  _isInitialized (fxt w) = false ->
  let w' := exec (init opts) w in
  _isInitialized (fxt w') = true /\
  _sessionId (fxt w') = Some (entropy (host w)) /\
  entropy (host w') = S (entropy (host w)).
Proof.
  intros Hi. cbv zeta. unfold init.
  change (exec (bind the_fxt ?k) w) with (exec (k (fxt w)) w).
  cbv beta. rewrite Hi, exec_bind_upd.
  set (w1 := exec (upd (set_config (assign DEFAULTS opts))) w).
  rewrite exec_bind.
  change (outcome makeSessionId w1) with (@inr Exn _ (entropy (host w))).
  cbv beta iota. rewrite !exec_bind_upd.
  match goal with
  | |- context [exec ?m ?u] =>
      assert (preserves same_session m) as H;
      [|destruct (H u) as (-> & -> & ->); repeat split]
  end.
  unfold locateForm, attachFormListeners, observeMutations, wrapConsole,
    wireWindowErrors, wrapFetch, wrapXHR, addEventListener, scheduleFlush,
    setTimer.
  frame.
Qed.

#[global] Instance stale_preorder i : PreOrder (stale i).
Proof.
  split.
  - intros w H. split; [exact H | reflexivity].
  - intros a b c H1 H2 H. destruct (H1 H) as [Hb E1].
    destruct (H2 Hb) as [Hc E2]. split; [exact Hc | congruence].
Qed.

Lemma stale_of_same_timers {A} i (m : M A) :
  preserves same_timers m -> preserves (stale i) m.
Proof.
  intros H w Hi. destruct (H w) as [Ht _]. split.
  - apply (f_equal tv_flush) in Ht. cbn in Ht. congruence.
  - now rewrite !outstanding_view, Ht.
Qed.
#[global] Hint Resolve stale_of_same_timers | 20 : frame.

Lemma scheduleFlush_stale i : preserves (stale i) scheduleFlush.
Proof.
  unfold scheduleFlush. apply preserves_with_fxt. intros w Hi.
  rewrite Hi. split; [exact Hi | reflexivity].
Qed.

Lemma setTimer_heartbeat_stale i :
  preserves (stale i) (setTimer HeartbeatInterval).
Proof.
  intros w Hi. split; [exact Hi|]. unfold outstanding. cbn.
  rewrite filter_app, filter_cons, decide_False by discriminate.
  rewrite filter_nil. now rewrite app_nil_r.
Qed.
#[global] Hint Resolve scheduleFlush_stale setTimer_heartbeat_stale : frame.

(** With a handle left in [FXT._flushTimer], [init] arms no flush timer. *)
Lemma init_stale i opts : preserves (stale i) (init opts).
Proof.
  unfold init, makeSessionId, locateForm, attachFormListeners,
    observeMutations, wrapConsole, wireWindowErrors, wrapFetch, wrapXHR,
    addEventListener.
  frame.
Qed.

(** In every reachable state in which a flush timer was ever armed, a stop
    followed by a start leaves the session without periodic flush. *)
Lemma no_flush_timer_after_restart w opts :
  reachable w -> _flushTimer (fxt w) <> None ->
  outstanding FlushTimeout (exec (init opts) (exec stop w)) = [].
Proof.
  intros [Hv _]%reachable_inv Hh.
  destruct (_flushTimer (fxt w)) as [i|] eqn:E; [clear Hh|congruence].
  pose proof (stop_keeps_flush_handle w) as Hs. rewrite E in Hs.
  destruct (init_stale i opts (exec stop w) Hs) as [_ ->].
  rewrite outstanding_view, stop_timers. apply (cleared_no_flush _ Hv).
Qed.

(** C10, at the failing input [init(); stop(); init()]: [stop] clears the
    flag and the second [init] is not a no-op (a new session identifier,
    the form listeners registered a second time, a second heartbeat
    interval), but it arms no flush timer: the handle 1 that [stop]
    cancelled is still in [FXT._flushTimer], and [scheduleFlush] returns
    at once on it. *)
Theorem restart_arms_no_flush_timer :
  let w1 := run [CallInit no_opts] (loaded browser) in
  let w2 := run [CallStop] w1 in
  let w3 := run [CallInit no_opts] w2 in
  (_isInitialized (fxt w2) = false /\ _isInitialized (fxt w3) = true) /\
  (_sessionId (fxt w1) = Some 0%nat /\ _sessionId (fxt w3) = Some 1%nat) /\
  (registered (OnFocus 0%nat) w1 = 1%nat /\
   registered (OnFocus 0%nat) w3 = 2%nat) /\
  (outstanding HeartbeatInterval w1 = [2%positive] /\
   outstanding HeartbeatInterval w3 = [2%positive; 3%positive]) /\
  (outstanding FlushTimeout w1 = [1%positive] /\
   outstanding FlushTimeout w3 = [] /\
   _flushTimer (fxt w3) = Some 1%positive).
Proof. repeat split; reflexivity. Qed.

(** ** The theorems at concrete inputs *)

Lemma pristine_browser : pristine browser.
Proof. repeat split. Qed.

Lemma reachable_observing : reachable observing.
Proof.
  unfold observing, run. cbn [foldl].
  do 2 apply reach_react. apply reach_loaded, pristine_browser.
Qed.

Lemma event_queue_contract_witness :
  let w := smallBatches in
  let q := _events (fxt w) in
  (Z.of_nat (length q) + 1 = batchSize (_config (fxt w)) /\ q <> []) /\
  enqueue (ev 1) w = send (batchOf w (q ++ [ev 1])) (with_events [] w) /\
  flush w = send (batchOf w (take 2 q)) (with_events (drop 2 q) w).
Proof.
  cbv zeta.
  assert (Z.of_nat (length (_events (fxt smallBatches))) + 1 =
          batchSize (_config (fxt smallBatches))) as H1 by reflexivity.
  assert (_events (fxt smallBatches) <> []) as H2
      by (vm_compute; discriminate).
  destruct (event_queue_contract smallBatches (ev 1) [])
    as (_ & _ & _ & Hb & _ & _ & He).
  split; [split; assumption|]. split.
  - exact (Hb H1).
  - exact (proj1 (He H2)).
Defined.

Lemma requeue_iff_network_failure_witness :
  let body := batchOf started [ev 1; ev 2] in
  let r := {| r_url := "/api/fxt/events"; r_body := Some body;
              r_wraps := 1 |} in
  (can_fetch started /\ r_body r = Some body) /\
  _events (fxt (exec (settle r Rejected) started)) =
  [ev 1; ev 2] ++ _events (fxt (exec (wrapFetchLayers 1 Rejected) started)).
Proof.
  cbv zeta.
  assert (can_fetch started) as H1 by reflexivity.
  split; [split; [exact H1 | reflexivity]|].
  exact (proj1 (requeue_iff_network_failure started
                  {| r_url := "/api/fxt/events";
                     r_body := Some (batchOf started [ev 1; ev 2]);
                     r_wraps := 1 |}
                  (batchOf started [ev 1; ev 2]) Rejected H1 eq_refl)
               eq_refl).
Defined.

Lemma pain_points_iff_thresholds_witness :
  NoDup (keys sixEdits) /\
  exists t pps sums,
    sendFieldMetricsSummary "periodic" sixEdits =
    enqueue {| ev_type := "field-analytics"; ev_t := t;
               ev_data := DFieldAnalytics "periodic"
                            (_currentFocusedField (fxt sixEdits))
                            (length sums) pps (length pps) sums |} sixEdits /\
    ((exists p, p ∈ pps /\ pp_field p = "input#a") <->
     exceeded (recordOf "input#a" sixEdits)).
Proof.
  assert (NoDup (keys sixEdits)) as Hnd
      by (vm_compute; apply NoDup_singleton).
  assert (("input#a", recordOf "input#a" sixEdits)
            ∈ _fieldMetrics (fxt sixEdits)) as Hin
      by (vm_compute; apply list_elem_of_here).
  split; [exact Hnd|].
  destruct (pain_points_iff_thresholds sixEdits "periodic" Hnd)
    as (t & pps & sums & Heq & Hall).
  exists t, pps, sums. split; [exact Heq|].
  exact (proj1 (Hall "input#a" (recordOf "input#a" sixEdits) Hin)).
Defined.

Lemma stop_never_throws_init_with_valid_selector_witness :
  (querySelector browser "#nothing" <> QInvalid /\ hasFetch browser = true) /\
  outcome stop (loaded browser) = inr tt /\
  exists x, outcome (init (with_selector "#nothing")) (loaded browser) = inr x.
Proof.
  assert (querySelector browser "#nothing" <> QInvalid) as Hq
      by (vm_compute; discriminate).
  split; [split; [exact Hq | reflexivity]|].
  destruct (stop_never_throws_init_with_valid_selector
              (loaded browser) (with_selector "#nothing")) as (Hs & Hi & _).
  split; [exact Hs|]. apply Hi. right. split; [exact Hq|]. left. reflexivity.
Defined.

Lemma stop_cancels_flush_timer_witness :
  reachable observing /\
  outcome stop observing = inr tt /\
  outstanding FlushTimeout (exec stop observing) = [] /\
  outstanding MutationTimeout (exec stop observing) =
    outstanding MutationTimeout observing.
Proof.
  split; [exact reachable_observing|].
  exact (stop_cancels_flush_timer observing reachable_observing).
Defined.

Lemma coalescer_contract_witness :
  (reachable observing /\
   timerKind 3%positive observing = Some MutationTimeout /\
   hasFetch (host observing) = true) /\
  (length (outstanding MutationTimeout observing) <= 1)%nat /\
  _mutationTimer (fxt (react (Fire 3%positive) observing)) = None /\
  outstanding MutationTimeout
    (exec (onMutations [childList [textNode] []])
          (react (Fire 3%positive) observing))
  = [nextTimer (host (react (Fire 3%positive) observing))].
Proof.
  assert (timerKind 3%positive observing = Some MutationTimeout) as Hk
      by reflexivity.
  assert (hasFetch (host observing) = true) as Hf by reflexivity.
  split; [split; [exact reachable_observing | split; assumption]|].
  destruct (coalescer_contract observing [] [childList [textNode] []]
              3%positive reachable_observing) as (_ & H1 & _ & H3).
  split; [exact H1|].
  destruct (H3 Hk) as (_ & _ & _ & _ & _ & _ & H4).
  destruct (H4 (or_introl Hf)) as (Hn & _ & Hr).
  split; [exact Hn | exact Hr].
Defined.

Lemma clear_detection_witness :
  let el := inputA [] in
  (valueSummaryForElement el = Some {| vs_length := 0; vs_kind := empty |} /\
   lastValueLength (recordOf "input#a" typed) <> 0%nat) /\
  clearCount (recordOf "input#a" (exec (onChange el) typed)) =
    S (clearCount (recordOf "input#a" typed)) /\
  clearCount (recordOf "input#a"
                (exec (onChange el) (exec (onChange el) typed))) =
    clearCount (recordOf "input#a" (exec (onChange el) typed)).
Proof.
  cbv zeta.
  assert (exists v, valueSummaryForElement (inputA []) = Some v /\
                    vs_length v = 0%nat) as Hz
      by (eexists; split; reflexivity).
  assert (lastValueLength (recordOf "input#a" typed) <> 0%nat) as Hl
      by (vm_compute; discriminate).
  split; [split; [reflexivity | exact Hl]|].
  destruct (clear_detection typed (inputA []) (inputA []) Hz Hz eq_refl)
    as (Hinc & _ & Hsame).
  split; [exact (Hinc Hl) | exact Hsame].
Defined.

Lemma init_again_is_noop_witness :
  _isInitialized (fxt started) = true /\
  outcome (init (with_batchSize 1)) started = inr (fxt started) /\
  exec (init (with_batchSize 1)) started = started.
Proof.
  split; [reflexivity|].
  exact (init_again_is_noop started (with_batchSize 1) eq_refl).
Defined.

(** * Further properties of the script *)

(** ** The session identifier *)

Section SessionIdentifier.
Import Stdlib.Strings.Ascii.
Import Crypto.

Lemma hexByte_of_byte (b : Byte.byte) :
  hexByte (Byte.to_N b) =
  String (hexDigit (Byte.to_N b / 16))
         (String (hexDigit (Byte.to_N b mod 16)) "").
Proof. destruct b; reflexivity. Qed.

Lemma byte_of_small (n : N) : (n < 256)%N -> exists b, Byte.to_N b = n.
Proof.
  intros H. pose proof (Byte.to_of_N_option_map n) as E.
  destruct (N.leb_spec n 255); [|lia].
  destruct (Byte.of_N n) as [b|]; [|discriminate].
  exists b. now injection E.
Qed.

Lemma hexByte_small (n : N) :
  (n < 256)%N ->
  hexByte n = String (hexDigit (n / 16)) (String (hexDigit (n mod 16)) "").
Proof. intros [b <-]%byte_of_small. apply hexByte_of_byte. Qed.

Lemma hexDigit_small (d : N) :
  (d < 16)%N -> hexValue (hexDigit d) = d /\ isHexChar (hexDigit d) = true.
Proof.
  intros H.
  assert (In d [0; 1; 2; 3; 4; 5; 6; 7; 8; 9; 10; 11; 12; 13; 14; 15]%N) as Hd.
  { cbn. lia. }
  cbn in Hd. repeat (destruct Hd as [<-|Hd]; [split; reflexivity|]).
  destruct Hd.
Qed.

Lemma hex_not_terminator c : isHexChar c = true -> isLineTerminator c = false.
Proof. destruct c as [[] [] [] [] [] [] [] []]; vm_compute; congruence. Qed.

Lemma hex_not_dash c : isHexChar c = true -> Ascii.eqb c "-" = false.
Proof. destruct c as [[] [] [] [] [] [] [] []]; vm_compute; congruence. Qed.

Lemma stamp_version b :
  u8 (N.lor (N.land (Byte.to_N b) 15) 64) = (64 + Byte.to_N b mod 16)%N.
Proof. destruct b; reflexivity. Qed.

Lemma stamp_variant b :
  u8 (N.lor (N.land (Byte.to_N b) 63) 128) = (128 + Byte.to_N b mod 64)%N.
Proof. destruct b; reflexivity. Qed.

Lemma version_digit x : ((64 + x mod 16) / 16 = 4)%N.
Proof.
  pose proof (N.mod_lt x 16). symmetry.
  apply (N.div_unique _ 16 4 (x mod 16)); lia.
Qed.

Lemma variant_digit x :
  hexDigit ((128 + x mod 64) / 16) ∈ ["8"; "9"; "a"; "b"]%char.
Proof.
  pose proof (N.mod_lt x 64).
  assert ((128 + x mod 64) / 16 < 12)%N
    by (apply N.Div0.div_lt_upper_bound; lia).
  assert (8 <= (128 + x mod 64) / 16)%N
    by (apply N.div_le_lower_bound; [discriminate|apply N.le_add_r]).
  generalize dependent ((128 + x mod 64) / 16)%N. intros d Hhi Hlo.
  assert (In d [8; 9; 10; 11]%N) as Hd by (cbn; lia).
  cbn in Hd. repeat (destruct Hd as [<-|Hd]; [cbn; repeat constructor|]).
  destruct Hd.
Qed.

Lemma join_nibbles n : (n / 16 * 16 + n mod 16)%N = n.
Proof. rewrite N.mul_comm. symmetry. apply N.Div0.div_mod. Qed.

Lemma parseHex_pair h l s :
  isHexChar h = true ->
  parseHex (String h (String l s)) =
  (hexValue h * 16 + hexValue l)%N :: parseHex s.
Proof. intros H. cbn [parseHex]. now rewrite (hex_not_dash h H). Qed.

Lemma parseHex_dash s : parseHex (String "-" s) = parseHex s.
Proof. reflexivity. Qed.

(** Sixteen bytes, named; the identifier as the hexadecimal digits of
    their stamped values. *)
Ltac sixteen_bytes random :=
  do 16 (destruct random as [|? random]; [discriminate|]);
  destruct random; [|discriminate];
  match goal with H : length _ = _ |- _ => clear H end;
  unfold makeSessionId, stamped;
  cbn [map lookup list_lookup insert list_insert default from_option id];
  rewrite stamp_version, stamp_variant;
  repeat match goal with
  | b : Byte.byte |- _ =>
      pose proof (Byte.to_N_bounded b); generalize dependent (Byte.to_N b);
      clear b; intros
  end;
  rewrite !hexByte_small
    by first [lia | match goal with |- (_ + ?x mod ?k < _)%N =>
                      pose proof (N.mod_lt x k); lia end];
  cbn [String.concat].

(** Every digit becomes a character known only by its value and by being
    a hexadecimal digit. *)
Ltac hex_chars :=
  repeat match goal with
  | |- context [hexDigit ?d] =>
      let Hv := fresh "Hv" in
      let Hh := fresh "Hh" in
      destruct (hexDigit_small d) as [Hv Hh];
      [first [apply N.mod_lt; discriminate
             |apply N.Div0.div_lt_upper_bound;
              first [lia | match goal with |- context [(?x mod ?k)%N] =>
                             pose proof (N.mod_lt x k); lia end]]|];
      generalize dependent (hexDigit d); intros ? Hv Hh
  end.

Ltac insert_dashes :=
  cbv [String.append];
  unfold dashed; cbn [String.length Nat.eqb anyChar andb];
  rewrite !hex_not_terminator by first [assumption | reflexivity];
  cbn [orb negb andb String.substring String.concat];
  cbv [String.append].

(** X1, [makeSessionId] with [crypto.getRandomValues]: whatever the
    sixteen random bytes are, the identifier has the shape of a version 4
    UUID: 36 characters, a dash at positions 8, 13, 18 and 23, the digit 4
    at position 14, one of 8, 9, a, b at position 19, and a lower-case
    hexadecimal digit everywhere else. *)
Theorem session_id_format (random : list Byte.byte) :
  length random = 16%nat ->
  String.length (makeSessionId random) = 36%nat /\
  (forall i, i ∈ [8; 13; 18; 23]%nat ->
             String.get i (makeSessionId random) = Some "-"%char) /\
  String.get 14 (makeSessionId random) = Some "4"%char /\
  (exists c, String.get 19 (makeSessionId random) = Some c /\
             c ∈ ["8"; "9"; "a"; "b"]%char) /\
  (forall i c, String.get i (makeSessionId random) = Some c ->
               i ∉ [8; 13; 18; 23]%nat -> isHexChar c = true).
Proof.
  intros Hlen. sixteen_bytes random.
  rewrite version_digit. change (hexDigit 4) with "4"%char.
  match goal with |- context [hexDigit ((128 + ?x mod 64) / 16)] =>
    pose proof (variant_digit x) as Hvar;
    generalize dependent (hexDigit ((128 + x mod 64) / 16)); intros v Hvar
  end.
  assert (isHexChar v = true) as Hv.
  { rewrite !elem_of_cons, elem_of_nil in Hvar.
    destruct Hvar as [->|[->|[->|[->|[]]]]]; reflexivity. }
  hex_chars. insert_dashes.
  split; [reflexivity|]. split.
  { intros i Hi. rewrite !elem_of_cons, elem_of_nil in Hi.
    destruct Hi as [->|[->|[->|[->|[]]]]]; reflexivity. }
  split; [reflexivity|]. split; [eexists; split; [reflexivity|assumption]|].
  intros i c Hget Hi.
  do 36 (destruct i as [|i];
         [first [solve [exfalso; apply Hi; repeat constructor]
                |cbn [String.get] in Hget; injection Hget as <-;
                 first [assumption | reflexivity]]|]).
  discriminate.
Qed.

Lemma session_id_format_witness :
  length (replicate 16 Byte.xff) = 16%nat /\
  String.get 14 (makeSessionId (replicate 16 Byte.xff)) = Some "4"%char.
Proof.
  split; [reflexivity|].
  apply (session_id_format (replicate 16 Byte.xff)). reflexivity.
Defined.

(** X2, [makeSessionId]: reading the hexadecimal digits of the identifier
    back gives the sixteen random bytes, apart from the six bits that the
    version and the variant overwrite. Two draws that differ in any other
    bit give different identifiers. *)
Theorem session_id_round_trip (random : list Byte.byte) :
  length random = 16%nat ->
  parseHex (makeSessionId random) = stamped random.
Proof.
  intros Hlen. sixteen_bytes random. hex_chars. insert_dashes.
  repeat first [rewrite parseHex_dash | rewrite parseHex_pair by assumption].
  cbn [parseHex].
  repeat match goal with H : hexValue _ = _ |- _ => rewrite H; clear H end.
  now rewrite !join_nibbles.
Qed.

Lemma session_id_round_trip_witness :
  length (replicate 16 Byte.xff) = 16%nat /\
  parseHex (makeSessionId (replicate 16 Byte.xff)) =
  stamped (replicate 16 Byte.xff).
Proof.
  split; [reflexivity|].
  apply (session_id_round_trip (replicate 16 Byte.xff)). reflexivity.
Defined.

End SessionIdentifier.

(** ** Paths and steps of elements *)

Section Paths.
Import Dom.

Lemma walk_deep l path : walk l 6 path = path.
Proof. destruct l; cbn; now rewrite andb_false_r. Qed.

Lemma walk_prune l : forall d path,
  (d <= 6)%nat -> walk (prune (6 - d) l) d path = walk l d path.
Proof.
  induction l as [a|a before after parent IH]; intros d path Hd.
  - destruct (6 - d)%nat eqn:E; [|reflexivity].
    assert (d = 6%nat) as -> by lia. now rewrite !walk_deep.
  - destruct (6 - d)%nat eqn:E.
    { assert (d = 6%nat) as -> by lia. now rewrite !walk_deep. }
    cbn [prune walk attrs]. unfold stops.
    destruct (nodeType a =? 1)%N; [|reflexivity].
    destruct (d <? 6)%nat eqn:Hlt; [|reflexivity].
    cbn [negb orb andb].
    destruct (negb (String.eqb (id a) "")); [reflexivity|].
    replace n with (6 - S d)%nat by lia. apply IH. lia.
Qed.


(** X3, [cssPath]: the path reads the element and at most five ancestors,
    and nothing above an ancestor that has an id. Two elements that agree
    on that part of the tree get the same path, whatever lies above: the
    path is not an identifier of the element. *)
Theorem cssPath_reads_six_levels (l l' : Loc) :
  prune 6 l = prune 6 l' -> cssPath (Some l) = cssPath (Some l').
Proof.
  intros H. unfold cssPath. f_equal. f_equal.
  rewrite <- (walk_prune l 0 []), <- (walk_prune l' 0 []) by lia.
  cbn [Nat.sub]. now rewrite H.
Qed.

Lemma cssPath_reads_six_levels_witness :
  prune 6 (nested 6 (Root div)) = prune 6 (nested 7 (Root div)) /\
  nested 6 (Root div) <> nested 7 (Root div) /\
  cssPath (Some (nested 6 (Root div))) = cssPath (Some (nested 7 (Root div))).
Proof.
  split; [reflexivity|]. split; [discriminate|].
  apply (cssPath_reads_six_levels (nested 6 (Root div)) (nested 7 (Root div))).
  reflexivity.
Defined.


Lemma climb_spec l : forall d s,
  climb l d = Some s <->
  exists k a, (d + k < 8)%nat /\ chain l !! k = Some a /\
              dataStep a = Some s /\ s <> "" /\
              forall j b, (j < k)%nat -> chain l !! j = Some b ->
                          truthy (dataStep b) = false.
Proof.
  assert (forall a s, truthy (dataStep a) = true -> dataStep a = Some s ->
                      s <> "") as Hne.
  { intros a s Ht Hs. rewrite Hs in Ht. cbn in Ht. intros ->. discriminate. }
  assert (forall a s, dataStep a = Some s -> s <> "" ->
                      truthy (dataStep a) = true) as Hyes.
  { intros a s -> Hs. cbn.
    destruct (String.eqb_spec s ""); [congruence|reflexivity]. }
  induction l as [a|a before after parent IH]; intros d s;
    cbn [climb attrs chain].
  - destruct (d <? 8)%nat eqn:Hd.
    + apply Nat.ltb_lt in Hd. destruct (truthy (dataStep a)) eqn:Ht.
      * split.
        -- intros Hs. exists 0%nat, a. repeat split; eauto; [lia|]. intros; lia.
        -- intros (k & b & Hk & Hb & Hs & Hn & Hall). destruct k as [|k].
           ++ now injection Hb as <-.
           ++ destruct k; discriminate.
      * split; [discriminate|].
        intros (k & b & Hk & Hb & Hs & Hn & Hall). destruct k as [|k].
        -- injection Hb as <-. rewrite (Hyes _ _ Hs Hn) in Ht. discriminate.
        -- destruct k; discriminate.
    + apply Nat.ltb_ge in Hd. split; [discriminate|].
      intros (k & b & Hk & _). lia.
  - destruct (d <? 8)%nat eqn:Hd.
    + apply Nat.ltb_lt in Hd. destruct (truthy (dataStep a)) eqn:Ht.
      * split.
        -- intros Hs. exists 0%nat, a. repeat split; eauto; [lia|]. intros; lia.
        -- intros (k & b & Hk & Hb & Hs & Hn & Hall). destruct k as [|k].
           ++ now injection Hb as <-.
           ++ specialize (Hall 0%nat a ltac:(lia) eq_refl). congruence.
      * rewrite IH. split.
        -- intros (k & b & Hk & Hb & Hs & Hn & Hall).
           exists (S k), b. repeat split; auto; [lia|].
           intros [|j] c Hj Hc; [now injection Hc as <-|].
           apply (Hall j c); [lia|exact Hc].
        -- intros (k & b & Hk & Hb & Hs & Hn & Hall). destruct k as [|k].
           ++ injection Hb as <-. rewrite (Hyes _ _ Hs Hn) in Ht. discriminate.
           ++ exists k, b. repeat split; auto; [lia|].
              intros j c Hj Hc. apply (Hall (S j) c); [lia|exact Hc].
    + apply Nat.ltb_ge in Hd. split; [discriminate|].
      intros (k & b & Hk & _). lia.
Qed.

(** X5, [stepIndexForElement]: the step of an element is the non-empty
    [data-step] of the nearest node that has one, among the element and
    its first seven ancestors; a step set further up is not seen. *)
Theorem step_of_nearest_ancestor (l : Loc) (s : string) :
  stepIndexForElement l = Some s <->
  exists k a, (k < 8)%nat /\ chain l !! k = Some a /\
              dataStep a = Some s /\ s <> "" /\
              forall j b, (j < k)%nat -> chain l !! j = Some b ->
                          truthy (dataStep b) = false.
Proof. apply (climb_spec l 0 s). Qed.

End Paths.

(** ** The value summary *)

Lemma existsb_true {A} (f : A -> bool) l :
  existsb f l = true <-> exists c, c ∈ l /\ f c = true.
Proof.
  rewrite existsb_exists. split; intros (c & Hc & Hf); exists c;
    (split; [now apply list_elem_of_In|exact Hf]).
Qed.

Lemma existsb_false {A} (f : A -> bool) l :
  existsb f l = false <-> forall c, c ∈ l -> f c = false.
Proof.
  split.
  - intros H c Hc. destruct (f c) eqn:E; [|reflexivity].
    rewrite <- H. symmetry. apply existsb_true. eauto.
  - intros H. destruct (existsb f l) eqn:E; [|reflexivity].
    apply existsb_true in E as (c & Hc & Hf). rewrite (H c Hc) in Hf.
    discriminate.
Qed.

Ltac char_class :=
  unfold isDigit, isLetter, isSpace;
  rewrite ?orb_true_iff, ?andb_true_iff, ?N.leb_le, ?N.eqb_eq; lia.

Lemma digit_not_letter c : isDigit c = true -> isLetter c = false.
Proof.
  destruct (isLetter c) eqn:E; [|reflexivity]. revert E. char_class.
Qed.

Lemma space_not_letter c : isSpace c = true -> isLetter c = false.
Proof.
  destruct (isLetter c) eqn:E; [|reflexivity]. revert E. char_class.
Qed.

Lemma space_not_digit c : isSpace c = true -> isDigit c = false.
Proof.
  destruct (isDigit c) eqn:E; [|reflexivity]. revert E. char_class.
Qed.

Lemma numeric_iff value :
  (exists c, c ∈ value /\ isDigit c = true) /\
  (forall c, c ∈ value -> isDigit c = true \/ isSpace c = true) <->
  existsb isDigit value = true /\ existsb isLetter value = false /\
  existsb (fun c => negb (isLetter c || isDigit c || isSpace c)) value = false.
Proof.
  rewrite existsb_true, !existsb_false. split.
  - intros [HD Hall]. split; [exact HD|]. split; intros c Hc.
    + destruct (Hall c Hc);
        auto using digit_not_letter, space_not_letter.
    + destruct (Hall c Hc) as [-> | ->]; now rewrite ?orb_true_r.
  - intros (HD & HL & HS). split; [exact HD|]. intros c Hc.
    specialize (HL c Hc). specialize (HS c Hc). rewrite HL in HS.
    destruct (isDigit c), (isSpace c); auto; discriminate.
Qed.

Lemma alpha_iff value :
  (exists c, c ∈ value /\ isLetter c = true) /\
  (forall c, c ∈ value -> isLetter c = true \/ isSpace c = true) <->
  existsb isDigit value = false /\ existsb isLetter value = true /\
  existsb (fun c => negb (isLetter c || isDigit c || isSpace c)) value = false.
Proof.
  rewrite existsb_true, !existsb_false. split.
  - intros [HL Hall]. split; [|split; [exact HL|]]; intros c Hc.
    + destruct (Hall c Hc) as [H|H]; [|now apply space_not_digit].
      destruct (isDigit c) eqn:E; [|reflexivity].
      apply digit_not_letter in E. congruence.
    + destruct (Hall c Hc) as [-> | ->]; now rewrite ?orb_true_r.
  - intros (HD & HL & HS). split; [exact HL|]. intros c Hc.
    specialize (HD c Hc). specialize (HS c Hc). rewrite HD in HS.
    destruct (isLetter c), (isSpace c); auto; discriminate.
Qed.

(** X6, [valueSummaryForElement]: of the value of a field the summary
    keeps the length and one of five kinds. The kind is [empty] exactly
    for the empty value, [numeric] when there is a digit and nothing but
    digits and white space, [alpha] when there is a letter and nothing but
    letters and white space, [alphanum] as soon as there are a digit and a
    letter, whatever else the value holds, and [other] in the remaining
    cases. *)
Theorem value_summary_classes (el : Element) (v : ValueSummary) :
  valueSummaryForElement el = Some v ->
  vs_length v = length (el_value el) /\
  (vs_kind v = empty <-> el_value el = []) /\
  (vs_kind v = numeric <->
     (exists c, c ∈ el_value el /\ isDigit c = true) /\
     forall c, c ∈ el_value el -> isDigit c = true \/ isSpace c = true) /\
  (vs_kind v = alpha <->
     (exists c, c ∈ el_value el /\ isLetter c = true) /\
     forall c, c ∈ el_value el -> isLetter c = true \/ isSpace c = true) /\
  (vs_kind v = alphanum <->
     (exists c, c ∈ el_value el /\ isDigit c = true) /\
     (exists c, c ∈ el_value el /\ isLetter c = true)).
Proof.
  unfold valueSummaryForElement.
  destruct (isField (el_tag el)); [|discriminate].
  intros [= <-]. cbn [vs_length vs_kind]. split; [reflexivity|].
  rewrite numeric_iff, alpha_iff, <- !existsb_true.
  destruct (el_value el) as [|c0 value'] eqn:Ev.
  { cbn. repeat split; intros; try discriminate; intuition discriminate. }
  rewrite <- Ev. replace (0 <? length (el_value el))%nat with true
    by (now rewrite Ev).
  assert (el_value el <> []) as Hne by (rewrite Ev; discriminate).
  clear Ev. generalize dependent (el_value el). intros value Hne.
  destruct (existsb isDigit value), (existsb isLetter value),
    (existsb (fun c => negb (isLetter c || isDigit c || isSpace c)) value);
    cbn [andb negb]; repeat split; intros; try discriminate; try tauto;
    intuition discriminate.
Qed.

Lemma value_summary_classes_witness :
  valueSummaryForElement (inputA [49; 32; 50]%N) =
    Some {| vs_length := 3; vs_kind := numeric |} /\
  vs_length {| vs_length := 3; vs_kind := numeric |} =
    length (el_value (inputA [49; 32; 50]%N)).
Proof.
  split; [reflexivity|].
  apply (value_summary_classes (inputA [49; 32; 50]%N)
           {| vs_length := 3; vs_kind := numeric |}).
  reflexivity.
Defined.

(** ** The metric store only grows *)

Lemma counters_le_refl m : counters_le m m.
Proof. unfold counters_le. lia. Qed.

#[global] Instance grows_preorder : PreOrder grows.
Proof.
  split.
  - intros w k m H. exists m. split; [exact H|apply counters_le_refl].
  - intros a b c H1 H2 k m H. destruct (H1 k m H) as (m1 & Hm1 & L1).
    destruct (H2 k m1 Hm1) as (m2 & Hm2 & L2). exists m2. split; [exact Hm2|].
    unfold counters_le in *. lia.
Qed.

Lemma grows_of_same_store w w' : store w' = store w -> grows w w'.
Proof.
  intros E k m H. exists m. rewrite E. split; [exact H|apply counters_le_refl].
Qed.

Lemma grows_of_quiet {A} (m : M A) :
  preserves same_quiet m -> preserves grows m.
Proof.
  intros H w. apply grows_of_same_store.
  exact (f_equal (fun u => _fieldMetrics (fxt u)) (H w)).
Qed.
#[global] Hint Resolve grows_of_quiet | 20 : frame.

Lemma initFieldMetrics_grows k : preserves grows (initFieldMetrics k).
Proof.
  intros w k' m H. unfold initFieldMetrics, exec, bind, the_fxt. cbn.
  destruct (lookupField k (_fieldMetrics (fxt w))) eqn:E; cbn.
  - exists m. split; [exact H|apply counters_le_refl].
  - exists m. split; [|apply counters_le_refl].
    unfold store in *. cbn. now rewrite lookupField_app, H.
Qed.

#[global] Hint Resolve initFieldMetrics_grows : frame.

Lemma mutate_grows k f :
  (forall m, counters_le m (f m)) -> preserves grows (mutate k f).
Proof.
  intros Hf w k' m H. unfold mutate, exec, upd, store in *. cbn.
  rewrite lookupField_alter. case_bool_decide as E.
  - subst k'. rewrite H. cbn. eauto.
  - exists m. split; [exact H|apply counters_le_refl].
Qed.

(** [frame] for [grows]: an assignment to a record of the store raises a
    counter or leaves them alone; any other assignment leaves the store
    alone. *)
Ltac grows :=
  repeat first
    [ progress frame
    | apply mutate_grows; intros ?; unfold counters_le; cbn; lia
    | match goal with
      | |- preserves grows _ =>
          let w := fresh "w" in
          intros w; apply grows_of_same_store; reflexivity
      end ].

Lemma handlerOf_grows e el : preserves grows (handlerOf e el).
Proof.
  destruct e; cbn;
    unfold onFocus, onBlur, onChange, onInvalid, onFormClick, onKeyDown,
      onPaste; grows.
Qed.

Lemma init_grows opts : preserves grows (init opts).
Proof.
  unfold init, makeSessionId, locateForm, attachFormListeners,
    observeMutations, wrapConsole, wireWindowErrors, wrapFetch, wrapXHR,
    addEventListener, scheduleFlush, setTimer.
  grows.
Qed.

Lemma stop_grows : preserves grows stop.
Proof. unfold stop, disconnect, clearTimeout. grows. Qed.

Lemma errorEvent_grows a b : preserves grows (errorEvent a b).
Proof. unfold errorEvent. grows. Qed.
#[global] Hint Resolve errorEvent_grows : frame.

Lemma settle_grows r p : preserves grows (settle r p).
Proof.
  unfold settle, flushSettled, flushCatch.
  assert (forall n p, preserves grows (wrapFetchLayers n p)) as H.
  { induction n as [|n IH]; intros q; cbn [wrapFetchLayers];
      unfold wrapFetchLayer, wrapFetchCatch; grows. }
  grows.
Qed.

#[global] Hint Resolve settle_grows : frame.

Lemma react_grows l w : grows w (react l w).
Proof.
  destruct l; cbn [react];
    try (apply (preserves_calls grows));
    try match goal with
        | |- grows _ (exec ?m _) => revert w; change (preserves grows m)
        end.
  - apply init_grows.
  - apply stop_grows.
  - unfold callStepTransition. grows.
  - grows.
  - grows.
  - apply handlerOf_grows.
  - destruct ms; [reflexivity|]. destruct (connected mo w); [|reflexivity].
    revert w. change (preserves grows (onMutations (m :: ms))).
    unfold onMutations, recordMutation, pushMutation, setTimer. grows.
  - destruct (timerKind i w) as [[]|]; [| | |reflexivity]; revert w;
      match goal with |- forall w, grows w (exec ?m w) =>
        change (preserves grows m) end;
      unfold expire, flushTick, mutationTick, heartbeat, scheduleFlush,
        setTimer; grows.
  - destruct (inflight (host w) !! n) as [r|]; [|reflexivity].
    revert w. match goal with |- forall w, grows w (exec ?m w) =>
        change (preserves grows m) end.
    grows.
  - destruct (hasFetch (host w)); [|reflexivity].
    revert w. match goal with |- forall w, grows w (exec ?m w) =>
        change (preserves grows m) end. grows.
  - unfold xhrLayer. grows.
  - unfold consoleErrorLayer. grows.
  - unfold onWindowError. grows.
  - unfold onUnhandledRejection. grows.
  - unfold onBeforeUnload. grows.
  - unfold onVisibilityChange. grows.
Qed.

Lemma run_grows ls : forall w, grows w (run ls w).
Proof.
  induction ls as [|l ls IH]; intros w; [reflexivity|]. cbn.
  transitivity (react l w); [apply react_grows|apply IH].
Qed.

(** X7, the metric store ([initFieldMetrics] and the handlers): along
    every sequence of calls and callbacks, [stop] and a second [init]
    included, a field that has a record keeps one, and none of its six
    counters ever goes down. The records are never reset; a restarted
    session reports the counts of the sessions before it. *)
Theorem metrics_never_decrease
    (w : World) (ls : list Label) (k : string) (m : Metrics) :
  lookupField k (store w) = Some m ->
  exists m', lookupField k (store (run ls w)) = Some m' /\ counters_le m m'.
Proof. intros H. exact (run_grows ls w k m H). Qed.

Lemma metrics_never_decrease_witness :
  lookupField "input#a" (store typed) = Some typedRecord /\
  exists m',
    lookupField "input#a" (store (run [CallStop; CallInit no_opts] typed)) =
      Some m' /\
    counters_le typedRecord m'.
Proof.
  split; [vm_compute; reflexivity|].
  apply (metrics_never_decrease typed [CallStop; CallInit no_opts]
           "input#a" typedRecord).
  vm_compute. reflexivity.
Defined.

(** ** Listeners and wrappers stay *)

#[global] Instance lasting_preorder : PreOrder lasting.
Proof.
  split.
  - intros w. unfold lasting. repeat split; reflexivity.
  - intros a b c (L1 & F1 & X1 & C1) (L2 & F2 & X2 & C2).
    unfold lasting. repeat split; try lia.
    now transitivity (listeners (host b)).
Qed.

Lemma lasting_of_quiet {A} (m : M A) :
  preserves same_quiet m -> preserves lasting m.
Proof.
  intros H w. specialize (H w). unfold lasting.
  assert (listeners (host (exec m w)) = listeners (host w)) as ->
    by exact (f_equal (fun u => listeners (host u)) H).
  assert (fetchWraps (host (exec m w)) = fetchWraps (host w)) as ->
    by exact (f_equal (fun u => fetchWraps (host u)) H).
  assert (xhrWraps (host (exec m w)) = xhrWraps (host w)) as ->
    by exact (f_equal (fun u => xhrWraps (host u)) H).
  assert (consoleWraps (host (exec m w)) = consoleWraps (host w)) as ->
    by exact (f_equal (fun u => consoleWraps (host u)) H).
  repeat split; reflexivity.
Qed.
#[global] Hint Resolve lasting_of_quiet | 20 : frame.

(** [frame] for [lasting]: an assignment to the host appends a listener,
    adds a layer, or touches neither. *)
Ltac lasting :=
  repeat first
    [ progress frame
    | match goal with
      | |- preserves lasting _ =>
          let w := fresh "w" in
          intros w; unfold lasting; cbn;
          repeat split;
          first [reflexivity | apply prefix_app_r; reflexivity | lia]
      end ].

Lemma handlerOf_lasting e el : preserves lasting (handlerOf e el).
Proof.
  destruct e; cbn;
    unfold onFocus, onBlur, onChange, onInvalid, onFormClick, onKeyDown,
      onPaste, initFieldMetrics, mutate; lasting.
Qed.

Lemma init_lasting opts : preserves lasting (init opts).
Proof.
  unfold init, makeSessionId, locateForm, attachFormListeners,
    observeMutations, wrapConsole, wireWindowErrors, wrapFetch, wrapXHR,
    addEventListener, scheduleFlush, setTimer.
  lasting.
Qed.

Lemma stop_lasting : preserves lasting stop.
Proof. unfold stop, disconnect, clearTimeout. lasting. Qed.

Lemma errorEvent_lasting a b : preserves lasting (errorEvent a b).
Proof. unfold errorEvent. lasting. Qed.
#[global] Hint Resolve errorEvent_lasting : frame.

Lemma settle_lasting r p : preserves lasting (settle r p).
Proof.
  unfold settle, flushSettled, flushCatch.
  assert (forall n p, preserves lasting (wrapFetchLayers n p)) as H.
  { induction n as [|n IH]; intros q; cbn [wrapFetchLayers];
      unfold wrapFetchLayer, wrapFetchCatch; lasting. }
  lasting.
Qed.
#[global] Hint Resolve settle_lasting : frame.

Ltac as_preserves R :=
  match goal with
  | w : World |- R ?w0 (exec ?m ?w0) => revert w0; change (preserves R m)
  end.

Lemma react_lasting l w : lasting w (react l w).
Proof.
  destruct l; cbn [react];
    try (apply (preserves_calls lasting)); try as_preserves lasting.
  - apply init_lasting.
  - apply stop_lasting.
  - unfold callStepTransition. lasting.
  - lasting.
  - lasting.
  - apply handlerOf_lasting.
  - destruct ms; [reflexivity|]. destruct (connected mo w); [|reflexivity].
    as_preserves lasting.
    unfold onMutations, recordMutation, pushMutation, setTimer. lasting.
  - destruct (timerKind i w) as [[]|]; [| | |reflexivity];
      as_preserves lasting;
      unfold expire, flushTick, mutationTick, heartbeat, scheduleFlush,
        setTimer; lasting.
  - destruct (inflight (host w) !! n) as [r|]; [|reflexivity].
    as_preserves lasting. lasting.
  - destruct (hasFetch (host w)); [|reflexivity].
    as_preserves lasting. lasting.
  - unfold xhrLayer. lasting.
  - unfold consoleErrorLayer. lasting.
  - unfold onWindowError. lasting.
  - unfold onUnhandledRejection. lasting.
  - unfold onBeforeUnload. lasting.
  - unfold onVisibilityChange. lasting.
Qed.

Lemma run_lasting ls : forall w, lasting w (run ls w).
Proof.
  induction ls as [|l ls IH]; intros w; [reflexivity|]. cbn.
  transitivity (react l w); [apply react_lasting|apply IH].
Qed.

(** X8, [init], [stop] and the wrappers: nothing takes a listener away or
    unwraps [fetch], [XMLHttpRequest] or [console.error]. Along every
    sequence of calls and callbacks the listeners registered before are
    still registered, in the same order, and the number of layers around
    each of the three functions does not go down; [stop] leaves the page
    instrumented. *)
Theorem instrumentation_is_never_removed (w : World) (ls : list Label) :
  listeners (host w) `prefix_of` listeners (host (run ls w)) /\
  (fetchWraps (host w) <= fetchWraps (host (run ls w)))%nat /\
  (xhrWraps (host w) <= xhrWraps (host (run ls w)))%nat /\
  (consoleWraps (host w) <= consoleWraps (host (run ls w)))%nat.
Proof. apply run_lasting. Qed.

(** ** Heartbeats are never cancelled *)

#[global] Instance beats_preorder : PreOrder beats.
Proof.
  split.
  - intros w i H. exact H.
  - intros a b c H1 H2 i H. apply H2, H1, H.
Qed.

Lemma beats_of_same_timers {A} (m : M A) :
  preserves same_timers m -> preserves beats m.
Proof.
  intros H w i. destruct (H w) as [E _]. rewrite !outstanding_view, E. auto.
Qed.
#[global] Hint Resolve beats_of_same_timers | 20 : frame.

(** [frame] for [beats]: an assignment to the host adds a timer or leaves
    the timers alone. *)
Ltac beats :=
  repeat first
    [ progress frame
    | match goal with
      | |- preserves beats _ =>
          let w := fresh "w" in
          let i := fresh "i" in
          let H := fresh "H" in
          intros w i H; unfold outstanding in *; cbn;
          rewrite ?filter_app, ?fmap_app, ?elem_of_app; auto
      end ].

Lemma init_beats opts : preserves beats (init opts).
Proof.
  unfold init, makeSessionId, locateForm, attachFormListeners,
    observeMutations, wrapConsole, wireWindowErrors, wrapFetch, wrapXHR,
    addEventListener, scheduleFlush, setTimer.
  beats.
Qed.

Lemma onMutations_beats ms : preserves beats (onMutations ms).
Proof. unfold onMutations, setTimer. beats. Qed.

Lemma cleared_keeps_heartbeat v :
  timers_ok v ->
  kindIn HeartbeatInterval (cleared (tv_flush v) v) =
  kindIn HeartbeatInterval v.
Proof.
  intros Hv. unfold kindIn.
  destruct (tv_flush v) as [i|] eqn:E; cbn; [|reflexivity].
  rewrite filter_filter_keep; [reflexivity|].
  intros [j k] Hin Hk Hj. cbn in *. subst.
  now pose proof (t_flush_kind _ Hv _ _ E Hin).
Qed.

Lemma stop_beats w : inv w -> beats w (exec stop w).
Proof.
  intros [Hv _] i. rewrite !outstanding_view, stop_timers.
  change (_flushTimer (fxt w)) with (tv_flush (tview w)).
  now rewrite cleared_keeps_heartbeat.
Qed.

Lemma expire_beats i k w :
  inv w -> timerKind i w = Some k -> k <> HeartbeatInterval ->
  beats w (exec (expire i) w).
Proof.
  intros [Hv _] Hi Hk j. apply kindOf_Some in Hi.
  rewrite !outstanding_view, !kindIn_elem. cbn. intros Hj.
  apply list_elem_of_filter. split; [|exact Hj]. cbn. intros ->.
  assert (kindOf i (timers (host w)) = Some k) as E1
    by (apply kindOf_elem; [apply (t_nodup _ Hv)|exact Hi]).
  assert (kindOf i (timers (host w)) = Some HeartbeatInterval) as E2
    by (apply kindOf_elem; [apply (t_nodup _ Hv)|exact Hj]).
  congruence.
Qed.

Lemma exec_after {A} (m : M unit) (k : M A) w :
  outcome m w = inr tt -> exec (m ;; k) w = exec k (exec m w).
Proof. intros H. now rewrite exec_bind, H. Qed.

Lemma react_beats l w : inv w -> beats w (react l w).
Proof.
  intros Hw. destruct l; cbn [react].
  - apply init_beats.
  - now apply stop_beats.
  - apply (beats_of_same_timers _ (callStepTransition_timers _ _)).
  - intros i H. exact H.
  - intros i H. exact H.
  - apply (preserves_calls beats), beats_of_same_timers, handlerOf_timers.
  - destruct ms; [reflexivity|]. destruct (connected mo w); [|reflexivity].
    apply onMutations_beats.
  - destruct (timerKind i w) as [[]|] eqn:E; [| | |reflexivity].
    + rewrite exec_after by reflexivity.
      transitivity (exec (expire i) w); [now apply (expire_beats i _ w Hw E)|].
      assert (preserves beats flushTick) as H
        by (unfold flushTick, scheduleFlush, setTimer; beats).
      apply H.
    + rewrite exec_after by reflexivity.
      transitivity (exec (expire i) w); [now apply (expire_beats i _ w Hw E)|].
      assert (preserves beats mutationTick) as H
        by (unfold mutationTick; beats).
      apply H.
    + apply (beats_of_same_timers _ heartbeat_timers).
  - destruct (inflight (host w) !! n) as [r|]; [|reflexivity].
    rewrite exec_after by reflexivity.
    etransitivity; [|apply (beats_of_same_timers _ (settle_timers r p))].
    intros i H. exact H.
  - destruct (hasFetch (host w)); [|reflexivity]. intros i H. exact H.
  - apply (preserves_calls beats), beats_of_same_timers, xhrLayer_timers.
  - apply (preserves_calls beats), beats_of_same_timers,
      consoleErrorLayer_timers.
  - apply (preserves_calls beats), beats_of_same_timers, onWindowError_timers.
  - apply (preserves_calls beats), beats_of_same_timers,
      onUnhandledRejection_timers.
  - apply (preserves_calls beats), beats_of_same_timers, onBeforeUnload_timers.
  - apply (preserves_calls beats), beats_of_same_timers,
      onVisibilityChange_timers.
Qed.

Lemma reachable_run ls : forall w, reachable w -> reachable (run ls w).
Proof.
  induction ls as [|l ls IH]; intros w Hw; [exact Hw|].
  cbn. apply IH. now apply reach_react.
Qed.

Lemma run_beats ls : forall w, reachable w -> beats w (run ls w).
Proof.
  induction ls as [|l ls IH]; intros w Hw; [reflexivity|]. cbn.
  transitivity (react l w).
  - now apply react_beats, reachable_inv.
  - now apply IH, reach_react.
Qed.

Lemma reachable_started : reachable started.
Proof.
  apply (reach_react (CallInit no_opts)), reach_loaded, pristine_browser.
Qed.

(** X9, the heartbeat of [init]: the handle of [setInterval] is not kept,
    so no call and no callback of the script cancels a heartbeat. In a
    reachable state an outstanding heartbeat interval is still
    outstanding after any sequence of transitions, [stop] included. *)
Theorem heartbeat_is_never_cancelled
    (w : World) (ls : list Label) (i : TimerId) :
  reachable w ->
  i ∈ outstanding HeartbeatInterval w ->
  i ∈ outstanding HeartbeatInterval (run ls w).
Proof. intros Hw. apply (run_beats ls w Hw). Qed.

Lemma heartbeat_is_never_cancelled_witness :
  reachable started /\
  2%positive ∈ outstanding HeartbeatInterval started /\
  2%positive ∈ outstanding HeartbeatInterval (run [CallStop] started).
Proof.
  split; [apply reachable_started|].
  assert (2%positive ∈ outstanding HeartbeatInterval started) as H
    by (vm_compute; constructor).
  split; [exact H|].
  apply (heartbeat_is_never_cancelled started [CallStop] 2%positive);
    [apply reachable_started|exact H].
Defined.

(** ** The periodic flush *)

Lemma at_most_one_flush_timer v :
  timers_ok v -> (length (kindIn FlushTimeout v) <= 1)%nat.
Proof.
  intros Hv. apply length_le_1; [now apply kindIn_nodup|].
  intros x y Hx%kindIn_elem Hy%kindIn_elem.
  apply (t_flush _ Hv) in Hx, Hy. congruence.
Qed.

Lemma scheduleFlush_view w :
  tview (exec scheduleFlush w) =
  match tv_flush (tview w) with
  | Some _ => tview w
  | None => arm FlushTimeout (tview w)
  end.
Proof.
  unfold scheduleFlush, setTimer, exec, bind, the_fxt, the_host, upd,
    upd_host, ret, tview, arm.
  cbn. destruct (_flushTimer (fxt w)) eqn:E; cbn; rewrite ?E; reflexivity.
Qed.

Lemma flush_events w :
  _events (fxt (exec flush w)) =
  drop (Z.to_nat (batchSize (_config (fxt w)))) (_events (fxt w)).
Proof.
  unfold exec. rewrite flush_cases.
  destruct (_events (fxt w)) as [|e es] eqn:E.
  - cbn. now rewrite E, drop_nil.
  - cbv zeta. apply send_cases.
Qed.

Lemma fire_flush_run i w :
  can_fetch w ->
  let w1 := exec (expire i ;; upd (set_flushTimer None)) w in
  exec (expire i ;; flushTick) w = exec scheduleFlush (exec flush w1).
Proof.
  intros Hf w1. unfold flushTick.
  change (exec (expire i ;; upd (set_flushTimer None) ;; flush ;;
                scheduleFlush) w)
    with (exec (flush ;; scheduleFlush) w1).
  destruct (flush_safe w1 Hf) as [[] Hr]. now rewrite exec_after.
Qed.

Lemma fired_flush_view i w :
  can_fetch w ->
  tview (exec (expire i ;; flushTick) w) =
  arm FlushTimeout
    {| tv_timers := tv_timers (cancel i (tview w));
       tv_next := tv_next (tview w);
       tv_flush := None; tv_mutation := tv_mutation (tview w) |}.
Proof.
  intros Hf. rewrite (fire_flush_run i w Hf). cbv zeta.
  rewrite scheduleFlush_view.
  destruct (flush_timers (exec (expire i ;; upd (set_flushTimer None)) w))
    as [-> _].
  reflexivity.
Qed.

Lemma fired_no_flush k i v :
  timers_ok v -> (i, FlushTimeout) ∈ tv_timers v ->
  kindIn FlushTimeout
    {| tv_timers := tv_timers (cancel i v); tv_next := tv_next v;
       tv_flush := None; tv_mutation := k |} = [].
Proof.
  intros Hv Hi. unfold kindIn. cbn. rewrite filter_none; [reflexivity|].
  intros [j kd] [Hne Hin]%list_elem_of_filter Hk. cbn in *. subst kd.
  apply (t_flush _ Hv) in Hin, Hi. congruence.
Qed.

(** X10, [scheduleFlush]: in a reachable state at most one flush timer is
    outstanding. When it fires in a host with [fetch], the callback takes
    up to [batchSize] records off the front of the queue and arms exactly
    one new flush timer, whose handle [FXT._flushTimer] holds. *)
Theorem periodic_flush_rearms_itself (w : World) (i : TimerId) :
  reachable w ->
  (length (outstanding FlushTimeout w) <= 1)%nat /\
  (timerKind i w = Some FlushTimeout -> can_fetch w ->
   outstanding FlushTimeout (react (Fire i) w) = [nextTimer (host w)] /\
   _flushTimer (fxt (react (Fire i) w)) = Some (nextTimer (host w)) /\
   _events (fxt (react (Fire i) w)) =
     drop (Z.to_nat (batchSize (_config (fxt w)))) (_events (fxt w))).
Proof.
  intros [Hv _]%reachable_inv. split.
  { rewrite outstanding_view. now apply at_most_one_flush_timer. }
  intros Hi Hf. cbn [react]. rewrite Hi. apply kindOf_Some in Hi.
  pose proof (fired_flush_view i w Hf) as Hview. repeat split.
  - rewrite outstanding_view, Hview, kindIn_arm.
    now rewrite (fired_no_flush _ i _ Hv Hi).
  - apply (f_equal tv_flush) in Hview. exact Hview.
  - rewrite (fire_flush_run i w Hf). cbv zeta.
    assert (forall u, _events (fxt (exec scheduleFlush u)) = _events (fxt u))
      as E.
    { intros u. unfold scheduleFlush, exec, bind, the_fxt. cbn.
      now destruct (_flushTimer (fxt u)). }
    rewrite E, flush_events. reflexivity.
Qed.

Lemma periodic_flush_rearms_itself_witness :
  reachable started /\
  (length (outstanding FlushTimeout started) <= 1)%nat.
Proof.
  split; [apply reachable_started|].
  apply (periodic_flush_rearms_itself started 1%positive), reachable_started.
Defined.

(** ** The last batch *)

Lemma enqueue_below e w :
  Z.of_nat (length (_events (fxt w))) + 1 < batchSize (_config (fxt w)) ->
  enqueue e w = (with_events (_events (fxt w) ++ [e]) w, inr tt).
Proof.
  intros H. rewrite enqueue_cases, length_app. cbn [length].
  destruct (_ >=? _) eqn:G; [|reflexivity].
  rewrite Z.geb_leb in G. apply Z.leb_le in G. lia.
Qed.

Lemma flush_all w :
  _events (fxt w) <> [] ->
  Z.of_nat (length (_events (fxt w))) <= batchSize (_config (fxt w)) ->
  flush w = send (batchOf w (_events (fxt w))) (with_events [] w).
Proof.
  intros Hne Hle. rewrite flush_cases.
  destruct (_events (fxt w)) as [|e es] eqn:E; [done|]. cbv zeta.
  rewrite take_ge, drop_ge by lia. reflexivity.
Qed.

Lemma send_then_flush p w :
  _events (fxt w) = [] -> (send p ;; flush) w = send p w.
Proof.
  intros E. unfold bind. rewrite (run_pair (send p) w).
  destruct (outcome (send p) w) as [e|[]]; [reflexivity|].
  rewrite flush_cases.
  destruct (send_cases p w) as [-> _]. now rewrite E.
Qed.

Lemma farewell_run reason w :
  Z.of_nat (length (_events (fxt w))) + 2 <= batchSize (_config (fxt w)) ->
  (sendFieldMetricsSummary reason ;;
   evt <- makeEvent "session-end" (DSessionEnd reason) ;;
   enqueue evt ;;
   flush) w =
  send (batchOf w (_events (fxt w) ++ farewell reason w)) (with_events [] w).
Proof.
  intros Hle. unfold farewell, now.
  unfold sendFieldMetricsSummary, makeEvent, perfNow, logDebug, bind,
    the_fxt, the_host, ret. cbn -[enqueue flush send].
  rewrite enqueue_below by lia. cbn -[enqueue flush send].
  rewrite enqueue_cases. cbn -[enqueue flush send Z.geb].
  rewrite <- app_assoc. cbn [app].
  match goal with |- context [with_events ?evs (with_events _ w)] =>
    change (with_events evs (with_events _ w)) with (with_events evs w);
    set (w2 := with_events evs w); set (q := evs) in *
  end.
  assert (_events (fxt w2) = q) as E2 by reflexivity.
  assert (_events (fxt w2) <> []) as Hne
    by (rewrite E2; subst q; destruct (_events (fxt w)); discriminate).
  assert (Z.of_nat (length (_events (fxt w2))) <= batchSize (_config (fxt w2)))
    as Hle2 by (rewrite E2; subst q; rewrite length_app; cbn; lia).
  pose proof (flush_all w2 Hne Hle2) as Hfl. rewrite E2 in Hfl.
  change (batchOf w2) with (batchOf w) in Hfl.
  change (with_events [] w2) with (with_events [] w) in Hfl.
  destruct (_ >=? _).
  - rewrite Hfl.
    pose proof (send_then_flush (batchOf w q) (with_events [] w) eq_refl) as H.
    unfold bind in H. exact H.
  - exact Hfl.
Qed.

Lemma exec_guarded m w : exec (guarded m) w = exec m w.
Proof.
  unfold exec, guarded, try_catch. now destruct (m w) as [w' [e|[]]].
Qed.

Lemma send_run p w :
  send p w =
  match sendBeacon (host w), _isUnloading (fxt w) with
  | Some BeaconQueued, true =>
      ({| fxt := set_lastFlush (wall (host w)) (fxt w);
          host := set_beacons (beacons (host w) ++ [p]) (host w) |}, inr tt)
  | _, _ =>
      if hasFetch (host w) then
        ({| fxt := fxt w;
            host := set_inflight (inflight (host w) ++ [requestOf w p])
                                 (host w) |}, inr tt)
      else (w, inl (ReferenceError "fetch"))
  end.
Proof.
  unfold send, bind, the_fxt, the_host, logDebug, dateNow, upd, upd_host, ret,
    throw, requestOf.
  cbn. destruct w as [x h]. cbn.
  destruct (sendBeacon h) as [[]|], (_isUnloading x), (hasFetch h); reflexivity.
Qed.

Lemma stop_run w :
  Z.of_nat (length (_events (fxt w))) + 2 <= batchSize (_config (fxt w)) ->
  exists w1,
    same_transport w w1 /\
    exec stop w =
    exec (send (batchOf w (_events (fxt w) ++ farewell "stop" w)))
         (with_events [] w1).
Proof.
  intros Hle. unfold stop. rewrite exec_guarded.
  set (rest := (sendFieldMetricsSummary "stop" ;;
                evt <- makeEvent "session-end" (DSessionEnd "stop") ;;
                enqueue evt ;; flush)).
  set (w1 := exec (x <- the_fxt ;;
                   match _mo x with
                   | Some mo => disconnect mo
                   | None => ret tt
                   end ;;
                   upd (set_isInitialized false) ;;
                   clearTimeout (_flushTimer x)) w).
  exists w1.
  assert (same_transport w w1 /\ _events (fxt w1) = _events (fxt w) /\
          _config (fxt w1) = _config (fxt w) /\ batchOf w1 = batchOf w /\
          farewell "stop" w1 = farewell "stop" w) as (Ht & Ee & Ec & Eb & Ef).
  { subst w1. unfold exec, bind, the_fxt, same_transport, requestOf, batchOf,
      farewell, now, fieldAnalytics. cbn.
    destruct (_mo (fxt w)), (_flushTimer (fxt w)); cbn; repeat split. }
  split; [exact Ht|].
  transitivity (exec rest w1).
  { subst w1 rest. unfold exec, bind at 1 2 3 4 5 6 7 8, the_fxt.
    cbn -[sendFieldMetricsSummary enqueue flush makeEvent].
    destruct (_mo (fxt w)), (_flushTimer (fxt w));
      cbn -[sendFieldMetricsSummary enqueue flush makeEvent]; reflexivity. }
  unfold exec, rest. rewrite farewell_run by (rewrite Ee, Ec; exact Hle).
  now rewrite Ee, Eb, Ef.
Qed.

(** X11, [stop]: when the queue has room for two more records, [stop]
    puts the field summary and the session-end record behind the queue
    and sends everything in one batch, leaving the queue empty. The batch
    goes to [sendBeacon] when the page is unloading and the beacon is
    accepted; otherwise to [fetch]; and when there is no [fetch] either,
    it is sent nowhere and the records are gone. *)
Theorem stop_sends_the_rest (w : World) :
  Z.of_nat (length (_events (fxt w))) + 2 <= batchSize (_config (fxt w)) ->
  let p := batchOf w (_events (fxt w) ++ farewell "stop" w) in
  let w' := exec stop w in
  _events (fxt w') = [] /\
  (_isUnloading (fxt w) = true -> sendBeacon (host w) = Some BeaconQueued ->
   beacons (host w') = beacons (host w) ++ [p] /\
   inflight (host w') = inflight (host w)) /\
  (_isUnloading (fxt w) = false \/ sendBeacon (host w) <> Some BeaconQueued ->
   beacons (host w') = beacons (host w) /\
   inflight (host w') =
     if hasFetch (host w) then inflight (host w) ++ [requestOf w p]
     else inflight (host w)).
Proof.
  intros Hle p w'. subst w'.
  destruct (stop_run w Hle) as (w1 & (Eu & Eb & Ef & Ei & Ebs & Er) & ->).
  fold p. unfold exec. rewrite send_run.
  change (host (with_events [] w1)) with (host w1).
  change (_isUnloading (fxt (with_events [] w1))) with (_isUnloading (fxt w1)).
  change (requestOf (with_events [] w1)) with (requestOf w1).
  rewrite Eu, Eb, Ef, Ei, Ebs, Er.
  destruct (sendBeacon (host w)) as [[]|], (_isUnloading (fxt w)),
    (hasFetch (host w)); cbn; rewrite ?Ei, ?Ebs;
    repeat split; try reflexivity; try discriminate;
    intros; try reflexivity; try discriminate; intuition congruence.
Qed.

Lemma stop_sends_the_rest_witness :
  Z.of_nat (length (_events (fxt started))) + 2 <=
    batchSize (_config (fxt started)) /\
  _events (fxt (exec stop started)) = [].
Proof.
  assert (Z.of_nat (length (_events (fxt started))) + 2 <=
            batchSize (_config (fxt started))) as H
    by (vm_compute; discriminate).
  split; [exact H|].
  destruct (stop_sends_the_rest started H) as [E _]. exact E.
Defined.

Lemma unload_run reason handler w :
  (reason, handler) ∈
    [("unload", onBeforeUnload); ("hidden", onVisibilityChange true)] ->
  Z.of_nat (length (_events (fxt w))) + 2 <= batchSize (_config (fxt w)) ->
  exec handler w =
  exec (send (batchOf w (_events (fxt w) ++ farewell reason w)))
       (with_events [] (exec (upd (set_isUnloading true)) w)).
Proof.
  intros Hin Hle.
  set (w1 := exec (upd (set_isUnloading true)) w).
  pose proof (farewell_run reason w1 Hle) as H.
  rewrite !elem_of_cons, elem_of_nil in Hin.
  destruct Hin as [[= -> ->]|[[= -> ->]|[]]].
  - unfold onBeforeUnload.
    change (exec (upd (set_isUnloading true) ;; ?m) w) with (exec m w1).
    rewrite exec_guarded. unfold exec. now rewrite H.
  - unfold onVisibilityChange.
    change (exec (upd (set_isUnloading true) ;; ?m) w) with (exec m w1).
    unfold exec. now rewrite H.
Qed.

(** X12, the [beforeunload] and [visibilitychange] handlers: both set the
    unloading flag, put the field summary and the session-end record
    behind the queue (when it has room for two more) and send everything
    in one batch. With an accepted beacon the batch goes to [sendBeacon]
    only, and the time of the last flush is the wall clock; with a
    refused, throwing or missing beacon it goes to [fetch] when there is
    one. *)
Theorem unload_delivers_by_beacon
    (w : World) (reason : string) (handler : M unit) :
  (reason, handler) ∈
    [("unload", onBeforeUnload); ("hidden", onVisibilityChange true)] ->
  Z.of_nat (length (_events (fxt w))) + 2 <= batchSize (_config (fxt w)) ->
  let p := batchOf w (_events (fxt w) ++ farewell reason w) in
  let w' := exec handler w in
  _events (fxt w') = [] /\ _isUnloading (fxt w') = true /\
  (sendBeacon (host w) = Some BeaconQueued ->
   beacons (host w') = beacons (host w) ++ [p] /\
   inflight (host w') = inflight (host w) /\
   _lastFlush (fxt w') = wall (host w)) /\
  (sendBeacon (host w) <> Some BeaconQueued ->
   beacons (host w') = beacons (host w) /\
   inflight (host w') =
     if hasFetch (host w) then inflight (host w) ++ [requestOf w p]
     else inflight (host w)).
Proof.
  intros Hin Hle p w'. subst w'. rewrite (unload_run reason handler w Hin Hle).
  fold p. unfold exec. rewrite send_run. cbn [with_events host fxt upd fst].
  change (_isUnloading (set_events _ _)) with true.
  destruct (sendBeacon (host w)) as [[]|], (hasFetch (host w)); cbn;
    repeat split; try reflexivity; try discriminate;
    intros; try reflexivity; try discriminate; intuition congruence.
Qed.

Lemma unload_delivers_by_beacon_witness :
  ("unload", onBeforeUnload) ∈
    [("unload", onBeforeUnload); ("hidden", onVisibilityChange true)] /\
  Z.of_nat (length (_events (fxt started))) + 2 <=
    batchSize (_config (fxt started)) /\
  _events (fxt (exec onBeforeUnload started)) = [].
Proof.
  assert (("unload", onBeforeUnload) ∈
            [("unload", onBeforeUnload); ("hidden", onVisibilityChange true)])
    as H1 by constructor.
  assert (Z.of_nat (length (_events (fxt started))) + 2 <=
            batchSize (_config (fxt started))) as H2
    by (vm_compute; discriminate).
  split; [exact H1|]. split; [exact H2|].
  destruct (unload_delivers_by_beacon started "unload" onBeforeUnload H1 H2)
    as [E _].
  exact E.
Defined.

(** ** The unloading flag *)

#[global] Instance unloading_stays_preorder : PreOrder unloading_stays.
Proof.
  split.
  - intros w H. exact H.
  - intros a b c H1 H2 H. apply H2, H1, H.
Qed.

Lemma stays_of_quiet {A} (m : M A) :
  preserves same_quiet m -> preserves unloading_stays m.
Proof.
  intros H w Hu. rewrite <- Hu.
  exact (f_equal (fun u => _isUnloading (fxt u)) (H w)).
Qed.
#[global] Hint Resolve stays_of_quiet | 20 : frame.

(** [frame] for [unloading_stays]: no assignment but the one in [init]
    clears the flag. *)
Ltac stays :=
  repeat first
    [ progress frame
    | match goal with
      | |- preserves unloading_stays _ =>
          let w := fresh "w" in
          let H := fresh "H" in
          intros w H; first [exact H | reflexivity]
      end ].

Lemma settle_stays r p : preserves unloading_stays (settle r p).
Proof.
  unfold settle, flushSettled, flushCatch.
  assert (forall n p, preserves unloading_stays (wrapFetchLayers n p)) as H.
  { induction n as [|n IH]; intros q; cbn [wrapFetchLayers];
      unfold wrapFetchLayer, wrapFetchCatch, errorEvent; stays. }
  stays.
Qed.
#[global] Hint Resolve settle_stays : frame.

Lemma react_stays l w : notInit l -> unloading_stays w (react l w).
Proof.
  intros Hl. destruct l; cbn [react]; [destruct Hl|..];
    try (apply (preserves_calls unloading_stays));
    try as_preserves unloading_stays.
  - unfold stop, disconnect, clearTimeout. stays.
  - unfold callStepTransition. stays.
  - stays.
  - stays.
  - destruct e; cbn;
      unfold onFocus, onBlur, onChange, onInvalid, onFormClick, onKeyDown,
        onPaste, initFieldMetrics, mutate; stays.
  - destruct ms; [reflexivity|]. destruct (connected mo w); [|reflexivity].
    as_preserves unloading_stays.
    unfold onMutations, recordMutation, pushMutation, setTimer. stays.
  - destruct (timerKind i w) as [[]|]; [| | |reflexivity];
      as_preserves unloading_stays;
      unfold expire, flushTick, mutationTick, heartbeat, scheduleFlush,
        setTimer; stays.
  - destruct (inflight (host w) !! n) as [r|]; [|reflexivity].
    as_preserves unloading_stays. stays.
  - destruct (hasFetch (host w)); [|reflexivity].
    as_preserves unloading_stays. stays.
  - unfold xhrLayer, errorEvent. stays.
  - unfold consoleErrorLayer, errorEvent. stays.
  - unfold onWindowError, errorEvent. stays.
  - unfold onUnhandledRejection, errorEvent. stays.
  - unfold onBeforeUnload. stays.
  - unfold onVisibilityChange. stays.
Qed.

Lemma run_stays ls : forall w,
  Forall notInit ls -> unloading_stays w (run ls w).
Proof.
  induction ls as [|l ls IH]; intros w Hls; [reflexivity|].
  inversion Hls; subst. cbn.
  transitivity (react l w); [now apply react_stays|now apply IH].
Qed.

Lemma hidden_sets_flag u :
  _isUnloading (fxt (exec (onVisibilityChange true) u)) = true.
Proof.
  unfold onVisibilityChange.
  change (exec (upd (set_isUnloading true) ;; ?m) u)
    with (exec m (exec (upd (set_isUnloading true)) u)).
  match goal with |- context [exec ?m (exec ?a u)] =>
    assert (preserves unloading_stays m) as H by stays;
    apply (H (exec a u)) end.
  reflexivity.
Qed.

(** X13, [FXT._isUnloading]: the [visibilitychange] handler sets the flag
    when the page is hidden, and nothing but a later [init] clears it,
    not even the page becoming visible again. While it is set and the
    beacon is accepted, every flush, the periodic one included, goes
    through [sendBeacon] and none through [fetch]. *)
Theorem hidden_page_keeps_using_beacon (w : World) (ls : list Label) :
  ((0 < registered OnVisibilityChange w)%nat ->
   _isUnloading (fxt (react (VisibilityChange true) w)) = true) /\
  (_isUnloading (fxt w) = true -> Forall notInit ls ->
   _isUnloading (fxt (run ls w)) = true) /\
  (_isUnloading (fxt w) = true -> sendBeacon (host w) = Some BeaconQueued ->
   _events (fxt w) <> [] ->
   beacons (host (exec flush w)) =
     beacons (host w) ++
     [batchOf w (take (Z.to_nat (batchSize (_config (fxt w))))
                      (_events (fxt w)))] /\
   inflight (host (exec flush w)) = inflight (host w)).
Proof.
  split; [|split].
  - cbn [react]. unfold calls.
    destruct (registered OnVisibilityChange w) as [|n]; [lia|]. intros _.
    cbn [Nat.iter]. apply hidden_sets_flag.
  - intros Hu Hls. now apply (run_stays ls w).
  - intros Hu Hb Hne. unfold exec. rewrite flush_cases.
    destruct (_events (fxt w)) as [|e es] eqn:E; [done|]. cbv zeta.
    rewrite send_run. cbn [with_events host fxt].
    change (_isUnloading (set_events _ (fxt w))) with (_isUnloading (fxt w)).
    rewrite Hb, Hu. split; reflexivity.
Qed.

(** ** Settled requests *)

Lemma with_events_id w : with_events (_events (fxt w)) w = w.
Proof. destruct w as [[] h]. reflexivity. Qed.

Lemma errorEvent_below a b w :
  Z.of_nat (length (_events (fxt w))) + 1 < batchSize (_config (fxt w)) ->
  errorEvent a b w =
  (with_events (_events (fxt w) ++
                [{| ev_type := "error"; ev_t := now w;
                    ev_data := DError a b |}]) w, inr tt).
Proof.
  intros H. unfold errorEvent, makeEvent, perfNow, bind, the_host, ret.
  cbn -[enqueue]. now rewrite enqueue_below.
Qed.

Lemma wrapFetchLayer_below p w :
  Z.of_nat (length (_events (fxt w))) + 1 < batchSize (_config (fxt w)) ->
  wrapFetchLayer p w =
  (with_events (_events (fxt w) ++ reports p 1 w) w, inr p).
Proof.
  intros H. destruct p as [status|]; cbn [wrapFetchLayer reports].
  - unfold try_catch, bind. destruct (res_ok status); cbn [negb].
    + cbn. now rewrite app_nil_r, with_events_id.
    + now rewrite errorEvent_below.
  - unfold wrapFetchCatch, guarded, try_catch, bind.
    now rewrite errorEvent_below.
Qed.

Lemma reports_succ p n w : reports p (S n) w = reports p 1 w ++ reports p n w.
Proof.
  destruct p as [status|]; cbn; [destruct (res_ok status)|]; reflexivity.
Qed.

Lemma reports_length p n w : (length (reports p n w) <= n)%nat.
Proof.
  destruct p as [status|]; cbn; [destruct (res_ok status)|];
    rewrite ?length_replicate; cbn; lia.
Qed.

Lemma wrapFetchLayers_below n p : forall w,
  Z.of_nat (length (_events (fxt w))) + Z.of_nat n <
    batchSize (_config (fxt w)) ->
  wrapFetchLayers n p w =
  (with_events (_events (fxt w) ++ reports p n w) w, inr p).
Proof.
  induction n as [|n IH]; intros w H; cbn [wrapFetchLayers].
  - unfold ret. destruct p as [status|]; cbn [reports replicate];
      [destruct (res_ok status)|]; now rewrite app_nil_r, with_events_id.
  - unfold bind. rewrite wrapFetchLayer_below by lia.
    set (w1 := with_events _ w).
    assert (_events (fxt w1) = _events (fxt w) ++ reports p 1 w) as E
      by reflexivity.
    pose proof (reports_length p 1 w).
    rewrite IH by (rewrite E, length_app; cbn; lia).
    rewrite E, (reports_succ p n w), app_assoc.
    change (reports p n w1) with (reports p n w). reflexivity.
Qed.

(** X14, [wrapFetch] and the [catch] of [flush]: what a settling request
    does to the queue, as long as the queue stays below [batchSize]. A
    response with an ok status adds nothing. Any other response adds one
    [httpError] record per layer of [wrapFetch] the request went through,
    and a rejection one [networkFail] record per layer. For a rejected
    request of the script itself the batch comes back in front of the
    queue and the records about its own failure go behind it. *)
Theorem failed_request_is_reported (w : World) (r : Request) (p : Settled) :
  Z.of_nat (length (_events (fxt w))) + Z.of_nat (r_wraps r) <
    batchSize (_config (fxt w)) ->
  _events (fxt (exec (settle r p) w)) =
  match p, r_body r with
  | Rejected, Some body => p_events body
  | _, _ => []
  end ++ _events (fxt w) ++ reports p (r_wraps r) w.
Proof.
  intros H. unfold settle, exec, bind.
  rewrite (wrapFetchLayers_below _ p w H).
  destruct (r_body r) as [body|].
  - pose proof (flushSettled_events body p
                  (with_events (_events (fxt w) ++ reports p (r_wraps r) w) w))
      as E.
    unfold exec in E. rewrite E. now destruct p.
  - cbn. now destruct p.
Qed.

Lemma failed_request_is_reported_witness :
  Z.of_nat (length (_events (fxt started))) + Z.of_nat (r_wraps ownRequest) <
    batchSize (_config (fxt started)) /\
  _events (fxt (exec (settle ownRequest Rejected) started)) =
  match Rejected, r_body ownRequest with
  | Rejected, Some body => p_events body
  | _, _ => []
  end ++ _events (fxt started) ++ reports Rejected (r_wraps ownRequest) started.
Proof.
  assert (Z.of_nat (length (_events (fxt started))) +
            Z.of_nat (r_wraps ownRequest) <
          batchSize (_config (fxt started))) as H
    by (vm_compute; reflexivity).
  split; [exact H|].
  exact (failed_request_is_reported started ownRequest Rejected H).
Defined.

(** ** The mutation buffer *)

Lemma with_buffer_id w : with_buffer (_mutationBuffer (fxt w)) w = w.
Proof. destruct w as [[] h]. reflexivity. Qed.

Lemma with_buffer_twice b b' w :
  with_buffer b' (with_buffer b w) = with_buffer b' w.
Proof. reflexivity. Qed.

Lemma push_elements (c : Node -> Change) nodes : forall w,
  for_each nodes (fun n => if (nodeType n =? 1)%N then pushMutation (c n)
                           else ret tt) w =
  (with_buffer (_mutationBuffer (fxt w) ++
                map c (filter (fun n => nodeType n = 1%N) nodes)) w, inr tt).
Proof.
  induction nodes as [|n nodes IH]; intros w; cbn [for_each].
  - cbn. now rewrite app_nil_r, with_buffer_id.
  - unfold bind. rewrite filter_cons.
    destruct (N.eqb_spec (nodeType n) 1) as [E|E].
    + rewrite decide_True by exact E. unfold pushMutation, upd.
      rewrite IH. cbn [map fxt set_mutationBuffer _mutationBuffer].
      now rewrite <- app_assoc.
    + rewrite decide_False by exact E. unfold ret. now rewrite IH.
Qed.

Lemma recordMutation_run m w :
  recordMutation m w =
  (with_buffer (_mutationBuffer (fxt w) ++ noticesOf m) w, inr tt).
Proof.
  destruct m as [addedNodes removedNodes|target attributeName|];
    cbn [recordMutation noticesOf].
  - unfold bind. rewrite push_elements, push_elements.
    cbn [with_buffer fxt set_mutationBuffer _mutationBuffer].
    now rewrite <- app_assoc.
  - reflexivity.
  - unfold ret. now rewrite app_nil_r, with_buffer_id.
Qed.

Lemma recordMutations_run ms : forall w,
  for_each ms recordMutation w =
  (with_buffer (_mutationBuffer (fxt w) ++ flat_map noticesOf ms) w, inr tt).
Proof.
  induction ms as [|m ms IH]; intros w; cbn [for_each flat_map].
  - cbn. now rewrite app_nil_r, with_buffer_id.
  - unfold bind. rewrite recordMutation_run, IH.
    cbn [with_buffer fxt set_mutationBuffer _mutationBuffer].
    now rewrite <- app_assoc.
Qed.

(** X15, the observer callback of [observeMutations]: the buffer grows by
    the notices of the mutation records, in order: for a child-list
    record the added element nodes, then the removed ones; for an
    attribute record one notice; nothing for text nodes and for
    character data. The event queue is not touched. *)
Theorem mutation_notices_in_order (w : World) (ms : list MutationRecord) :
  _mutationBuffer (fxt (exec (onMutations ms) w)) =
    _mutationBuffer (fxt w) ++ flat_map noticesOf ms /\
  _events (fxt (exec (onMutations ms) w)) = _events (fxt w).
Proof.
  unfold onMutations. rewrite exec_guarded. unfold exec, bind.
  rewrite recordMutations_run. unfold the_fxt, setTimer, bind, the_host,
    upd_host, upd, ret.
  cbn. destruct (_mutationTimer (fxt w)); split; reflexivity.
Qed.

(** ** Handlers of the form *)

Lemma recordOf_alter f k w :
  lookupField k (store w) = Some (recordOf k w) ->
  recordOf k (exec (mutate k f) w) = f (recordOf k w).
Proof.
  intros H. unfold recordOf at 1, mutate, exec, upd, store. cbn.
  unfold store in H. now rewrite lookupField_alter, bool_decide_eq_true_2, H.
Qed.

(** X16, [onKeyDown]: a key press sends nothing and enqueues nothing. On
    an input or a textarea, Backspace and Delete raise the backspace
    count of the field by one; any other key only makes sure that the
    field has a record and leaves its counters as they are (the key
    itself is recorded nowhere); on any other element the world is
    unchanged. *)
Theorem keydown_counts_deletions (w : World) (el : Element) (key : string) :
  let k := cssPath el in
  let w' := exec (onKeyDown el key) w in
  _events (fxt w') = _events (fxt w) /\ host w' = host w /\
  (el_tag el = "input" \/ el_tag el = "textarea" ->
   (key = "Backspace" \/ key = "Delete" ->
    recordOf k w' =
    set_backspaceCount (S (backspaceCount (recordOf k w))) (recordOf k w)) /\
   (key <> "Backspace" -> key <> "Delete" -> recordOf k w' = recordOf k w)) /\
  (el_tag el <> "input" -> el_tag el <> "textarea" -> w' = w).
Proof.
  intros k w'. subst w'. unfold onKeyDown. fold k.
  destruct (initFieldMetrics_run k w) as (Ho & Hl & _ & _ & Hh).
  assert (_events (fxt (exec (initFieldMetrics k) w)) = _events (fxt w)) as He.
  { unfold initFieldMetrics, exec, bind, the_fxt. cbn.
    now destruct (lookupField k (_fieldMetrics (fxt w))). }
  assert (recordOf k (exec (initFieldMetrics k) w) = recordOf k w) as Hr
    by (unfold recordOf at 1; now rewrite Hl).
  repeat case_bool_decide; cbn [orb]; rewrite ?exec_after by exact Ho;
    repeat split; intros; try tauto; try congruence;
    try (rewrite recordOf_alter by (now rewrite Hr); now rewrite Hr);
    try exact Hr; try exact He; try exact Hh;
    try (intuition congruence).
Qed.

Lemma onInvalid_run el w :
  let k := cssPath el in
  lookupField k (store (exec (onInvalid el) w)) =
  Some (set_validationFailures (S (validationFailures (recordOf k w)))
                               (recordOf k w)).
Proof.
  intros k. unfold onInvalid. fold k. rewrite exec_bind.
  destruct (initFieldMetrics_run k w) as (-> & Hl & _).
  generalize dependent (exec (initFieldMetrics k) w).
  generalize (recordOf k w). intros m w1 Hl. unfold store in *.
  run_handler. past_enqueue;
    change (_fieldMetrics (fxt ?w)) with (store w);
    rewrite ?enqueue_store; unfold store;
    cbn -[lookupField alterField cssPath];
    rewrite !lookupField_alter, !bool_decide_eq_true_2, Hl by done;
    reflexivity.
Qed.

Lemma onChange_failures el v w :
  let k := cssPath el in
  el_validity el = Some v -> valid v = false ->
  exists m',
    lookupField k (store (exec (onChange el) w)) = Some m' /\
    validationFailures m' = S (validationFailures (recordOf k w)) /\
    lastError m' = Some v.
Proof.
  intros k Hv Hinv. unfold onChange. fold k. rewrite exec_bind.
  destruct (initFieldMetrics_run k w) as (-> & Hl & _).
  generalize dependent (exec (initFieldMetrics k) w).
  generalize (recordOf k w). intros m w1 Hl. unfold store in *. run_handler.
  rewrite Hv, Hinv, !lookupField_alter, !bool_decide_eq_true_2, Hl by done.
  cbn -[enqueue lookupField alterField cssPath valueSummaryForElement].
  match goal with |- context [if ?c then (fun _ => _) else _] => destruct c end;
    cbn -[enqueue lookupField alterField cssPath valueSummaryForElement];
    past_enqueue;
    change (_fieldMetrics (fxt ?w)) with (store w);
    rewrite ?enqueue_store; unfold store;
    cbn -[enqueue lookupField alterField cssPath valueSummaryForElement];
    rewrite !lookupField_alter, !bool_decide_eq_true_2, Hl by done;
    cbn; eexists; (split; [reflexivity|]); cbn; auto.
Qed.

(** X17, [onChange] and [onInvalid]: a change to a value that fails
    validation counts one validation failure, and the [invalid] event for
    the same value counts one more. One rejected value that is submitted
    once stands at two failures. *)
Theorem invalid_value_counts_twice (w : World) (el : Element) (v : Validity) :
  el_validity el = Some v -> valid v = false ->
  let k := cssPath el in
  let w1 := exec (onChange el) w in
  let w2 := exec (onInvalid el) w1 in
  validationFailures (recordOf k w1) = S (validationFailures (recordOf k w)) /\
  validationFailures (recordOf k w2) =
    S (S (validationFailures (recordOf k w))) /\
  lastError (recordOf k w2) = Some v.
Proof.
  intros Hv Hinv k w1 w2.
  destruct (onChange_failures el v w Hv Hinv) as (m1 & Hl1 & Hf1 & He1).
  fold k w1 in Hl1. pose proof (recordOf_lookup _ _ _ Hl1) as Hr1.
  pose proof (onInvalid_run el w1) as Hl2. cbv zeta in Hl2. fold k w2 in Hl2.
  pose proof (recordOf_lookup _ _ _ Hl2) as Hr2.
  rewrite Hr2, Hr1. cbn. rewrite Hf1. auto.
Qed.

Lemma invalid_value_counts_twice_witness :
  el_validity (validated false [65%N]) = Some mismatch /\
  valid mismatch = false /\
  validationFailures
    (recordOf (cssPath (validated false [65%N]))
       (exec (onInvalid (validated false [65%N]))
             (exec (onChange (validated false [65%N])) started))) =
  S (S (validationFailures
          (recordOf (cssPath (validated false [65%N])) started))).
Proof.
  split; [reflexivity|]. split; [reflexivity|].
  destruct (invalid_value_counts_twice started (validated false [65%N])
              mismatch eq_refl eq_refl) as (_ & E & _).
  exact E.
Defined.

Lemma calls_focus el n : forall w,
  focusCount (recordOf (cssPath el) (calls n (onFocus el) w)) =
  (focusCount (recordOf (cssPath el) w) + n)%nat.
Proof.
  induction n as [|n IH]; intros w.
  - change (calls 0 (onFocus el) w) with w. lia.
  - change (calls (S n) (onFocus el) w)
      with (exec (onFocus el) (calls n (onFocus el) w)).
    destruct (onFocus_run el (calls n (onFocus el) w)) as [Hl _].
    rewrite (recordOf_lookup _ _ _ Hl). cbn. rewrite IH. lia.
Qed.

(** X18, [onFocus] under [attachFormListeners]: a focus event raises the
    focus count of the field by the number of focus listeners registered
    on the form. *)
Theorem focus_counted_once_per_listener
    (w : World) (f : FormId) (el : Element) :
  focusCount (recordOf (cssPath el) (react (Dispatch f EFocus el) w)) =
  (focusCount (recordOf (cssPath el) w) + registered (OnFocus f) w)%nat.
Proof. cbn [react listenerOf handlerOf]. apply calls_focus. Qed.

(** ** Start and restart *)

Lemma init_run w opts :
  _isInitialized (fxt w) = false ->
  let form := querySelector (host w) (formSelector (assign DEFAULTS opts)) in
  form <> QInvalid ->
  exec (init opts) w =
  exec initRest (exec (initForm form) (exec (initAssignments opts) w)).
Proof.
  intros Hi form Hq. unfold init, exec, bind at 1, the_fxt at 1. rewrite Hi.
  unfold initRest, initForm, initAssignments.
  run_init. fold form.
  destruct form eqn:Q; [congruence| |];
    cbn -[enqueue assign];
    try destruct (hasMutationObserver (host w));
    cbn -[enqueue assign]; reflexivity.
Qed.

#[global] Instance same_registered_preorder l : PreOrder (same_registered l).
Proof.
  split.
  - intros w. reflexivity.
  - intros a b c H1 H2. unfold same_registered in *. congruence.
Qed.

#[global] Instance same_api_preorder : PreOrder same_api.
Proof.
  split.
  - intros w. reflexivity.
  - intros a b c H1 H2. unfold same_api in *. congruence.
Qed.

Lemma registered_of_quiet {A} l (m : M A) :
  preserves same_quiet m -> preserves (same_registered l) m.
Proof.
  intros H w. unfold same_registered, registered.
  assert (listeners (host (exec m w)) = listeners (host w)) as ->
    by exact (f_equal (fun u => listeners (host u)) (H w)).
  reflexivity.
Qed.
#[global] Hint Resolve registered_of_quiet | 20 : frame.

Lemma api_of_quiet {A} (m : M A) :
  preserves same_quiet m -> preserves same_api m.
Proof.
  intros H w. exact (f_equal (fun u => stepTransition (fxt u)) (H w)).
Qed.
#[global] Hint Resolve api_of_quiet | 20 : frame.

(** [frame] for [same_registered l] and [same_api]: an assignment that
    registers another listener, or none, and one that does not define the
    method. *)
Ltac registrations :=
  repeat first
    [ progress frame
    | match goal with
      | |- preserves (same_registered _) _ =>
          let w := fresh "w" in
          intros w; unfold same_registered, registered; cbn;
          rewrite ?filter_app, ?length_app, ?filter_cons, ?filter_nil;
          repeat (case_decide; try congruence); cbn; lia
      | |- preserves same_api _ =>
          let w := fresh "w" in intros w; reflexivity
      end ].

Lemma initRest_registered f e :
  preserves (same_registered (listenerOf f e)) initRest.
Proof.
  unfold initRest, wrapConsole, wireWindowErrors, wrapFetch, wrapXHR,
    addEventListener, scheduleFlush, setTimer.
  destruct e; cbn [listenerOf]; registrations.
Qed.

Lemma initRest_api : preserves same_api initRest.
Proof.
  unfold initRest, wrapConsole, wireWindowErrors, wrapFetch, wrapXHR,
    addEventListener, scheduleFlush, setTimer.
  registrations.
Qed.

Lemma stop_registered l : preserves (same_registered l) stop.
Proof. unfold stop, disconnect, clearTimeout. registrations. Qed.

Lemma stop_caps : preserves same_caps stop.
Proof. unfold stop, disconnect, clearTimeout. frame. Qed.

Lemma initForm_registers f e w :
  registered (listenerOf f e) (exec (initForm (QForm f)) w) =
  S (registered (listenerOf f e) w).
Proof.
  unfold initForm, attachFormListeners, observeMutations, addEventListener,
    exec, bind, the_host, upd_host, upd, ret, registered.
  cbn. destruct (hasMutationObserver (host w)); cbn;
    rewrite !filter_app, !length_app, !filter_cons, !filter_nil;
    destruct e; cbn [listenerOf];
    repeat (case_decide; try congruence); cbn; lia.
Qed.

(** X19, [stop] followed by [init]: [stop] removes no listener and [init]
    attaches the seven form listeners again, so after a restart on the
    same form every form listener is registered once more than before. *)
Theorem restart_registers_listeners_again
    (w : World) (opts : Opts) (f : FormId) (e : FormEvent) :
  querySelector (host w) (formSelector (assign DEFAULTS opts)) = QForm f ->
  registered (listenerOf f e) (exec (init opts) (exec stop w)) =
  S (registered (listenerOf f e) w).
Proof.
  intros Hq. destruct (stop_caps w) as [_ Hc].
  rewrite init_run; [|apply stop_clears_flag|rewrite Hc, Hq; discriminate].
  cbv zeta. rewrite Hc, Hq, initRest_registered, initForm_registers.
  change (registered ?l (exec (initAssignments opts) ?u))
    with (registered l u).
  now rewrite stop_registered.
Qed.

Lemma restart_registers_listeners_again_witness :
  querySelector (host started) (formSelector (assign DEFAULTS no_opts)) =
    QForm 0%nat /\
  registered (listenerOf 0%nat EFocus)
             (exec (init no_opts) (exec stop started)) =
  S (registered (listenerOf 0%nat EFocus) started).
Proof.
  assert (querySelector (host started) (formSelector (assign DEFAULTS no_opts))
          = QForm 0%nat) as H by (vm_compute; reflexivity).
  split; [exact H|].
  exact (restart_registers_listeners_again started no_opts 0%nat EFocus H).
Defined.

(** X20, [FXT.stepTransition]: the method is defined by
    [attachFormListeners] only. After an [init] whose selector matches no
    element, a call of [FXT.stepTransition] raises a [TypeError]. *)
Theorem stepTransition_needs_a_form
    (w : World) (opts : Opts) (from to : option string) :
  _isInitialized (fxt w) = false -> stepTransition (fxt w) = false ->
  querySelector (host w) (formSelector (assign DEFAULTS opts)) = QNone ->
  outcome (callStepTransition from to) (exec (init opts) w) =
  inl (TypeError "stepTransition").
Proof.
  intros Hi Hs Hq.
  assert (stepTransition (fxt (exec (init opts) w)) = false) as H.
  { rewrite init_run; [|exact Hi|rewrite Hq; discriminate]. cbv zeta.
    rewrite Hq, initRest_api. exact Hs. }
  unfold callStepTransition, outcome, bind, the_fxt. cbn. now rewrite H.
Qed.

Lemma stepTransition_needs_a_form_witness :
  _isInitialized (fxt (loaded browser)) = false /\
  stepTransition (fxt (loaded browser)) = false /\
  querySelector (host (loaded browser))
    (formSelector (assign DEFAULTS (with_selector "#none"))) = QNone /\
  outcome (callStepTransition None None)
          (exec (init (with_selector "#none")) (loaded browser)) =
  inl (TypeError "stepTransition").
Proof.
  split; [reflexivity|]. split; [reflexivity|]. split; [reflexivity|].
  exact (stepTransition_needs_a_form (loaded browser) (with_selector "#none")
           None None eq_refl eq_refl eq_refl).
Defined.

(** ** Observers *)

#[global] Instance same_observers_preorder : PreOrder same_observers.
Proof.
  split.
  - intros w. repeat split.
  - intros a b c (A1 & A2 & A3) (B1 & B2 & B3).
    unfold same_observers. repeat split; congruence.
Qed.

Lemma observers_of_quiet {A} (m : M A) :
  preserves same_quiet m -> preserves same_observers m.
Proof.
  intros H w. specialize (H w). repeat split.
  - exact (f_equal (fun u => observers (host u)) H).
  - exact (f_equal (fun u => _mo (fxt u)) H).
  - exact (f_equal (fun u => _isInitialized (fxt u)) H).
Qed.
#[global] Hint Resolve observers_of_quiet | 20 : frame.

(** [frame] for [same_observers]. *)
Ltac observers :=
  repeat first
    [ progress frame
    | match goal with
      | |- preserves same_observers _ =>
          let w := fresh "w" in intros w; repeat split
      end ].

Lemma settle_observers r p : preserves same_observers (settle r p).
Proof.
  unfold settle, flushSettled, flushCatch.
  assert (forall n p, preserves same_observers (wrapFetchLayers n p)) as H.
  { induction n as [|n IH]; intros q; cbn [wrapFetchLayers];
      unfold wrapFetchLayer, wrapFetchCatch, errorEvent; observers. }
  observers.
Qed.
#[global] Hint Resolve settle_observers : frame.

Lemma initRest_observers : preserves same_observers initRest.
Proof.
  unfold initRest, wrapConsole, wireWindowErrors, wrapFetch, wrapXHR,
    addEventListener, scheduleFlush, setTimer.
  observers.
Qed.

Lemma observers_ok_same w w' :
  same_observers w w' -> observers_ok w -> observers_ok w'.
Proof.
  intros (E1 & E2 & E3) [H1 H2 H3].
  split; rewrite ?E1, ?E2, ?E3; assumption.
Qed.

Lemma react_same_observers l w :
  notInit l -> l <> CallStop -> same_observers w (react l w).
Proof.
  intros Hl Hs. destruct l; cbn [react]; [destruct Hl|congruence|..];
    try (apply (preserves_calls same_observers));
    try as_preserves same_observers.
  - unfold callStepTransition. observers.
  - observers.
  - observers.
  - destruct e; cbn;
      unfold onFocus, onBlur, onChange, onInvalid, onFormClick, onKeyDown,
        onPaste, initFieldMetrics, mutate; observers.
  - destruct ms; [reflexivity|]. destruct (connected mo w); [|reflexivity].
    as_preserves same_observers.
    unfold onMutations, recordMutation, pushMutation, setTimer. observers.
  - destruct (timerKind i w) as [[]|]; [| | |reflexivity];
      as_preserves same_observers;
      unfold expire, flushTick, mutationTick, heartbeat, scheduleFlush,
        setTimer; observers.
  - destruct (inflight (host w) !! n) as [r|]; [|reflexivity].
    as_preserves same_observers. observers.
  - destruct (hasFetch (host w)); [|reflexivity].
    as_preserves same_observers. observers.
  - unfold xhrLayer, errorEvent. observers.
  - unfold consoleErrorLayer, errorEvent. observers.
  - unfold onWindowError, errorEvent. observers.
  - unfold onUnhandledRejection, errorEvent. observers.
  - unfold onBeforeUnload. observers.
  - unfold onVisibilityChange. observers.
Qed.

Lemma stop_observers w :
  observers (host (exec stop w)) =
    match _mo (fxt w) with
    | Some mo =>
        map (fun o => if bool_decide (o.1.1 = mo) then (o.1, false) else o)
            (observers (host w))
    | None => observers (host w)
    end /\
  _mo (fxt (exec stop w)) = _mo (fxt w) /\
  _isInitialized (fxt (exec stop w)) = false.
Proof.
  assert (preserves same_observers
            (guarded (sendFieldMetricsSummary "stop" ;;
                      evt <- makeEvent "session-end" (DSessionEnd "stop") ;;
                      enqueue evt ;; flush))) as H by observers.
  set (w1 := exec (x <- the_fxt ;;
                   match _mo x with
                   | Some mo => disconnect mo
                   | None => ret tt
                   end ;;
                   upd (set_isInitialized false) ;;
                   clearTimeout (_flushTimer x)) w).
  assert (exec stop w =
          exec (guarded (sendFieldMetricsSummary "stop" ;;
                         evt <- makeEvent "session-end" (DSessionEnd "stop") ;;
                         enqueue evt ;; flush)) w1) as ->.
  { subst w1.
    unfold stop, exec, guarded, try_catch, bind at 1 2 3 4 5 6 7 8, the_fxt.
    cbn -[sendFieldMetricsSummary enqueue flush makeEvent].
    destruct (_mo (fxt w)), (_flushTimer (fxt w));
      cbn -[sendFieldMetricsSummary enqueue flush makeEvent]; reflexivity. }
  destruct (H w1) as (-> & -> & ->). subst w1.
  unfold exec, bind, the_fxt. cbn.
  destruct (_mo (fxt w)) eqn:Em, (_flushTimer (fxt w)); cbn;
    rewrite ?Em; repeat split.
Qed.

Lemma stop_all_disconnected w :
  observers_ok w ->
  forall o, o ∈ observers (host (exec stop w)) -> o.2 = false.
Proof.
  intros [_ Hc _] o. destruct (stop_observers w) as (-> & _ & _).
  destruct (_mo (fxt w)) as [mo|] eqn:E.
  - intros (o' & -> & Hin)%list_elem_of_fmap.
    case_bool_decide as Hmo; [reflexivity|].
    destruct (o'.2) eqn:Ho; [|reflexivity].
    specialize (Hc o' Hin Ho). congruence.
  - intros Hin. destruct (o.2) eqn:Ho; [|reflexivity].
    specialize (Hc o Hin Ho). congruence.
Qed.

Lemma stop_observers_ok w : observers_ok w -> observers_ok (exec stop w).
Proof.
  intros Hw. pose proof (stop_all_disconnected w Hw) as Hall.
  destruct (stop_observers w) as (Eo & Em & Ei). destruct Hw as [Hx _ _].
  split.
  - intros i o. rewrite Eo. destruct (_mo (fxt w)) as [mo|]; [|apply Hx].
    rewrite list_lookup_fmap.
    destruct (observers (host w) !! i) as [o'|] eqn:E; [|discriminate].
    intros [= <-]. specialize (Hx i o' E). now case_bool_decide.
  - intros o Hin Ho. rewrite (Hall o Hin) in Ho. discriminate.
  - intros _. exact Hall.
Qed.

Lemma init_run_invalid w opts :
  _isInitialized (fxt w) = false ->
  querySelector (host w) (formSelector (assign DEFAULTS opts)) = QInvalid ->
  exec (init opts) w = exec (initAssignments opts) w.
Proof.
  intros Hi Hq. unfold init, exec, bind at 1, the_fxt at 1. rewrite Hi.
  unfold initAssignments. run_init. now rewrite Hq.
Qed.

Lemma started_observers_ok w1 w :
  observers_ok w -> _isInitialized (fxt w) = false ->
  observers (host w1) = observers (host w) ->
  observers_ok w1.
Proof.
  intros [Hx _ Hs] Hi E. specialize (Hs Hi). split; rewrite E.
  - exact Hx.
  - intros o Hin Ho. rewrite (Hs o Hin) in Ho. discriminate.
  - intros _. exact Hs.
Qed.

Lemma initForm_observers_ok form w1 w :
  observers_ok w -> _isInitialized (fxt w) = false ->
  observers (host w1) = observers (host w) ->
  _isInitialized (fxt w1) = true ->
  observers_ok (exec (initForm form) w1).
Proof.
  intros Hw Hi E Hi1.
  destruct form as [| |f]; cbn [initForm];
    try exact (started_observers_ok w1 w Hw Hi E).
  unfold attachFormListeners, observeMutations, addEventListener, exec, bind,
    the_host, upd_host, upd, ret.
  cbn. destruct (hasMutationObserver (host w1)); cbn.
  2: { apply (started_observers_ok _ w Hw Hi). exact E. }
  destruct Hw as [Hx _ Hs]. specialize (Hs Hi). split; cbn; rewrite E.
  - intros i o Hl. apply lookup_app_Some in Hl as [Hl|[Hlen Hl]].
    + now apply Hx.
    + apply list_lookup_singleton_Some in Hl as [Hz <-]. cbn.
      apply Nat.le_antisymm; [exact Hlen|apply Nat.sub_0_le; exact Hz].
  - intros o [Hin| ->%list_elem_of_singleton]%elem_of_app Ho.
    + rewrite (Hs o Hin) in Ho. discriminate.
    + reflexivity.
  - intros Hf. cbn in Hi1. congruence.
Qed.

Lemma init_observers_ok opts w :
  observers_ok w -> observers_ok (exec (init opts) w).
Proof.
  intros Hw. destruct (_isInitialized (fxt w)) eqn:Hi.
  { unfold exec. now rewrite init_when_initialized. }
  destruct (querySelector (host w) (formSelector (assign DEFAULTS opts)))
    eqn:Hq.
  - rewrite init_run_invalid by assumption.
    now apply (started_observers_ok _ w Hw Hi).
  - rewrite init_run by (rewrite ?Hq; congruence). cbv zeta. rewrite Hq.
    apply (observers_ok_same _ _ (initRest_observers _)).
    now apply (initForm_observers_ok _ _ w Hw Hi).
  - rewrite init_run by (rewrite ?Hq; congruence). cbv zeta. rewrite Hq.
    apply (observers_ok_same _ _ (initRest_observers _)).
    now apply (initForm_observers_ok _ _ w Hw Hi).
Qed.

Lemma react_observers_ok l w : observers_ok w -> observers_ok (react l w).
Proof.
  intros Hw. destruct l; try (apply (observers_ok_same w); [|exact Hw];
    apply react_same_observers; [exact I|discriminate]).
  - now apply init_observers_ok.
  - now apply stop_observers_ok.
Qed.

Lemma reachable_observers_ok w : reachable w -> observers_ok w.
Proof.
  induction 1 as [h (_ & _ & Ho & _)|l w _ IH].
  - split; cbn; rewrite Ho; intros; try discriminate;
      exfalso; eapply elem_of_nil; eauto.
  - now apply react_observers_ok.
Qed.

(** X21, [stop] and [observeMutations]: in a reachable state [stop]
    leaves no mutation observer connected (the only observer that can be
    connected is the one [FXT._mo] holds), so mutations delivered after
    [stop] change nothing. *)
Theorem stop_disconnects_the_observer
    (w : World) (mo : ObserverId) (ms : list MutationRecord) :
  reachable w ->
  connected mo (react CallStop w) = false /\
  react (Mutations mo ms) (react CallStop w) = react CallStop w.
Proof.
  intros Hw%reachable_observers_ok.
  assert (connected mo (react CallStop w) = false) as H.
  { unfold connected. apply bool_decide_eq_false.
    intros (o & Hin & _ & Ho)%Exists_exists.
    rewrite (stop_all_disconnected w Hw o Hin) in Ho. discriminate. }
  split; [exact H|]. cbn [react] in *. destruct ms; [reflexivity|].
  now rewrite H.
Qed.

Lemma stop_disconnects_the_observer_witness :
  reachable started /\
  connected 0%nat (react CallStop started) = false.
Proof.
  split; [apply reachable_started|].
  destruct (stop_disconnects_the_observer started 0%nat [] reachable_started)
    as [E _].
  exact E.
Defined.

(** ** Fields that are never written *)

#[global] Instance same_start_preorder : PreOrder same_start.
Proof.
  split.
  - intros w. reflexivity.
  - intros a b c H1 H2. unfold same_start in *. congruence.
Qed.

#[global] Instance same_config_preorder : PreOrder same_config.
Proof.
  split.
  - intros w. reflexivity.
  - intros a b c H1 H2. unfold same_config in *. congruence.
Qed.

Lemma start_of_quiet {A} (m : M A) :
  preserves same_quiet m -> preserves same_start m.
Proof. intros H w. exact (f_equal (fun u => _startedAt (fxt u)) (H w)). Qed.
#[global] Hint Resolve start_of_quiet | 20 : frame.

Lemma config_of_quiet {A} (m : M A) :
  preserves same_quiet m -> preserves same_config m.
Proof. intros H w. exact (f_equal (fun u => _config (fxt u)) (H w)). Qed.
#[global] Hint Resolve config_of_quiet | 20 : frame.

(** [frame] for [same_start] and [same_config]: assignments to other
    fields. *)
Ltac untouched :=
  repeat first
    [ progress frame
    | match goal with
      | |- preserves same_start _ =>
          let w := fresh "w" in intros w; reflexivity
      | |- preserves same_config _ =>
          let w := fresh "w" in intros w; reflexivity
      end ].

Lemma settle_start r p : preserves same_start (settle r p).
Proof.
  unfold settle, flushSettled, flushCatch.
  assert (forall n p, preserves same_start (wrapFetchLayers n p)) as H.
  { induction n as [|n IH]; intros q; cbn [wrapFetchLayers];
      unfold wrapFetchLayer, wrapFetchCatch, errorEvent; untouched. }
  untouched.
Qed.
#[global] Hint Resolve settle_start : frame.

Lemma stop_config : preserves same_config stop.
Proof. unfold stop, disconnect, clearTimeout. untouched. Qed.

Lemma react_start l w : same_start w (react l w).
Proof.
  destruct l; cbn [react];
    try (apply (preserves_calls same_start));
    try as_preserves same_start.
  - unfold init, makeSessionId, locateForm, attachFormListeners,
      observeMutations, wrapConsole, wireWindowErrors, wrapFetch, wrapXHR,
      addEventListener, scheduleFlush, setTimer.
    untouched.
  - unfold stop, disconnect, clearTimeout. untouched.
  - unfold callStepTransition. untouched.
  - untouched.
  - untouched.
  - destruct e; cbn;
      unfold onFocus, onBlur, onChange, onInvalid, onFormClick, onKeyDown,
        onPaste, initFieldMetrics, mutate; untouched.
  - destruct ms; [reflexivity|]. destruct (connected mo w); [|reflexivity].
    as_preserves same_start.
    unfold onMutations, recordMutation, pushMutation, setTimer. untouched.
  - destruct (timerKind i w) as [[]|]; [| | |reflexivity];
      as_preserves same_start;
      unfold expire, flushTick, mutationTick, heartbeat, scheduleFlush,
        setTimer; untouched.
  - destruct (inflight (host w) !! n) as [r|]; [|reflexivity].
    as_preserves same_start. untouched.
  - destruct (hasFetch (host w)); [|reflexivity].
    as_preserves same_start. untouched.
  - unfold xhrLayer, errorEvent. untouched.
  - unfold consoleErrorLayer, errorEvent. untouched.
  - unfold onWindowError, errorEvent. untouched.
  - unfold onUnhandledRejection, errorEvent. untouched.
  - unfold onBeforeUnload. untouched.
  - unfold onVisibilityChange. untouched.
Qed.

Lemma run_start ls : forall w, same_start w (run ls w).
Proof.
  induction ls as [|l ls IH]; intros w; [reflexivity|]. cbn.
  transitivity (react l w); [apply react_start|apply IH].
Qed.

(** X22, [FXT._startedAt]: the field is set when the script is evaluated
    and no call or callback writes it again, [init] included. Every
    batch that [flush] hands to [fetch] carries that time as [startedAt],
    also in a session started later. *)
Theorem started_at_is_load_time (h : Host) (w : World) (ls : list Label) :
  _startedAt (fxt (run ls w)) = _startedAt (fxt w) /\
  _startedAt (fxt (run ls (loaded h))) = now (loaded h) /\
  (_events (fxt w) <> [] -> can_fetch w -> _isUnloading (fxt w) = false ->
   exists r body,
     inflight (host (exec flush w)) = inflight (host w) ++ [r] /\
     r_body r = Some body /\ p_startedAt body = _startedAt (fxt w)).
Proof.
  split; [apply run_start|]. split; [apply run_start|].
  intros Hne Hf Hu. unfold exec. rewrite flush_cases.
  destruct (_events (fxt w)) as [|e es] eqn:E; [done|]. cbv zeta.
  rewrite send_run. cbn [with_events host fxt].
  change (_isUnloading (set_events _ (fxt w))) with (_isUnloading (fxt w)).
  rewrite Hu, Hf.
  destruct (sendBeacon (host w)) as [[]|]; cbn; eexists _, _;
    (split; [reflexivity|split; reflexivity]).
Qed.

(** ** After stop *)

Lemma initFieldMetrics_queue k w :
  _events (fxt (exec (initFieldMetrics k) w)) = _events (fxt w) /\
  _config (fxt (exec (initFieldMetrics k) w)) = _config (fxt w).
Proof.
  unfold initFieldMetrics, exec, bind, the_fxt. cbn.
  now destruct (lookupField k (_fieldMetrics (fxt w))).
Qed.

Lemma onFocus_enqueues el w :
  Z.of_nat (length (_events (fxt w))) + 1 < batchSize (_config (fxt w)) ->
  map ev_type (_events (fxt (exec (onFocus el) w))) =
  map ev_type (_events (fxt w)) ++ ["focus"].
Proof.
  intros H. unfold onFocus. rewrite exec_bind.
  destruct (initFieldMetrics_run (cssPath el) w) as (-> & _).
  destruct (initFieldMetrics_queue (cssPath el) w) as [Ee Ec].
  rewrite <- Ee, <- Ec in H. rewrite <- Ee.
  generalize dependent (exec (initFieldMetrics (cssPath el)) w).
  intros w1 H. run_handler.
  rewrite enqueue_below by exact H. cbn. now rewrite map_app.
Qed.

Lemma stop_empties_queue w :
  Z.of_nat (length (_events (fxt w))) + 2 <= batchSize (_config (fxt w)) ->
  _events (fxt (exec stop w)) = [].
Proof.
  intros H. destruct (stop_run w H) as (w1 & _ & ->).
  now destruct (send_cases
                  (batchOf w (_events (fxt w) ++ farewell "stop" w))
                  (with_events [] w1)) as [-> _].
Qed.

(** X23, [stop] and the form listeners: [stop] empties the queue (when it
    has room for two more records) and leaves the listeners in place, so
    a focus event that follows is handled as before and puts a focus
    record into the queue. *)
Theorem collection_continues_after_stop
    (w : World) (f : FormId) (el : Element) :
  Z.of_nat (length (_events (fxt w))) + 2 <= batchSize (_config (fxt w)) ->
  registered (OnFocus f) w = 1%nat ->
  map ev_type
      (_events (fxt (react (Dispatch f EFocus el) (react CallStop w)))) =
  ["focus"].
Proof.
  intros Hle Hr. cbn [react listenerOf handlerOf].
  rewrite stop_registered, Hr.
  change (calls 1 ?m ?u) with (exec m u).
  rewrite onFocus_enqueues; rewrite stop_empties_queue by exact Hle;
    [reflexivity|].
  rewrite stop_config. cbn [length]. lia.
Qed.

Lemma collection_continues_after_stop_witness :
  Z.of_nat (length (_events (fxt started))) + 2 <=
    batchSize (_config (fxt started)) /\
  registered (OnFocus 0%nat) started = 1%nat /\
  map ev_type
      (_events (fxt (react (Dispatch 0%nat EFocus (inputA []))
                           (react CallStop started)))) =
  ["focus"].
Proof.
  assert (Z.of_nat (length (_events (fxt started))) + 2 <=
            batchSize (_config (fxt started))) as H1
    by (vm_compute; discriminate).
  assert (registered (OnFocus 0%nat) started = 1%nat) as H2
    by (vm_compute; reflexivity).
  split; [exact H1|]. split; [exact H2|].
  exact (collection_continues_after_stop started 0%nat (inputA []) H1 H2).
Defined.

(** ** Edge cases of the transport *)

(** X24, [enqueue] and [flush] with a batch size of zero or less: every
    [enqueue] sends a request whose batch is empty and the record stays
    in the queue. *)
Theorem nonpositive_batch_size_delivers_nothing (w : World) (e : Event) :
  batchSize (_config (fxt w)) <= 0 ->
  can_fetch w -> _isUnloading (fxt w) = false ->
  _events (fxt (exec (enqueue e) w)) = _events (fxt w) ++ [e] /\
  inflight (host (exec (enqueue e) w)) =
    inflight (host w) ++ [requestOf w (batchOf w [])] /\
  beacons (host (exec (enqueue e) w)) = beacons (host w).
Proof.
  intros Hb Hf Hu. unfold exec. rewrite enqueue_cases.
  destruct (_ >=? _) eqn:G.
  2: { rewrite Z.geb_leb in G. apply Z.leb_gt in G. lia. }
  rewrite flush_cases.
  change (_events (fxt (with_events ?evs w))) with evs.
  destruct (_events (fxt w) ++ [e]) as [|e0 es] eqn:E.
  { destruct (_events (fxt w)); discriminate. }
  cbv zeta.
  change (batchSize (_config (fxt (with_events (e0 :: es) w))))
    with (batchSize (_config (fxt w))).
  replace (Z.to_nat (batchSize (_config (fxt w)))) with 0%nat by lia.
  cbn [take drop]. rewrite send_run. cbn [with_events host fxt].
  change (_isUnloading (set_events _ (set_events _ (fxt w))))
    with (_isUnloading (fxt w)).
  rewrite Hu, Hf.
  destruct (sendBeacon (host w)) as [[]|]; cbn; repeat split.
Qed.

Lemma nonpositive_batch_size_delivers_nothing_witness :
  batchSize (_config (fxt zeroBatch)) <= 0 /\
  can_fetch zeroBatch /\
  _isUnloading (fxt zeroBatch) = false /\
  _events (fxt (exec (enqueue (ev 1)) zeroBatch)) =
    _events (fxt zeroBatch) ++ [ev 1].
Proof.
  assert (batchSize (_config (fxt zeroBatch)) <= 0) as H1
    by (vm_compute; discriminate).
  assert (can_fetch zeroBatch) as H2 by (vm_compute; reflexivity).
  assert (_isUnloading (fxt zeroBatch) = false) as H3
    by (vm_compute; reflexivity).
  split; [exact H1|]. split; [exact H2|]. split; [exact H3|].
  destruct (nonpositive_batch_size_delivers_nothing zeroBatch (ev 1) H1 H2 H3)
    as [E _].
  exact E.
Defined.

(** X25, [wrapFetch] and [wrapXHR]: the two wrappers report different
    responses. A [wrapFetch] layer enqueues an [httpError] record for
    every status outside 200..299, a [wrapXHR] layer only for a status of
    400 or more; a response with status 304 is reported by the first and
    not by the second. *)
Theorem http_error_thresholds_differ (w : World) (status : Z) :
  Z.of_nat (length (_events (fxt w))) + 1 < batchSize (_config (fxt w)) ->
  (200 <= status <= 299 ->
   _events (fxt (exec (wrapFetchLayer (Fulfilled status)) w)) =
     _events (fxt w)) /\
  (status < 200 \/ 299 < status ->
   _events (fxt (exec (wrapFetchLayer (Fulfilled status)) w)) =
     _events (fxt w) ++ [networkError "httpError" w]) /\
  (status < 400 ->
   _events (fxt (exec (xhrLayer (Some status)) w)) = _events (fxt w)) /\
  (400 <= status ->
   _events (fxt (exec (xhrLayer (Some status)) w)) =
     _events (fxt w) ++ [networkError "httpError" w]).
Proof.
  intros H. unfold exec. rewrite wrapFetchLayer_below by exact H.
  cbn [xhrLayer reports fst with_events fxt set_events _events].
  unfold res_ok. repeat split; intros Hs.
  - replace ((200 <=? status) && (status <=? 299)) with true
      by (symmetry; apply andb_true_iff; split; apply Z.leb_le; lia).
    apply app_nil_r.
  - replace ((200 <=? status) && (status <=? 299)) with false; [reflexivity|].
    symmetry. apply andb_false_iff.
    destruct Hs; [left|right]; apply Z.leb_gt; lia.
  - replace (400 <=? status) with false by (symmetry; apply Z.leb_gt; lia).
    reflexivity.
  - replace (400 <=? status) with true by (symmetry; apply Z.leb_le; lia).
    now rewrite errorEvent_below.
Qed.

Lemma http_error_thresholds_differ_witness :
  Z.of_nat (length (_events (fxt started))) + 1 <
    batchSize (_config (fxt started)) /\
  _events (fxt (exec (wrapFetchLayer (Fulfilled 304)) started)) =
    _events (fxt started) ++ [networkError "httpError" started] /\
  _events (fxt (exec (xhrLayer (Some 304)) started)) = _events (fxt started).
Proof.
  assert (Z.of_nat (length (_events (fxt started))) + 1 <
            batchSize (_config (fxt started))) as H
    by (vm_compute; reflexivity).
  split; [exact H|].
  destruct (http_error_thresholds_differ started 304 H) as (_ & E1 & E2 & _).
  split; [apply E1; right; reflexivity|apply E2; reflexivity].
Defined.

(** ** No record is lost *)

#[global] Instance carries_preorder : PreOrder carries.
Proof.
  split.
  - intros w. split; [reflexivity|]. intros _. reflexivity.
  - intros a b c [F1 H1] [F2 H2]. split; [congruence|]. intros Hf.
    transitivity (outbox b); [now apply H1|]. apply H2. congruence.
Qed.

Lemma flush_carries : preserves carries flush.
Proof.
  intros w. unfold exec. rewrite flush_cases.
  destruct (_events (fxt w)) as [|e es] eqn:E; [reflexivity|]. cbv zeta.
  rewrite send_run, <- E. cbn [with_events host fxt].
  change (_isUnloading (set_events _ (fxt w))) with (_isUnloading (fxt w)).
  set (n := Z.to_nat _). unfold carries, outbox.
  assert (forall X Y : list Event,
            _events (fxt w) ++ X ⊆+
            drop n (_events (fxt w)) ++ X ++ take n (_events (fxt w)) ++ Y)
    as Hmove.
  { intros X Y. rewrite <- (take_drop n (_events (fxt w))) at 1.
    solve_submseteq. }
  destruct (sendBeacon (host w)) as [[]|], (_isUnloading (fxt w)),
    (hasFetch (host w)) eqn:F;
    cbn [fst fxt host _events set_events set_lastFlush inflight set_inflight
         beacons set_beacons hasFetch with_events];
    rewrite ?F; (split; [reflexivity|]); intros Hf; try discriminate;
    rewrite ?flat_map_app;
    cbn [flat_map bodyOf requestOf r_body p_events batchOf];
    rewrite ?app_nil_r.
  all: etransitivity; [apply (Hmove _ [])|]; solve_submseteq.
Qed.
#[global] Hint Resolve flush_carries : frame.

Lemma enqueue_carries e : preserves carries (enqueue e).
Proof.
  intros w. unfold exec. rewrite enqueue_cases.
  assert (carries w (with_events (_events (fxt w) ++ [e]) w)) as H.
  { split; [reflexivity|]. intros _. unfold outbox. cbn. solve_submseteq. }
  destruct (_ >=? _); [|exact H].
  etransitivity; [exact H|apply flush_carries].
Qed.
#[global] Hint Resolve enqueue_carries : frame.

(** [frame] for [carries]: an assignment that adds records to the queue,
    or touches none of the three places. *)
Ltac carries :=
  repeat first
    [ progress frame
    | match goal with
      | |- preserves carries _ =>
          let w := fresh "w" in
          intros w; split; [reflexivity|]; intros _;
          unfold outbox; cbn; rewrite ?flat_map_app; cbn;
          solve_submseteq
      end ].

Lemma settle_carries r p : preserves carries (settle r p).
Proof.
  unfold settle, flushSettled, flushCatch.
  assert (forall n p, preserves carries (wrapFetchLayers n p)) as H.
  { induction n as [|n IH]; intros q; cbn [wrapFetchLayers];
      unfold wrapFetchLayer, wrapFetchCatch, errorEvent; carries. }
  carries.
Qed.

Lemma outbox_delete w n r :
  inflight (host w) !! n = Some r ->
  outbox w ≡ₚ
  bodyOf r ++
  outbox (exec (upd_host (fun h => set_inflight (delete n (inflight h)) h)) w).
Proof.
  intros H. unfold outbox. cbn.
  rewrite (Permutation_flat_map bodyOf (delete_Permutation _ _ _ H)).
  cbn [flat_map]. solve_Permutation.
Qed.

Lemma settle_rejected_carries w n r :
  hasFetch (host w) = true ->
  inflight (host w) !! n = Some r ->
  outbox w ⊆+
  outbox (exec (upd_host (fun h => set_inflight (delete n (inflight h)) h) ;;
                settle r Rejected) w).
Proof.
  intros Hf Hr. rewrite exec_after by reflexivity.
  set (w1 := exec (upd_host _) w).
  rewrite (outbox_delete w n r Hr). fold w1.
  assert (can_fetch w1) as Hf1 by exact Hf.
  unfold settle. rewrite exec_bind, (wrapFetchLayers_outcome _ _ _ Hf1).
  assert (forall k p, preserves carries (wrapFetchLayers k p)) as Hl.
  { induction k as [|k IH]; intros q; cbn [wrapFetchLayers];
      unfold wrapFetchLayer, wrapFetchCatch, errorEvent; carries. }
  destruct (Hl (r_wraps r) Rejected w1) as [_ Hc]. specialize (Hc Hf).
  set (w2 := exec (wrapFetchLayers (r_wraps r) Rejected) w1) in *.
  unfold bodyOf. destruct (r_body r) as [body|]; cbn [app].
  - unfold flushSettled, flushCatch, exec, bind, logDebug, upd, ret, outbox.
    cbn. rewrite <- app_assoc. apply submseteq_app; [reflexivity|exact Hc].
  - exact Hc.
Qed.

Lemma react_carries l w :
  (forall n status, l <> Settle n (Fulfilled status)) ->
  carries w (react l w).
Proof.
  intros Hl.
  destruct l; cbn [react]; try apply (preserves_calls carries);
    try as_preserves carries.
  - unfold init, makeSessionId, locateForm, attachFormListeners,
      observeMutations, wrapConsole, wireWindowErrors, wrapFetch, wrapXHR,
      addEventListener, scheduleFlush, setTimer.
    carries.
  - unfold stop, disconnect, clearTimeout. carries.
  - unfold callStepTransition. carries.
  - carries.
  - carries.
  - destruct e; cbn;
      unfold onFocus, onBlur, onChange, onInvalid, onFormClick, onKeyDown,
        onPaste, initFieldMetrics, mutate; carries.
  - destruct ms; [reflexivity|]. destruct (connected mo w); [|reflexivity].
    as_preserves carries.
    unfold onMutations, recordMutation, pushMutation, setTimer. carries.
  - destruct (timerKind i w) as [[]|]; [| | |reflexivity];
      as_preserves carries;
      unfold expire, flushTick, mutationTick, heartbeat, scheduleFlush,
        setTimer, sendFieldMetricsSummary; carries.
  - destruct (inflight (host w) !! n) as [r|] eqn:Hr; [|reflexivity].
    destruct p as [status|]; [now specialize (Hl n status)|]. split.
    + rewrite exec_after by reflexivity.
      now destruct (settle_carries r Rejected
                      (exec (upd_host (fun h =>
                               set_inflight (delete n (inflight h)) h)) w))
        as [-> _].
    + intros Hf. now apply settle_rejected_carries.
  - destruct (hasFetch (host w)); [|reflexivity].
    as_preserves carries. carries.
  - unfold xhrLayer, errorEvent. carries.
  - unfold consoleErrorLayer, errorEvent. carries.
  - unfold onWindowError, errorEvent. carries.
  - unfold onUnhandledRejection, errorEvent. carries.
  - unfold onBeforeUnload, sendFieldMetricsSummary. carries.
  - unfold onVisibilityChange, sendFieldMetricsSummary. carries.
Qed.

Lemma run_carries ls : forall w,
  Forall (fun l => forall n status, l <> Settle n (Fulfilled status)) ls ->
  carries w (run ls w).
Proof.
  induction ls as [|l ls IH]; intros w Hls; [reflexivity|].
  inversion Hls; subst. cbn.
  transitivity (react l w); [now apply react_carries|now apply IH].
Qed.

(** X26, [enqueue], [flush] and its [catch]: in a host with [fetch] no
    waiting record is dropped. Whatever sequence of calls and callbacks
    runs, as long as no request settles with a response, every record
    that was in the queue, in an unsettled request of the script or
    handed to [sendBeacon] is still in one of these places, as often as
    before. A record leaves them only when its request gets a response. *)
Theorem records_are_not_lost (w : World) (ls : list Label) :
  hasFetch (host w) = true ->
  Forall (fun l => forall n status, l <> Settle n (Fulfilled status)) ls ->
  outbox w ⊆+ outbox (run ls w).
Proof. intros Hf Hls. now apply (run_carries ls w Hls). Qed.

Lemma records_are_not_lost_witness :
  hasFetch (host started) = true /\
  Forall (fun l => forall n status, l <> Settle n (Fulfilled status))
         [CallStop; Settle 0 Rejected] /\
  outbox started ⊆+ outbox (run [CallStop; Settle 0 Rejected] started).
Proof.
  assert (hasFetch (host started) = true) as H1 by (vm_compute; reflexivity).
  assert (Forall (fun l => forall n status, l <> Settle n (Fulfilled status))
                 [CallStop; Settle 0 Rejected]) as H2
    by (repeat constructor; intros; discriminate).
  split; [exact H1|]. split; [exact H2|].
  exact (records_are_not_lost started [CallStop; Settle 0 Rejected] H1 H2).
Defined.
